(** * The cache lifecycle controller of the calendar calculator (sw.js)

    A shallow embedding of the service worker [src/sw.js]: its install,
    activate and fetch listeners and the functions they call, written as
    promise programs over the platform operations they invoke
    (CacheStorage, fetch, Clients), together with a small executable
    semantics of promises on a single-threaded event loop.

    Platform model.  A platform operation is _called_ by the script and
    _settles_ later, when the event loop delivers its result; its effect
    on the cache storage is applied when it settles.  Script code between
    two suspension points runs to completion.  Which pending operation
    settles next is chosen by a schedule, so that every interleaving the
    event loop allows is a run of the model.  [fetch] answers as the
    network oracle of the world says; [cache.put] rejects the responses
    the Cache interface refuses (a partial response, a response that
    varies on everything); the other cache and client operations do not
    fail. *)

From Stdlib Require Import Ascii String ZArith Lia.
From stdpp Require Import gmap strings list fin_maps.

Set Warnings "-register-all".

Open Scope string_scope.
Open Scope list_scope.
Open Scope stdpp_scope.

(** ** Strings: the three String.prototype tests the script uses *)

Definition startsWith (s p : string) : bool := String.prefix p s.

Fixpoint includes (s p : string) : bool :=
  String.prefix p s ||
  match s with
  | EmptyString => false
  | String _ s' => includes s' p
  end.

Fixpoint endsWith (s p : string) : bool :=
  String.eqb s p ||
  match s with
  | EmptyString => false
  | String _ s' => endsWith s' p
  end.

(** ** Data *)

#[local] Set Primitive Projections.

(** A response: its status, the Content-Type header (the one header the
    script reads), whether the Vary header has the member [*] (the one
    header the cache reads), and the text of the body. *)
Record Response := mkResponse {
  status : Z;
  content_type : string;
  body : string;
  vary_star : bool
}.

(** [response.ok]: a status in the range 200-299. *)
Definition ok (r : Response) : bool := (200 <=? status r)%Z && (status r <=? 299)%Z.

(** [cache.put(request, r)] stores [r] unless its status is 206 (Partial
    Content) or its Vary header has the member [*]: the promise is then
    rejected with a TypeError, whose message (as Chromium words it) is
    [put_error r], and the cache is left as it is.  The status is looked
    at first. *)
Definition put_accepts (r : Response) : bool :=
  negb (status r =? 206)%Z && negb (vary_star r).

Definition put_error (r : Response) : string :=
  if (status r =? 206)%Z
  then "Failed to execute 'put' on 'Cache': Partial response (status code 206) is unsupported"
  else "Failed to execute 'put' on 'Cache': Vary header contains *".

Record Request := mkRequest {
  url : string;
  method : string;
  destination : string;
  mode : string;
  accept : option string   (* request.headers.get('accept') *)
}.

Definition client := nat.

Inductive message :=
| SW_ACTIVATED (cacheName version : string)
| UPDATE_AVAILABLE (resource : string).

Inductive fetch_opts := FetchPlain | FetchWithSignal | FetchNoCache.

(** What the network does with a request for a URL. *)
Inductive net_result :=
| NetOk (r : Response)
| NetFail
| NetTimeout.

Inductive jsval :=
| VUndefined
| VNull
| VResponse (r : Response).

Inductive outcome :=
| Fulfilled (v : jsval)
| Rejected (e : string).

Definition is_fulfilled (o : outcome) : bool :=
  match o with Fulfilled _ => true | Rejected _ => false end.

Definition is_rejected (o : outcome) : bool :=
  match o with Fulfilled _ => false | Rejected _ => true end.

(** ** Platform operations (asynchronous) and script actions (synchronous) *)

Inductive op :=
| CachesOpen (name : string)
| CacheMatch (cache key : string)
| CachePut (cache key : string) (r : Response)
| CachesKeys
| CachesDelete (name : string)
| Fetch (u : string) (o : fetch_opts)
| ClientsClaim
| ClientsMatchAll
| SkipWaiting.

Definition op_reply (o : op) : Type :=
  match o with
  | CachesOpen _ => unit
  | CacheMatch _ _ => option Response
  | CachePut _ _ _ => (string + unit)%type
  | CachesKeys => list string
  | CachesDelete _ => bool
  | Fetch _ _ => (string + Response)%type
  | ClientsClaim => unit
  | ClientsMatchAll => list client
  | SkipWaiting => unit
  end.

Inductive log_line :=
| LogInstalling
| LogOpenedCache
| LogWarnFailedToCache (u e : string)
| LogCacheCreationComplete (successful failed : nat)
| LogInstallationFailed (e : string)
| LogActivating
| LogDeletingOldCache (name : string)
| LogActivationComplete
| LogNotified (n : nat)
| LogActivationError (e : string)
| LogServingFromCache (u : string)
| LogCacheMiss (u : string)
| LogRequestHandlingFailed (e : string)
| LogNetworkSuccess (u : string)
| LogNetworkFailed (e : string)
| LogBackgroundUpdateDetected
| LogBackgroundUpdateFailed.

Inductive act :=
| Log (l : log_line)
| PostMessage (c : client) (m : message)
| SetInstalled (b : bool)
| ReadLastBackgroundUpdate
| WriteLastBackgroundUpdate (t : Z)
| DateNow
| SetTimeout (ms : Z)
| ClearTimeout.

Definition act_reply (a : act) : Type :=
  match a with
  | ReadLastBackgroundUpdate => option Z
  | DateNow => Z
  | _ => unit
  end.

(** ** Promise programs

    [Await o k] calls the operation [o] and suspends until it settles;
    [Spawn p k] starts [p] and goes on without waiting for it (a promise
    that nobody awaits); [All] and [AllSettled] are Promise.all and
    Promise.allSettled over promises started left to right. *)

Inductive proc :=
| Ret (v : jsval)
| Throw (e : string)
| Sync (a : act) (k : act_reply a → proc)
| Await (o : op) (k : op_reply o → proc)
| Spawn (p : proc) (k : proc)
| All (ps : list proc) (k : string + list jsval → proc)
| AllSettled (ps : list proc) (k : list outcome → proc).

(** promise.then(f) *)
Fixpoint then_ (p : proc) (f : jsval → proc) : proc :=
  match p with
  | Ret v => f v
  | Throw e => Throw e
  | Sync a k => Sync a (λ x, then_ (k x) f)
  | Await o k => Await o (λ x, then_ (k x) f)
  | Spawn q k => Spawn q (then_ k f)
  | All ps k => All ps (λ x, then_ (k x) f)
  | AllSettled ps k => AllSettled ps (λ x, then_ (k x) f)
  end.

(** promise.catch(h), and try { p } catch (e) { h e } in an async function *)
Fixpoint catch_ (p : proc) (h : string → proc) : proc :=
  match p with
  | Ret v => Ret v
  | Throw e => h e
  | Sync a k => Sync a (λ x, catch_ (k x) h)
  | Await o k => Await o (λ x, catch_ (k x) h)
  | Spawn q k => Spawn q (catch_ k h)
  | All ps k => All ps (λ x, catch_ (k x) h)
  | AllSettled ps k => AllSettled ps (λ x, catch_ (k x) h)
  end.

(** A started program: settled, waiting for one operation, or waiting
    for the promises of an aggregate. *)
Inductive run :=
| RDone (o : outcome)
| RWait (o : op) (k : op_reply o → proc)
| RAll (cs : list run) (k : string + list jsval → proc)
| RAllSettled (cs : list run) (k : list outcome → proc).

Inductive event :=
| EvCall (o : op)
| EvSettle (o : op)
| EvAct (a : act)
| EvWaitUntil (task : nat)
| EvRespondWith (task : nat)
| EvDone (task : nat) (o : outcome).

(** ** The world and the worker's state *)

Record world := mkWorld {
  caches : gmap string (gmap string Response);
  clients : list client;
  controlling : bool;
  skipped_waiting : bool;
  net : string → net_result
}.

Record state := mkState {
  env : world;
  isInstalled : bool;
  installPromise : option nat;
  lastBackgroundUpdate : option Z;
  now : Z;
  tasks : list run
}.

Definition set_env (s : state) (w : world) : state :=
  mkState w (isInstalled s) (installPromise s) (lastBackgroundUpdate s) (now s) (tasks s).

Definition set_tasks (s : state) (ts : list run) : state :=
  mkState (env s) (isInstalled s) (installPromise s) (lastBackgroundUpdate s) (now s) ts.

Definition set_caches (w : world) (c : gmap string (gmap string Response)) : world :=
  mkWorld c (clients w) (controlling w) (skipped_waiting w) (net w).

Definition fetch_reply (r : net_result) : string + Response :=
  match r with
  | NetOk resp => inr resp
  | NetFail => inl "Failed to fetch"
  | NetTimeout => inl "The operation was aborted"
  end.

(** The result of a platform operation and its effect on the world.
    caches.open creates a cache that does not exist; cache.put replaces
    the entry of its key when it accepts the response, and otherwise is
    rejected and changes nothing (the storage is taken to have room for
    what it accepts); caches.keys lists the names in the order of the
    map; a fetch with the abort signal of the five-second timer is
    rejected like any other when the network says [NetTimeout]. *)
Definition perform (o : op) (w : world) : op_reply o * world :=
  match o return op_reply o * world with
  | CachesOpen name =>
      (tt, match caches w !! name with
           | Some _ => w
           | None => set_caches w (<[name := ∅]> (caches w))
           end)
  | CacheMatch cache key => (caches w !! cache ≫= λ c, c !! key, w)
  | CachePut cache key r =>
      if put_accepts r then
        (inr tt,
         set_caches w (<[cache := <[key := r]> (default ∅ (caches w !! cache))]> (caches w)))
      else (inl (put_error r), w)
  | CachesKeys => (elements (dom (caches w)), w)
  | CachesDelete name =>
      (bool_decide (is_Some (caches w !! name)), set_caches w (delete name (caches w)))
  | Fetch u _ => (fetch_reply (net w u), w)
  | ClientsClaim => (tt, mkWorld (caches w) (clients w) true (skipped_waiting w) (net w))
  | ClientsMatchAll => (clients w, w)
  | SkipWaiting => (tt, mkWorld (caches w) (clients w) (controlling w) true (net w))
  end.

(** The result of a synchronous action and its effect on the worker. *)
Definition do_act (a : act) (s : state) : act_reply a * state :=
  match a return act_reply a * state with
  | SetInstalled b =>
      (tt, mkState (env s) b (installPromise s) (lastBackgroundUpdate s) (now s) (tasks s))
  | ReadLastBackgroundUpdate => (lastBackgroundUpdate s, s)
  | WriteLastBackgroundUpdate t =>
      (tt, mkState (env s) (isInstalled s) (installPromise s) (Some t) (now s) (tasks s))
  | DateNow => (now s, s)
  | Log _ => (tt, s)
  | PostMessage _ _ => (tt, s)
  | SetTimeout _ => (tt, s)
  | ClearTimeout => (tt, s)
  end.

(** ** Semantics of promises *)

Definition run_outcome (r : run) : option outcome :=
  match r with RDone o => Some o | _ => None end.

Definition is_done (r : run) : bool :=
  match r with RDone _ => true | _ => false end.

(** The first rejection among the promises of Promise.all, if any. *)
Fixpoint first_rejected (cs : list run) : option string :=
  match cs with
  | [] => None
  | RDone (Rejected e) :: _ => Some e
  | _ :: cs' => first_rejected cs'
  end.

(** The values of the promises when all of them are fulfilled. *)
Fixpoint all_values (cs : list run) : option (list jsval) :=
  match cs with
  | [] => Some []
  | RDone (Fulfilled v) :: cs' => (v ::.) <$> all_values cs'
  | _ :: _ => None
  end.

(** The outcomes of the promises when all of them are settled. *)
Fixpoint all_outcomes (cs : list run) : option (list outcome) :=
  match cs with
  | [] => Some []
  | RDone o :: cs' => (o ::.) <$> all_outcomes cs'
  | _ :: _ => None
  end.

(** Runs a program up to its suspension points.  Promises of a rejected
    Promise.all that are still pending go on as tasks of their own. *)
Fixpoint start (p : proc) (s : state) : run * state * list event :=
  match p with
  | Ret v => (RDone (Fulfilled v), s, [])
  | Throw e => (RDone (Rejected e), s, [])
  | Sync a k =>
      let '(x, s1) := do_act a s in
      let '(r, s2, evs) := start (k x) s1 in
      (r, s2, EvAct a :: evs)
  | Await o k => (RWait o k, s, [EvCall o])
  | Spawn q k =>
      let '(rq, s1, e1) := start q s in
      let '(r, s2, e2) := start k (set_tasks s1 (tasks s1 ++ [rq])) in
      (r, s2, e1 ++ e2)
  | All ps k =>
      let '(cs, s1, e1) :=
        (fix start_list (ps : list proc) (s : state) : list run * state * list event :=
           match ps with
           | [] => ([], s, [])
           | p :: ps' =>
               let '(c, s1, e1) := start p s in
               let '(cs, s2, e2) := start_list ps' s1 in
               (c :: cs, s2, e1 ++ e2)
           end) ps s in
      match first_rejected cs with
      | Some e =>
          let '(r, s2, e2) :=
            start (k (inl e)) (set_tasks s1 (tasks s1 ++ filter (λ c, is_done c = false) cs)) in
          (r, s2, e1 ++ e2)
      | None =>
          match all_values cs with
          | Some vs => let '(r, s2, e2) := start (k (inr vs)) s1 in (r, s2, e1 ++ e2)
          | None => (RAll cs k, s1, e1)
          end
      end
  | AllSettled ps k =>
      let '(cs, s1, e1) :=
        (fix start_list (ps : list proc) (s : state) : list run * state * list event :=
           match ps with
           | [] => ([], s, [])
           | p :: ps' =>
               let '(c, s1, e1) := start p s in
               let '(cs, s2, e2) := start_list ps' s1 in
               (c :: cs, s2, e1 ++ e2)
           end) ps s in
      match all_outcomes cs with
      | Some os => let '(r, s2, e2) := start (k os) s1 in (r, s2, e1 ++ e2)
      | None => (RAllSettled cs k, s1, e1)
      end
  end.

(** The local function of [start], for the statements about it. *)
Fixpoint start_list (ps : list proc) (s : state) : list run * state * list event :=
  match ps with
  | [] => ([], s, [])
  | p :: ps' =>
      let '(c, s1, e1) := start p s in
      let '(cs, s2, e2) := start_list ps' s1 in
      (c :: cs, s2, e1 ++ e2)
  end.

(** The number of operations a started program is waiting for. *)
Fixpoint leaves (r : run) : nat :=
  match r with
  | RDone _ => 0
  | RWait _ _ => 1
  | RAll cs _ => foldr (λ c n, leaves c + n) 0 cs
  | RAllSettled cs _ => foldr (λ c n, leaves c + n) 0 cs
  end.

Definition leaves_list (cs : list run) : nat := foldr (λ c n, leaves c + n) 0 cs.

(** Promise.all after one of its promises moved. *)
Definition join_all (cs : list run) (k : string + list jsval → proc) (s : state)
  : run * state * list event :=
  match first_rejected cs with
  | Some e => start (k (inl e)) (set_tasks s (tasks s ++ filter (λ c, is_done c = false) cs))
  | None =>
      match all_values cs with
      | Some vs => start (k (inr vs)) s
      | None => (RAll cs k, s, [])
      end
  end.

Definition join_all_settled (cs : list run) (k : list outcome → proc) (s : state)
  : run * state * list event :=
  match all_outcomes cs with
  | Some os => start (k os) s
  | None => (RAllSettled cs k, s, [])
  end.

(** Settles the [n]-th pending operation of a started program (counted
    left to right) and runs the script up to its next suspension points. *)
Fixpoint settle (n : nat) (r : run) (s : state) : run * state * list event :=
  match r with
  | RDone o => (RDone o, s, [])
  | RWait o k =>
      let '(x, w1) := perform o (env s) in
      let '(r1, s1, e1) := start (k x) (set_env s w1) in
      (r1, s1, EvSettle o :: e1)
  | RAll cs k =>
      let '(cs1, s1, e1) :=
        (fix settle_list (n : nat) (cs : list run) (s : state) : list run * state * list event :=
           match cs with
           | [] => ([], s, [])
           | c :: cs' =>
               if Nat.ltb n (leaves c) then
                 let '(c1, s1, e1) := settle n c s in (c1 :: cs', s1, e1)
               else
                 let '(cs1, s1, e1) := settle_list (n - leaves c) cs' s in (c :: cs1, s1, e1)
           end) n cs s in
      let '(r2, s2, e2) := join_all cs1 k s1 in
      (r2, s2, e1 ++ e2)
  | RAllSettled cs k =>
      let '(cs1, s1, e1) :=
        (fix settle_list (n : nat) (cs : list run) (s : state) : list run * state * list event :=
           match cs with
           | [] => ([], s, [])
           | c :: cs' =>
               if Nat.ltb n (leaves c) then
                 let '(c1, s1, e1) := settle n c s in (c1 :: cs', s1, e1)
               else
                 let '(cs1, s1, e1) := settle_list (n - leaves c) cs' s in (c :: cs1, s1, e1)
           end) n cs s in
      let '(r2, s2, e2) := join_all_settled cs1 k s1 in
      (r2, s2, e1 ++ e2)
  end.

(** The local function of [settle], for the statements about it. *)
Fixpoint settle_list (n : nat) (cs : list run) (s : state) : list run * state * list event :=
  match cs with
  | [] => ([], s, [])
  | c :: cs' =>
      if Nat.ltb n (leaves c) then
        let '(c1, s1, e1) := settle n c s in (c1 :: cs', s1, e1)
      else
        let '(cs1, s1, e1) := settle_list (n - leaves c) cs' s in (c :: cs1, s1, e1)
  end.

(** ** The event loop *)

Definition pending (s : state) : nat := leaves_list (tasks s).

(** The task that holds the [n]-th pending operation, and the position
    of that operation in the task. *)
Fixpoint locate (n : nat) (ts : list run) (i : nat) : option (nat * nat) :=
  match ts with
  | [] => None
  | t :: ts' =>
      if Nat.ltb n (leaves t) then Some (i, n) else locate (n - leaves t) ts' (S i)
  end.

Definition done_event (i : nat) (r : run) : list event :=
  match r with RDone o => [EvDone i o] | _ => [] end.

(** One turn of the event loop: the operation the schedule picks settles
    (the first pending one when the pick is out of range); nothing
    happens when no operation is pending. *)
Definition step (n : nat) (s : state) : state * list event :=
  match locate (if Nat.ltb n (pending s) then n else 0) (tasks s) 0 with
  | None => (s, [])
  | Some (i, m) =>
      match tasks s !! i with
      | None => (s, [])
      | Some t =>
          let '(t1, s1, evs) := settle m t s in
          (set_tasks s1 (<[i := t1]> (tasks s1)), evs ++ done_event i t1)
      end
  end.

Fixpoint exec (sched : list nat) (s : state) : state * list event :=
  match sched with
  | [] => (s, [])
  | n :: rest =>
      let '(s1, e1) := step n s in
      let '(s2, e2) := exec rest s1 in
      (s2, e1 ++ e2)
  end.

(** Starts a program as a new task; the task's number is returned. *)
Definition spawn_task (p : proc) (s : state) : nat * state * list event :=
  let '(r, s1, evs) := start p s in
  (length (tasks s1), set_tasks s1 (tasks s1 ++ [r]), evs).

(** A worker that has just been started: no task, no flag set. *)
Definition fresh (w : world) (t : Z) : state := mkState w false None None t [].

Definition nl : string := String "010"%char EmptyString.
Definition dq : string := String "034"%char EmptyString.
Definition bytes (l : list nat) : string := string_of_list_ascii (map Ascii.ascii_of_nat l).

Definition offlineHTML : string :=
  String.concat nl [
    "<!DOCTYPE html>";
    "<html lang=" +:+ dq +:+ "cs" +:+ dq +:+ ">";
    "<head>";
    "    <meta charset=" +:+ dq +:+ "UTF-8" +:+ dq +:+ ">";
    "    <meta name=" +:+ dq +:+ "viewport" +:+ dq +:+ " content=" +:+ dq +:+ "width=device-width, initial-scale=1.0" +:+ dq +:+ ">";
    "    <title>Kalend" +:+ bytes [226; 136; 154; 194; 176; 226; 137; 136; 195; 180] +:+ "n" +:+ bytes [226; 136; 154; 226; 137; 160] +:+ " kalkul" +:+ bytes [226; 136; 154; 194; 176] +:+ "tor - Offline</title>";
    "    <style>";
    "        body {";
    "            font-family: Arial, sans-serif;";
    "            background: linear-gradient(135deg, #8B7355 0%, #4A4A3A 100%);";
    "            color: #F5E6D3; margin: 0; padding: 20px; min-height: 100vh;";
    "            display: flex; align-items: center; justify-content: center; text-align: center;";
    "        }";
    "        .container { ";
    "            background: rgba(0,0,0,0.3); padding: 40px; border-radius: 20px; max-width: 500px; ";
    "        }";
    "        h1 { margin-bottom: 20px; color: #CDBA96; }";
    "        .status { ";
    "            background: #f59e0b; color: white; padding: 15px 25px; border-radius: 25px; ";
    "            margin: 20px 0; font-weight: bold; ";
    "        }";
    "        button { ";
    "            background: #8B7355; color: white; border: none; padding: 15px 30px; ";
    "            border-radius: 10px; font-size: 16px; cursor: pointer; margin: 10px; ";
    "        }";
    "        button:hover { background: #6B5B47; }";
    "    </style>";
    "</head>";
    "<body>";
    "    <div class=" +:+ dq +:+ "container" +:+ dq +:+ ">";
    "        <h1>" +:+ bytes [239; 163; 191; 195; 188; 195; 172; 195; 150] +:+ " Kalend" +:+ bytes [226; 136; 154; 194; 176; 226; 137; 136; 195; 180] +:+ "n" +:+ bytes [226; 136; 154; 226; 137; 160] +:+ " kalkul" +:+ bytes [226; 136; 154; 194; 176] +:+ "tor</h1>";
    "        <div class=" +:+ dq +:+ "status" +:+ dq +:+ ">" +:+ bytes [239; 163; 191; 195; 188; 195; 172; 194; 177] +:+ " Cache se na" +:+ bytes [198; 146; 195; 167; 226; 136; 154; 226; 137; 160] +:+ "t" +:+ bytes [226; 136; 154; 194; 176] +:+ "...</div>";
    "        <p>Aplikace se p" +:+ bytes [226; 137; 136; 195; 180] +:+ "ipravuje pro offline pou" +:+ bytes [226; 137; 136; 195; 166] +:+ "it" +:+ bytes [226; 136; 154; 226; 137; 160] +:+ ".</p>";
    "        <button onclick=" +:+ dq +:+ "window.location.reload()" +:+ dq +:+ ">" +:+ bytes [239; 163; 191; 195; 188; 195; 174; 195; 145] +:+ " Zkusit znovu</button>";
    "    </div>";
    "</body>";
    "</html>"
  ].

(** ** A deployment on which the statements below are exercised *)

Definition ex_origin : string := "https://example.org".
Definition ex_scope : string := "https://example.org/app/".
Definition ex_stamp : string := "1700000000000".

Definition ex_page (u : string) : Response := mkResponse 200 "text/plain" u false.

(** The network serves every URL except the Russian catalogue (no
    answer) and the Ukrainian one (404). *)
Definition ex_net (u : string) : net_result :=
  if String.eqb u "https://example.org/app/i18n/ru.json" then NetFail
  else if String.eqb u "https://example.org/app/i18n/uk.json" then
    NetOk (mkResponse 404 "text/html" "Not Found" false)
  else NetOk (ex_page u).

(** The storage holds the cache of an older version and an unrelated cache. *)
Definition ex_world : world :=
  mkWorld
    (<["calendar-calculator-v1.71-1690000000000" := ∅]> (<["fonts" := ∅]> ∅))
    [1; 2] false false ex_net.

Definition ex_state : state := fresh ex_world 1700000000500.

(** The same worker started while the network is down. *)
Definition ex_offline_state : state :=
  fresh (mkWorld (caches ex_world) (clients ex_world) false false (λ _, NetFail)) 1700000000500.

(** The same storage behind a server that answers every request, the
    one for the manifest with a partial response (status 206). *)
Definition ex_range_net (u : string) : net_result :=
  if String.eqb u "https://example.org/app/manifest.json" then
    NetOk (mkResponse 206 "application/json" "{ }" false)
  else NetOk (ex_page u).

Definition ex_range_state : state :=
  fresh (mkWorld (caches ex_world) (clients ex_world) false false ex_range_net) 1700000000500.

(** The worker once the current version is installed: its cache holds
    the start page next to the cache of the older version. *)
Definition ex_installed_world : world :=
  mkWorld
    (<["calendar-calculator-v1.72-1700000000000" :=
         {["https://example.org/app/" := ex_page "https://example.org/app/"]}]>
       (caches ex_world))
    [1; 2] false true ex_net.

Definition ex_installed_state : state := fresh ex_installed_world 1700000001000.

(** A navigation to the worker's own script, and the request of a script
    of the page. *)
Definition ex_worker_script_request : Request :=
  mkRequest "https://example.org/app/sw.js" "GET" "document" "navigate" (Some "text/html").

Definition ex_script_request : Request :=
  mkRequest "https://example.org/app/i18n.js" "GET" "script" "no-cors" (Some "*/*").

(** The installed worker with a copy of its own script in the cache and
    the network down. *)
Definition ex_cut_off_state : state :=
  fresh
    (mkWorld
       (<["calendar-calculator-v1.72-1700000000000" :=
            {["https://example.org/app/sw.js" := ex_page "https://example.org/app/sw.js"]}]>
          ∅)
       [1; 2] true true (λ _, NetFail))
    1700000002000.

(** A navigation to the start page. *)
Definition ex_page_request : Request :=
  mkRequest "https://example.org/app/" "GET" "document" "navigate" (Some "text/html").

(** The installed worker when the start page has changed on the server:
    the cache still holds the text of the previous deployment. *)
Definition ex_stale_world : world :=
  mkWorld
    (<["calendar-calculator-v1.72-1700000000000" :=
         {["https://example.org/app/" := mkResponse 200 "text/html" "the page of yesterday" false]}]>
       ∅)
    [1; 2] true true ex_net.

Definition ex_stale_state : state := fresh ex_stale_world 1700000003000.

(** A navigation to a page of the application that the manifest does not
    list. *)
Definition ex_about_request : Request :=
  mkRequest "https://example.org/app/about" "GET" "document" "navigate" (Some "text/html").

(** ** The script

    The definitions keep the names of [src/sw.js]; the numbers are its
    lines.  An anonymous callback gets the name of what it does. *)

Section ServiceWorker.

(** [self.location.origin], the URL of the directory the script is served
    from (relative URLs resolve against it), and the decimal rendering of
    [new Date().getTime()] taken when the script starts. *)
Variables (origin scope boot_stamp : string).

(** Lines 2-4 and 6-19. *)
Definition CACHE_BASE_NAME : string := "calendar-calculator".
Definition CACHE_VERSION : string := "v1.72-" +:+ boot_stamp.
Definition CACHE_NAME : string := CACHE_BASE_NAME +:+ "-" +:+ CACHE_VERSION.

Arguments CACHE_NAME : simpl never.
Arguments CACHE_VERSION : simpl never.

Definition URLS_TO_CACHE : list string := [
  "./";
  "./index.html";
  "./i18n.js";
  "./manifest.json";
  "./sw.js";
  "./i18n/cs.json";
  "./i18n/en.json";
  "./i18n/de.json";
  "./i18n/fr.json";
  "./i18n/es.json";
  "./i18n/ru.json";
  "./i18n/uk.json"
].

(** The absolute URL a URL string of the script stands for: the cache
    and [fetch] both key on it. *)
Definition resolve (u : string) : string :=
  match u with
  | String "." (String "/" rest) => scope +:+ rest
  | String "/" _ => origin +:+ u
  | _ => u
  end.

Arguments resolve : simpl never.

(** fetch(u, opts) as a promise of a Response *)
Definition fetch_ (u : string) (o : fetch_opts) : proc :=
  Await (Fetch u o) (λ x, match x with inl e => Throw e | inr r => Ret (VResponse r) end).

(** cache.put(key, r) on the cache [cache], as a promise *)
Definition put_ (cache key : string) (r : Response) : proc :=
  Await (CachePut cache key r)
    (λ x, match x with inl e => Throw e | inr _ => Ret VUndefined end).

(** Promise.all(ps), its array of values not being used by the script *)
Definition promise_all (ps : list proc) : proc :=
  All ps (λ x, match x with inl e => Throw e | inr _ => Ret VUndefined end).

(** *** install *)

(** The two callbacks of the promise made for each URL of the manifest
    (lines 42-47 and 48-51): store a successful response, and log a
    failure -- of the fetch or of the put -- and go on. *)
Definition storeResponse (u : string) (v : jsval) : proc :=
  match v with
  | VResponse response =>
      if ok response then
        put_ CACHE_NAME (resolve u) response
      else Throw ("Failed to fetch: " +:+ u)
  | _ => Throw "TypeError"
  end.

Definition skipResource (u error : string) : proc :=
  Sync (Log (LogWarnFailedToCache u error)) (λ _, Ret VUndefined).

(** The function mapped over URLS_TO_CACHE (lines 40-52). *)
Definition cacheResource (u : string) : proc :=
  catch_ (then_ (fetch_ (resolve u) FetchPlain) (storeResponse u)) (skipResource u).

(** The callback that receives the results of Promise.allSettled (lines
    55-64), and the one that catches a failure of the whole chain (65-68). *)
Definition cacheCreationComplete (results : list outcome) : proc :=
  let successful := length (List.filter is_fulfilled results) in
  let failed := length (List.filter is_rejected results) in
  Sync (Log (LogCacheCreationComplete successful failed)) (λ _,
  Sync (SetInstalled true) (λ _,
  Await SkipWaiting (λ _, Ret VUndefined))).

Definition installationFailed (error : string) : proc :=
  Sync (Log (LogInstallationFailed error)) (λ _,
  Await SkipWaiting (λ _, Ret VUndefined)).

(** The promise kept in installPromise (lines 35-68). *)
Definition installTask : proc :=
  catch_
    (then_ (Await (CachesOpen CACHE_NAME) (λ _, Ret VUndefined)) (λ _,
       Sync (Log LogOpenedCache) (λ _,
       AllSettled (map cacheResource URLS_TO_CACHE) cacheCreationComplete)))
    installationFailed.

(** The install listener (lines 27-71). *)
Definition on_install (s : state) : state * list event :=
  match installPromise s with
  | Some p => (s, [EvAct (Log LogInstalling); EvWaitUntil p])
  | None =>
      let '(p, s1, evs) := spawn_task installTask s in
      (mkState (env s1) (isInstalled s1) (Some p) (lastBackgroundUpdate s1) (now s1) (tasks s1),
       EvAct (Log LogInstalling) :: evs ++ [EvWaitUntil p])
  end.

(** *** activate *)

(** The function mapped over the names caches.keys() gives (lines 82-87). *)
Definition deleteOldCache (cacheName : string) : proc :=
  if startsWith cacheName CACHE_BASE_NAME && negb (String.eqb cacheName CACHE_NAME) then
    Sync (Log (LogDeletingOldCache cacheName)) (λ _,
    Await (CachesDelete cacheName) (λ _, Ret VUndefined))
  else Ret VUndefined.

Definition notifyActivated (cs : list client) (k : proc) : proc :=
  foldr (λ c k, Sync (PostMessage c (SW_ACTIVATED CACHE_NAME CACHE_VERSION)) (λ _, k)) k cs.

(** The callbacks chained on the outer Promise.all (lines 93-109, the two
    thens taken together, and 110-112). *)
Definition activationComplete (_ : jsval) : proc :=
  Sync (Log LogActivationComplete) (λ _,
  Sync (SetInstalled true) (λ _,
  Await ClientsMatchAll (λ cs,
    notifyActivated cs (Sync (Log (LogNotified (length cs))) (λ _, Ret VUndefined))))).

Definition activationError (error : string) : proc :=
  Sync (Log (LogActivationError error)) (λ _, Ret VUndefined).

(** The promise handed to waitUntil (lines 78-112). *)
Definition activateTask : proc :=
  catch_
    (then_
       (promise_all [
          Await CachesKeys (λ cacheNames, promise_all (map deleteOldCache cacheNames));
          Await ClientsClaim (λ _, Ret VUndefined)
        ])
       activationComplete)
    activationError.

(** The activate listener (lines 74-114). *)
Definition on_activate (s : state) : state * list event :=
  let '(p, s1, evs) := spawn_task activateTask s in
  (s1, EvAct (Log LogActivating) :: evs ++ [EvWaitUntil p]).

(** *** fetch *)

(** Lines 187-194; [accept] is request.headers.get('accept'). *)
Definition isHTMLRequest (request : Request) : bool :=
  String.eqb (destination request) "document" ||
  String.eqb (mode request) "navigate" ||
  endsWith (url request) "/" ||
  includes (url request) "index.html" ||
  match accept request with
  | Some a => includes a "text/html"
  | None => false
  end.

(** Lines 279-322 and 325-330. *)
Definition createOfflineResponse : Response :=
  mkResponse 200 "text/html; charset=utf-8" offlineHTML false.

Definition createErrorResponse : Response :=
  mkResponse 500 "text/plain" "Service Worker Error" false.

(** The loop over the alternative keys (lines 177-180). *)
Fixpoint matchAlternatives (alternatives : list string) : proc :=
  match alternatives with
  | [] => Ret VNull
  | alt :: rest =>
      Await (CacheMatch CACHE_NAME (resolve alt)) (λ response,
        match response with
        | Some r => Ret (VResponse r)
        | None => matchAlternatives rest
        end)
  end.

(** The rest of getCachedResponse once the exact match has answered. *)
Definition exactMatch (request : Request) (response : option Response) : proc :=
  match response with
  | Some r => Ret (VResponse r)
  | None =>
      if isHTMLRequest request then matchAlternatives ["./"; "./index.html"; "/"]
      else Ret VNull
  end.

(** Lines 167-184. *)
Definition getCachedResponse (request : Request) : proc :=
  Await (CachesOpen CACHE_NAME) (λ _,
  Await (CacheMatch CACHE_NAME (url request)) (exactMatch request)).

Definition notifyUpdate (u : string) (cs : list client) (k : proc) : proc :=
  foldr (λ c k, Sync (PostMessage c (UPDATE_AVAILABLE u)) (λ _, k)) k cs.

(** new Response(text, { headers: response.headers }): status 200 under
    the headers of [response]. *)
Definition withHeadersOf (response : Response) (text : string) : Response :=
  mkResponse 200 (content_type response) text (vary_star response).

(** The promise chain updateInBackground leaves behind (lines 242-275):
    a put that is rejected ends the callback, and the catch logs it. *)
Definition backgroundRefresh (request : Request) : proc :=
  catch_
    (then_ (fetch_ (url request) FetchNoCache) (λ v,
       match v with
       | VResponse response =>
           if ok response then
             let newContent := body response in
             Await (CachesOpen CACHE_NAME) (λ _,
             Await (CacheMatch CACHE_NAME (url request)) (λ cachedResponse,
               match cachedResponse with
               | Some cached =>
                   if negb (String.eqb newContent (body cached)) then
                     Sync (Log LogBackgroundUpdateDetected) (λ _,
                     then_ (put_ CACHE_NAME (url request)
                              (withHeadersOf response newContent)) (λ _,
                     Await ClientsMatchAll (λ cs,
                       notifyUpdate (url request) cs (Ret VUndefined))))
                   else Ret VUndefined
               | None => Ret VUndefined
               end))
           else Ret VUndefined
       | _ => Ret VUndefined
       end))
    (λ _, Sync (Log LogBackgroundUpdateFailed) (λ _, Ret VUndefined)).

(** updateInBackground(request) (lines 233-276), followed by [k], the rest
    of the caller: a number is truthy when it is not 0, and Date.now() is
    only read when the timestamp is. *)
Definition updateInBackground (request : Request) (k : proc) : proc :=
  let refresh :=
    Sync DateNow (λ t,
    Sync (WriteLastBackgroundUpdate t) (λ _,
    Spawn (backgroundRefresh request) k)) in
  Sync ReadLastBackgroundUpdate (λ last,
    match last with
    | Some l =>
        if negb (l =? 0)%Z then
          Sync DateNow (λ t, if (t - l <? 30000)%Z then k else refresh)
        else refresh
    | None => refresh
    end).

(** The try block of tryNetwork once fetch has answered (lines 207-217):
    the put of the copy is called and not awaited, so that nothing
    handles its rejection. *)
Definition networkAnswered (request : Request) (x : string + Response) : proc :=
  match x with
  | inl e => Throw e
  | inr response =>
      Sync ClearTimeout (λ _,
      if ok response then
        Await (CachesOpen CACHE_NAME) (λ _,
        Spawn (put_ CACHE_NAME (url request) response)
          (Sync (Log (LogNetworkSuccess (url request))) (λ _,
           Ret (VResponse response))))
      else Throw "Network response not ok")
  end.

(** The catch block of tryNetwork (lines 219-229). *)
Definition networkFailed (request : Request) (error : string) : proc :=
  Sync ClearTimeout (λ _,
  Sync (Log (LogNetworkFailed error)) (λ _,
  if isHTMLRequest request then Ret (VResponse createOfflineResponse)
  else Throw error)).

(** Lines 197-230.  The timer only leaves its two events in the trace:
    whether it fires before the network answers is the network's say. *)
Definition tryNetwork (request : Request) : proc :=
  Sync (SetTimeout 5000) (λ _,
  catch_
    (Await (Fetch (url request) FetchWithSignal) (networkAnswered request))
    (networkFailed request)).

(** The try block of handleRequest once getCachedResponse has answered
    (lines 145-158). *)
Definition serveOrFetch (request : Request) (cachedResponse : jsval) : proc :=
  match cachedResponse with
  | VResponse _ =>
      Sync (Log (LogServingFromCache (url request))) (λ _,
      if isHTMLRequest request then updateInBackground request (Ret cachedResponse)
      else Ret cachedResponse)
  | _ =>
      Sync (Log (LogCacheMiss (url request))) (λ _, tryNetwork request)
  end.

(** The catch block of handleRequest (lines 160-163). *)
Definition requestFailed (error : string) : proc :=
  Sync (Log (LogRequestHandlingFailed error)) (λ _,
  Ret (VResponse createErrorResponse)).

(** Lines 140-164. *)
Definition handleRequest (request : Request) : proc :=
  catch_ (then_ (getCachedResponse request) (serveOrFetch request)) requestFailed.

(** The fetch listener (lines 117-137): the task whose outcome answers
    the request, or [None] when the request is left to the browser. *)
Definition on_fetch (request : Request) (s : state) : option nat * state * list event :=
  if negb (String.eqb (method request) "GET") then (None, s, [])
  else if negb (startsWith (url request) origin) then (None, s, [])
  else if includes (url request) "sw.js" then
    let '(p, s1, evs) := spawn_task (fetch_ (url request) FetchPlain) s in
    (Some p, s1, evs ++ [EvRespondWith p])
  else
    let '(p, s1, evs) := spawn_task (handleRequest request) s in
    (Some p, s1, evs ++ [EvRespondWith p]).

(** ** Stages of an install run

    The promise made for a URL of the manifest is fetching, putting the
    response it got, or settled (stored or skipped). *)

Inductive phase :=
| PFetch
| PPut (r : Response)
| PStored (r : Response)
| PSkipped.

Definition fetching (u : string) : run :=
  RWait (Fetch (resolve u) FetchPlain)
    (λ x, catch_
            (then_ (match x with inl e => Throw e | inr r => Ret (VResponse r) end)
               (storeResponse u))
            (skipResource u)).

Definition putting (u : string) (r : Response) : run :=
  RWait (CachePut CACHE_NAME (resolve u) r)
    (λ x, catch_ (match x with inl e => Throw e | inr _ => Ret VUndefined end)
            (skipResource u)).

Definition child (u : string) (ph : phase) : run :=
  match ph with
  | PFetch => fetching u
  | PPut r => putting u r
  | PStored _ | PSkipped => RDone (Fulfilled VUndefined)
  end.

Definition settled (ph : phase) : bool :=
  match ph with PStored _ | PSkipped => true | _ => false end.

Definition stored (ph : phase) : bool :=
  match ph with PStored _ => true | _ => false end.

(** A fetch fails when the network gives no response or one that is not ok. *)
Definition fetch_fails (w : world) (u : string) : bool :=
  match net w (resolve u) with
  | NetOk r => negb (ok r)
  | _ => true
  end.

(** The fetch gives an ok response that the cache refuses to store. *)
Definition put_refused (w : world) (u : string) : bool :=
  match net w (resolve u) with
  | NetOk r => ok r && negb (put_accepts r)
  | _ => false
  end.

Definition phase_ok (w : world) (u : string) (ph : phase) : Prop :=
  match ph with
  | PFetch => True
  | PPut r => net w (resolve u) = NetOk r ∧ ok r = true
  | PStored r => net w (resolve u) = NetOk r ∧ ok r = true ∧ put_accepts r = true
  | PSkipped => fetch_fails w u || put_refused w u = true
  end.

(** What the specification asks of an install run that is over: the new
    cache has an entry for every URL of the manifest but those whose
    fetch failed. *)
Definition stores_all_but_failed_fetches (s0 s : state) : Prop :=
  size <$> caches (env s) !! CACHE_NAME =
  Some (length URLS_TO_CACHE - length (List.filter (fetch_fails (env s0)) URLS_TO_CACHE)).

(** The entries the settled promises have stored. *)
Definition cache_of (us : list string) (phs : list phase) : gmap string Response :=
  foldr (λ up c, match up.2 with PStored r => <[resolve up.1 := r]> c | _ => c end)
    ∅ (zip us phs).

Definition installing (results : list outcome) : proc :=
  catch_ (cacheCreationComplete results) installationFailed.

Definition opening : run :=
  RWait (CachesOpen CACHE_NAME)
    (λ x, catch_
            (then_ ((λ _, Ret VUndefined) x) (λ _,
               Sync (Log LogOpenedCache) (λ _,
               AllSettled (map cacheResource URLS_TO_CACHE) cacheCreationComplete)))
            installationFailed).

Definition skipping : run :=
  RWait SkipWaiting (λ x, catch_ ((λ _, Ret VUndefined) x) installationFailed).

Inductive istage :=
| IOpening
| IFetching (phs : list phase)
| ISkipping (phs : list phase)
| IDone (phs : list phase).

(** The worker during an install started in [s0]: only the cache
    storage, the two flags and the single task differ from [s0]. *)
Definition ist (s0 : state) (cs : gmap string (gmap string Response))
    (inst skip : bool) (r : run) : state :=
  mkState (mkWorld cs (clients (env s0)) (controlling (env s0)) skip (net (env s0)))
    inst (Some 0) (lastBackgroundUpdate s0) (now s0) [r].

Definition with_cache (s0 : state) (phs : list phase) : gmap string (gmap string Response) :=
  <[CACHE_NAME := cache_of URLS_TO_CACHE phs]> (caches (env s0)).

Definition irep (s0 : state) (a : istage) (s : state) : Prop :=
  match a with
  | IOpening =>
      s = ist s0 (caches (env s0)) (isInstalled s0) (skipped_waiting (env s0)) opening
  | IFetching phs =>
      Forall2 (phase_ok (env s0)) URLS_TO_CACHE phs ∧
      forallb settled phs = false ∧
      s = ist s0 (with_cache s0 phs) (isInstalled s0) (skipped_waiting (env s0))
            (RAllSettled (zip_with child URLS_TO_CACHE phs) installing)
  | ISkipping phs =>
      Forall2 (phase_ok (env s0)) URLS_TO_CACHE phs ∧
      forallb settled phs = true ∧
      s = ist s0 (with_cache s0 phs) true (skipped_waiting (env s0)) skipping
  | IDone phs =>
      Forall2 (phase_ok (env s0)) URLS_TO_CACHE phs ∧
      forallb settled phs = true ∧
      s = ist s0 (with_cache s0 phs) true true (RDone (Fulfilled VUndefined))
  end.

(** The settlements an install run still needs. *)
Definition phase_cost (ph : phase) : nat :=
  match ph with PFetch => 2 | PPut _ => 1 | _ => 0 end.

Definition icost (a : istage) : nat :=
  match a with
  | IOpening => 2 + 2 * length URLS_TO_CACHE
  | IFetching phs => 1 + sum_list (phase_cost <$> phs)
  | ISkipping _ => 1
  | IDone _ => 0
  end.

(** The events of a trace an install is judged by: the fetches, the two
    closing log lines and the settlement of the task. *)
Definition install_relevant (e : event) : bool :=
  match e with
  | EvCall (Fetch _ _) => true
  | EvAct (Log (LogCacheCreationComplete _ _)) => true
  | EvAct (Log (LogInstallationFailed _)) => true
  | EvDone _ _ => true
  | _ => false
  end.

Definition manifest_fetches : list event :=
  (λ u, EvCall (Fetch (resolve u) FetchPlain)) <$> URLS_TO_CACHE.

Definition idigest (a : istage) : list event :=
  match a with
  | IOpening => []
  | IFetching _ => manifest_fetches
  | ISkipping _ =>
      manifest_fetches ++
      [EvAct (Log (LogCacheCreationComplete (length URLS_TO_CACHE) 0))]
  | IDone _ =>
      manifest_fetches ++
      [EvAct (Log (LogCacheCreationComplete (length URLS_TO_CACHE) 0));
       EvDone 0 (Fulfilled VUndefined)]
  end.

Definition is_fetch_call (e : event) : bool :=
  match e with EvCall (Fetch _ _) => true | _ => false end.

(** ** Stages of an activation run

    The promise made for a cache name is fulfilled at once when the cache
    is kept, and otherwise waits for the deletion it has called. *)

Inductive dphase := DKeep | DPending | DDeleted.

(** The caches the cleanup deletes: versions of this application other
    than the current one. *)
Definition superseded (cacheName : string) : bool :=
  startsWith cacheName CACHE_BASE_NAME && negb (String.eqb cacheName CACHE_NAME).

Definition fulfilled : run := RDone (Fulfilled VUndefined).

Definition awaitingKeys : run :=
  RWait CachesKeys (λ cacheNames, promise_all (map deleteOldCache cacheNames)).

Definition awaitingClaim : run := RWait ClientsClaim (λ _, Ret VUndefined).

Definition deletingCache (n : string) : run :=
  RWait (CachesDelete n) (λ _, Ret VUndefined).

Definition joined (x : string + list jsval) : proc :=
  match x with inl e => Throw e | inr _ => Ret VUndefined end.

Definition activating (x : string + list jsval) : proc :=
  catch_ (then_ (joined x) activationComplete) activationError.

Definition notifying : run :=
  RWait ClientsMatchAll
    (λ x, catch_
            ((λ cs, notifyActivated cs
                      (Sync (Log (LogNotified (length cs))) (λ _, Ret VUndefined))) x)
            activationError).

Definition dchild (n : string) (ph : dphase) : run :=
  match ph with
  | DPending => deletingCache n
  | DKeep | DDeleted => fulfilled
  end.

Definition dsettled (ph : dphase) : bool :=
  match ph with DPending => false | _ => true end.

Definition claim_child (claimed : bool) : run :=
  if claimed then fulfilled else awaitingClaim.

(** The inner Promise.all: fulfilled as soon as no deletion is pending. *)
Definition cleanup (names : list string) (dphs : list dphase) : run :=
  if forallb dsettled dphs then fulfilled
  else RAll (zip_with dchild names dphs) joined.

Definition initial_dphase (n : string) : dphase :=
  if superseded n then DPending else DKeep.

Definition dphase_ok (n : string) (ph : dphase) : Prop :=
  match ph with
  | DKeep => superseded n = false
  | DPending | DDeleted => superseded n = true
  end.

(** The events of starting the promises of the inner Promise.all. *)
Definition deletion_calls (names : list string) : list event :=
  flat_map (λ n, if superseded n
                 then [EvAct (Log (LogDeletingOldCache n)); EvCall (CachesDelete n)]
                 else []) names.

Definition del_caches (names : list string) (dphs : list dphase)
    (c0 : gmap string (gmap string Response)) : gmap string (gmap string Response) :=
  foldr (λ np c, match np.2 with DDeleted => delete np.1 c | _ => c end) c0 (zip names dphs).

Inductive astage :=
| AKeys (claimed : bool)
| ADeleting (claimed : bool) (dphs : list dphase)
| ANotifying (dphs : list dphase)
| ADone (dphs : list dphase).

(** The worker during an activation started in [s0]. *)
Definition ast (s0 : state) (cs : gmap string (gmap string Response))
    (claimed inst : bool) (r : run) : state :=
  mkState
    (mkWorld cs (clients (env s0)) (if claimed then true else controlling (env s0))
       (skipped_waiting (env s0)) (net (env s0)))
    inst (installPromise s0) (lastBackgroundUpdate s0) (now s0) [r].

Definition stored_names (s0 : state) : list string := elements (dom (caches (env s0))).

Definition activation_notice (c : client) : event :=
  EvAct (PostMessage c (SW_ACTIVATED CACHE_NAME CACHE_VERSION)).

(** What a trace shows before the clients are notified: no notification
    yet, and the settlement of every operation that has settled. *)
Definition silent (tr : list event) : Prop :=
  ∀ c m, ¬ In (EvAct (PostMessage c m)) tr.

Definition claim_seen (claimed : bool) (tr : list event) : Prop :=
  claimed = true → In (EvSettle ClientsClaim) tr.

Definition deletions_seen (names : list string) (dphs : list dphase) (tr : list event) : Prop :=
  ∀ j n, names !! j = Some n → dphs !! j = Some DDeleted → In (EvSettle (CachesDelete n)) tr.

Definition arep (s0 : state) (a : astage) (s : state) (tr : list event) : Prop :=
  match a with
  | AKeys claimed =>
      silent tr ∧ claim_seen claimed tr ∧
      s = ast s0 (caches (env s0)) claimed (isInstalled s0)
            (RAll [awaitingKeys; claim_child claimed] activating)
  | ADeleting claimed dphs =>
      silent tr ∧ claim_seen claimed tr ∧
      deletions_seen (stored_names s0) dphs tr ∧
      Forall2 dphase_ok (stored_names s0) dphs ∧
      forallb dsettled dphs && claimed = false ∧
      s = ast s0 (del_caches (stored_names s0) dphs (caches (env s0))) claimed (isInstalled s0)
            (RAll [cleanup (stored_names s0) dphs; claim_child claimed] activating)
  | ANotifying dphs =>
      silent tr ∧ claim_seen true tr ∧
      deletions_seen (stored_names s0) dphs tr ∧
      Forall2 dphase_ok (stored_names s0) dphs ∧
      forallb dsettled dphs = true ∧
      s = ast s0 (del_caches (stored_names s0) dphs (caches (env s0))) true true notifying
  | ADone dphs =>
      (∃ pre, silent pre ∧ claim_seen true pre ∧
              deletions_seen (stored_names s0) dphs pre ∧
              tr = pre ++ EvSettle ClientsMatchAll ::
                     (activation_notice <$> clients (env s0)) ++
                     [EvAct (Log (LogNotified (length (clients (env s0)))));
                      EvDone 0 (Fulfilled VUndefined)]) ∧
      Forall2 dphase_ok (stored_names s0) dphs ∧
      forallb dsettled dphs = true ∧
      s = ast s0 (del_caches (stored_names s0) dphs (caches (env s0))) true true fulfilled
  end.

Definition dphase_cost (ph : dphase) : nat :=
  match ph with DPending => 1 | _ => 0 end.

Definition claim_cost (claimed : bool) : nat := if claimed then 0 else 1.

Definition acost (s0 : state) (a : astage) : nat :=
  match a with
  | AKeys claimed => 2 + length (stored_names s0) + claim_cost claimed
  | ADeleting claimed dphs => 1 + sum_list (dphase_cost <$> dphs) + claim_cost claimed
  | ANotifying _ => 1
  | ADone _ => 0
  end.

(** The order the specification asks for: when clients.claim() is called
    every superseded cache has been deleted. *)
Definition deletion_before_claim (old : list string) (tr : list event) : Prop :=
  ∀ pre post, tr = pre ++ EvCall ClientsClaim :: post →
    ∀ n, In n old → In (EvSettle (CachesDelete n)) pre.

(** ** The router

    The current version's cache as the lookups of the router see it, and
    the storage after caches.open and after a cache.put on it. *)

Definition lookup_cached (w : world) (key : string) : option Response :=
  caches w !! CACHE_NAME ≫= λ c, c !! key.

Definition open_cache (w : world) : world := (perform (CachesOpen CACHE_NAME) w).2.

Definition put_cached (w : world) (key : string) (r : Response) : world :=
  (perform (CachePut CACHE_NAME key r) w).2.

(** The keys getCachedResponse looks up, in order. *)
Definition lookup_keys (request : Request) : list string :=
  url request ::
  if isHTMLRequest request then resolve <$> ["./"; "./index.html"; "/"] else [].

(** The network fetch of a request fails: no response, a response after
    the five seconds of the timer, or a response that is not ok. *)
Definition network_fails (w : world) (request : Request) : bool :=
  match net w (url request) with
  | NetOk r => negb (ok r)
  | NetFail | NetTimeout => true
  end.

(** handleRequest waiting for the network. *)
Definition awaitingNetwork (request : Request) : run :=
  RWait (Fetch (url request) FetchWithSignal)
    (λ x, catch_ (catch_ (networkAnswered request x) (networkFailed request)) requestFailed).

(** The put tryNetwork leaves behind, and how it ends. *)
Definition storingCopy (request : Request) (r : Response) : run :=
  RWait (CachePut CACHE_NAME (url request) r)
    (λ x, match x with inl e => Throw e | inr _ => Ret VUndefined end).

Definition put_outcome (r : Response) : outcome :=
  if put_accepts r then Fulfilled VUndefined else Rejected (put_error r).

(** The request is one the fetch listener hands to handleRequest. *)
Definition routed (request : Request) : Prop :=
  method request = "GET" ∧ startsWith (url request) origin = true ∧
  includes (url request) "sw.js" = false.

(** The error tryNetwork sees when the network fetch of a request fails. *)
Definition network_error (w : world) (request : Request) : string :=
  match net w (url request) with
  | NetOk _ => "Network response not ok"
  | NetFail => "Failed to fetch"
  | NetTimeout => "The operation was aborted"
  end.

(** tryNetwork on its own, waiting for the network. *)
Definition tryingNetwork (request : Request) : run :=
  RWait (Fetch (url request) FetchWithSignal)
    (λ x, catch_ (networkAnswered request x) (networkFailed request)).

(** What the caller of the router has in hand is a failure: a rejected
    promise, or a response that is not ok. *)
Definition surfaced_as_failure (o : outcome) : Prop :=
  match o with
  | Rejected _ => True
  | Fulfilled (VResponse r) => ok r = false
  | Fulfilled _ => False
  end.

(** The answer of a plain fetch. *)
Definition fetched (w : world) (u : string) : outcome :=
  match net w u with
  | NetOk r => Fulfilled (VResponse r)
  | NetFail => Rejected "Failed to fetch"
  | NetTimeout => Rejected "The operation was aborted"
  end.

(** What the specification asks of a cache miss answered by the network:
    when the response is in the caller's hands its copy is in the cache. *)
Definition copy_stored_when_returned (s : state) (key : string) : Prop :=
  ∀ r, tasks s !! 0 = Some (RDone (Fulfilled (VResponse r))) →
       lookup_cached (env s) key = Some r.

(** ** The background refresh *)

(** The worker when the clock reads [t]. *)
Definition at_time (s : state) (t : Z) : state :=
  mkState (env s) (isInstalled s) (installPromise s) (lastBackgroundUpdate s) t (tasks s).

Definition fetch_calls (evs : list event) : nat := length (List.filter is_fetch_call evs).

(** The test at the head of updateInBackground: the timestamp is truthy
    and less than 30 seconds old. *)
Definition rate_limited (last : option Z) (t : Z) : bool :=
  match last with
  | Some l => negb (l =? 0)%Z && (t - l <? 30000)%Z
  | None => false
  end.

(** The fetches called by a series of invocations of updateInBackground,
    each for its own request and at its own clock reading. *)
Fixpoint refreshes (invocations : list (Request * Z)) (s : state) : nat :=
  match invocations with
  | [] => 0
  | (request, t) :: rest =>
      let '(_, s1, evs) := start (updateInBackground request (Ret VUndefined)) (at_time s t) in
      fetch_calls evs + refreshes rest s1
  end.

(** ** Tasks of earlier events

    A worker handles one event after another; the settled tasks of the
    earlier events stay in its list.  [behind pre s] is the worker [s]
    with the tasks [pre] in front of its own, and [renumber k] moves the
    task numbers of a trace up by [k]. *)

Definition behind (pre : list run) (s : state) : state := set_tasks s (pre ++ tasks s).

Definition renumber (k : nat) (e : event) : event :=
  match e with
  | EvWaitUntil i => EvWaitUntil (k + i)
  | EvRespondWith i => EvRespondWith (k + i)
  | EvDone i o => EvDone (k + i) o
  | _ => e
  end.

(** The events of the script itself, which name no task. *)
Definition plain (e : event) : bool :=
  match e with
  | EvCall _ | EvSettle _ | EvAct _ => true
  | _ => false
  end.

(** The worker once its settled tasks are forgotten. *)
Definition idle_part (s : state) : state := set_tasks s [].

(** Starting and settling a program do not look at the tasks in front. *)
Definition start_behind_at (pre : list run) (p : proc) : Prop :=
  ∀ s, start p (behind pre s) =
       ((start p s).1.1, behind pre (start p s).1.2, (start p s).2).

Definition settle_behind_at (pre : list run) (r : run) : Prop :=
  ∀ n s, settle n r (behind pre s) =
         ((settle n r s).1.1, behind pre (settle n r s).1.2, (settle n r s).2).

(** ** What an install run leaves behind *)

(** The entry of a URL of the manifest in the new cache: the response of
    the network when there was one, it was ok and the cache accepted
    it. *)
Definition installed_entry (w : world) (u : string) : option Response :=
  match net w (resolve u) with
  | NetOk r => if ok r && put_accepts r then Some r else None
  | NetFail | NetTimeout => None
  end.

(** The messages of a trace. *)
Definition is_post (e : event) : bool :=
  match e with EvAct (PostMessage _ _) => true | _ => false end.

(** ** The answer of the router

    The first of the keys of a request that has an entry in the current
    cache, and the response handleRequest ends with: that entry, or else
    the response of the network when it is ok, or else the placeholder
    for a page request and the error response for any other. *)

Definition first_cached (w : world) (keys : list string) : option Response :=
  foldr (λ k later, match lookup_cached w k with Some r => Some r | None => later end)
    None keys.

Definition fallback_response (request : Request) : Response :=
  if isHTMLRequest request then createOfflineResponse else createErrorResponse.

Definition answer (w : world) (request : Request) : Response :=
  match first_cached w (lookup_keys request) with
  | Some r => r
  | None =>
      match net w (url request) with
      | NetOk r => if ok r then r else fallback_response request
      | NetFail | NetTimeout => fallback_response request
      end
  end.

(** ** The background refresh at work *)

(** The worker when the network has changed to [net']. *)
Definition with_net (s : state) (net' : string → net_result) : state :=
  set_env s (mkWorld (caches (env s)) (clients (env s)) (controlling (env s))
               (skipped_waiting (env s)) net').

(** The promise chain of a background refresh, waiting for its fetch. *)
Definition refreshing (request : Request) : run :=
  match backgroundRefresh request with
  | Await o k => RWait o k
  | _ => RDone (Fulfilled VUndefined)
  end.

(** The response an update check puts under a key: the live content under
    the headers of the live response, when the live response is ok, the
    key has an entry, and the two texts differ.  The entry is replaced
    when the cache accepts that response. *)
Definition live_update (w : world) (key : string) : option Response :=
  match net w key with
  | NetOk r =>
      if ok r then
        match lookup_cached w key with
        | Some cached =>
            if negb (String.eqb (body r) (body cached))
            then Some (withHeadersOf r (body r))
            else None
        | None => None
        end
      else None
  | NetFail | NetTimeout => None
  end.

Definition refreshed (w : world) (request : Request) : option Response :=
  live_update w (url request).

Definition update_notice (u : string) (c : client) : event :=
  EvAct (PostMessage c (UPDATE_AVAILABLE u)).

(** The entry of a key once the put of [new] under it has settled. *)
Definition after_put (w : world) (key : string) (new : Response) : option Response :=
  if put_accepts new then Some new else lookup_cached w key.

(** ** The warnings of an install run *)

(** The URL a warning of the install names. *)
Definition warned (e : event) : option string :=
  match e with
  | EvAct (Log (LogWarnFailedToCache u _)) => Some u
  | _ => None
  end.

(** The URLs whose promise has been settled by the catch callback. *)
Definition skipped_at (us : list string) (phs : list phase) : list string :=
  omap (λ up, match up.2 with PSkipped => Some up.1 | _ => None end) (zip us phs).

Definition stage_phases (a : istage) : list phase :=
  match a with
  | IOpening => replicate (length URLS_TO_CACHE) PFetch
  | IFetching phs | ISkipping phs | IDone phs => phs
  end.

(** ** The message side of the script (lines 332-526)

    The two message listeners and the async functions they call:
    handleCacheNameRequest, checkForUpdates and getCacheStats.  Each of
    them is one flow of control that awaits one operation at a time, so
    they are written as sequential programs; while such a program waits
    for an operation the rest of the worker may run, which is the list of
    moves its run is given. *)

Definition port := nat.

(** The data of a message event: [type] and [language] as the listeners
    read them ([None] for a field that is missing). *)
Record MessageData := mkData {
  type : option string;
  language : option string
}.

Record MessageEvent := mkMessage {
  data : option MessageData;
  ports : list port
}.

Record cache_stats := mkStats {
  stats_name : string;
  entries : nat;
  urls : list string
}.

(** The messages of the update check to the clients (lines 395, 433-436
    and 447-450; the message of type 'UPDATE_AVAILABLE' carries a
    timestamp here, not a URL). *)
Inductive broadcast :=
| UPDATE_CHECK_STARTED
| UPDATE_AVAILABLE_AT (timestamp : Z)
| NO_UPDATES (timestamp : Z)
| UPDATE_CHECK_FAILED (error : string).

(** The answers on the port of a message (lines 370-375, 380-385 and
    519-522). *)
Inductive reply :=
| CACHE_NAME_RESPONSE (cacheName : string) (cacheExists installed : bool)
| CACHE_NAME_RESPONSE_error (cacheName : string) (error : string)
| CACHE_STATS_RESPONSE (stats : option cache_stats).

Inductive note :=
| NoteMessageReceived (t : option string)
| NoteSkippingWaiting
| NoteManualCheck
| NoteLanguageChanged (l : option string)
| NoteUnknownType (t : option string)
| NoteCacheNameError (e : string)
| NoteUpdateDetected (u : string)
| NoteCheckFailedFor (u e : string)
| NoteCheckComplete (hasUpdates : bool)
| NoteUpdateCheckFailed (e : string)
| NoteCacheStats (stats : cache_stats)
| NoteCacheStatsFailed (e : string).

(** Operations: those of the platform model, caches.has and cache.keys. *)
Inductive mop :=
| Platform (o : op)
| CachesHas (name : string)
| CacheKeys (cache : string).

Definition mop_reply (o : mop) : Type :=
  match o with
  | Platform o => op_reply o
  | CachesHas _ => bool
  | CacheKeys _ => list string
  end.

Inductive mact :=
| Note (l : note)
| Broadcast (c : client) (m : broadcast)
| Reply (p : port) (m : reply)
| ReadInstalled
| Clock.

Definition mact_reply (a : mact) : Type :=
  match a with
  | ReadInstalled => bool
  | Clock => Z
  | _ => unit
  end.

(** An async function with a result of type [A]. *)
Inductive async (A : Type) : Type :=
| AReturn (a : A)
| AThrow (e : string)
| ADo (a : mact) (k : mact_reply a → async A)
| AAwait (o : mop) (k : mop_reply o → async A).

#[global] Arguments AReturn {A} a.
#[global] Arguments AThrow {A} e.
#[global] Arguments ADo {A} a k.
#[global] Arguments AAwait {A} o k.

(** [const x = await p; f x] *)
Fixpoint abind {A B} (p : async A) (f : A → async B) : async B :=
  match p with
  | AReturn a => f a
  | AThrow e => AThrow e
  | ADo a k => ADo a (λ x, abind (k x) f)
  | AAwait o k => AAwait o (λ x, abind (k x) f)
  end.

(** [try { p } catch (error) { h error }] *)
Fixpoint acatch {A} (p : async A) (h : string → async A) : async A :=
  match p with
  | AReturn a => AReturn a
  | AThrow e => h e
  | ADo a k => ADo a (λ x, acatch (k x) h)
  | AAwait o k => AAwait o (λ x, acatch (k x) h)
  end.

(** caches.has tells whether the cache exists and creates nothing;
    cache.keys lists the URLs of the entries, in the order of the map. *)
Definition mperform (o : mop) (w : world) : mop_reply o * world :=
  match o return mop_reply o * world with
  | Platform o => perform o w
  | CachesHas name => (bool_decide (is_Some (caches w !! name)), w)
  | CacheKeys cache => (elements (dom (default ∅ (caches w !! cache))), w)
  end.

Definition do_mact (a : mact) (s : state) : mact_reply a :=
  match a return mact_reply a with
  | ReadInstalled => isInstalled s
  | Clock => now s
  | Note _ => tt
  | Broadcast _ _ => tt
  | Reply _ _ => tt
  end.

Inductive mevent :=
| MCall (o : mop)
| MSettle (o : mop)
| MAct (a : mact).

Record finished (A : Type) := mkFinished {
  result : string + A;
  final : state;
  events : list mevent;
  unused : list (state → state)
}.

#[global] Arguments mkFinished {A} _ _ _ _.
#[global] Arguments result {A} _.
#[global] Arguments final {A} _.
#[global] Arguments events {A} _.
#[global] Arguments unused {A} _.

(** What the rest of the worker does while the function waits. *)
Definition meanwhile (others : list (state → state)) (s : state) : state :=
  match others with
  | f :: _ => f s
  | [] => s
  end.

(** The run of an async function to its end.  An operation is called,
    the rest of the worker makes its next move, and the operation
    settles with its effect on the storage; the function then runs on to
    its next await. *)
Fixpoint arun {A} (p : async A) (others : list (state → state)) (s : state)
  : finished A :=
  match p with
  | AReturn a => mkFinished (inr a) s [] others
  | AThrow e => mkFinished (inl e) s [] others
  | ADo a k =>
      let f := arun (k (do_mact a s)) others s in
      mkFinished (result f) (final f) (MAct a :: events f) (unused f)
  | AAwait o k =>
      let s1 := meanwhile others s in
      let '(x, w) := mperform o (env s1) in
      let f := arun (k x) (tail others) (set_env s1 w) in
      mkFinished (result f) (final f) (MCall o :: MSettle o :: events f) (unused f)
  end.

(** *** The functions *)

(** if (event.ports && event.ports[0]) event.ports[0].postMessage(m) *)
Definition replyOn (event : MessageEvent) (m : reply) : async unit :=
  match ports event with
  | port0 :: _ => ADo (Reply port0 m) (λ _, AReturn tt)
  | [] => AReturn tt
  end.

(** Lines 364-388. *)
Definition handleCacheNameRequest (event : MessageEvent) : async unit :=
  acatch
    (AAwait (CachesHas CACHE_NAME) (λ cacheExists,
       match ports event with
       | port0 :: _ =>
           ADo ReadInstalled (λ installed,
           ADo (Reply port0 (CACHE_NAME_RESPONSE CACHE_NAME cacheExists installed)) (λ _,
           AReturn tt))
       | [] => AReturn tt
       end))
    (λ error,
       ADo (Note (NoteCacheNameError error)) (λ _,
       replyOn event (CACHE_NAME_RESPONSE_error CACHE_NAME error))).

(** clients.forEach(client => client.postMessage(m)) *)
Definition broadcastAll {A} (cs : list client) (m : broadcast) (k : async A) : async A :=
  foldr (λ c k, ADo (Broadcast c m) (λ _, k)) k cs.

(** The body of the loop of checkForUpdates for one URL (lines 405-428),
    with the value of hasUpdates before it and after it.  The flag is set
    before the put is awaited, and the put is the last statement of the
    try block: when the put is rejected the catch block logs the error
    and the flag stays set; an error thrown before the assignment leaves
    the flag as it was. *)
Definition checkUrl (u : string) (hasUpdates : bool) : async bool :=
  acatch
    (AAwait (Platform (Fetch (resolve u) FetchNoCache)) (λ x,
       match x with
       | inl e => AThrow e
       | inr response =>
           if ok response then
             AAwait (Platform (CachesOpen CACHE_NAME)) (λ _,
             AAwait (Platform (CacheMatch CACHE_NAME (resolve u))) (λ cachedResponse,
               match cachedResponse with
               | Some cached =>
                   let newContent := body response in
                   let cachedContent := body cached in
                   if negb (String.eqb newContent cachedContent) then
                     ADo (Note (NoteUpdateDetected u)) (λ _,
                     AAwait (Platform (CachePut CACHE_NAME (resolve u)
                               (withHeadersOf response newContent))) (λ x,
                       match x with
                       | inr _ => AReturn true
                       | inl error =>
                           ADo (Note (NoteCheckFailedFor u error)) (λ _, AReturn true)
                       end))
                   else AReturn hasUpdates
               | None => AReturn hasUpdates
               end))
           else AReturn hasUpdates
       end))
    (λ error, ADo (Note (NoteCheckFailedFor u error)) (λ _, AReturn hasUpdates)).

(** for (const url of urlsToCheck) { ... } *)
Fixpoint checkUrls (urlsToCheck : list string) (hasUpdates : bool) : async bool :=
  match urlsToCheck with
  | [] => AReturn hasUpdates
  | u :: rest => abind (checkUrl u hasUpdates) (checkUrls rest)
  end.

Definition urlsToCheck : list string := ["./"; "./index.html"; "./i18n.js"].

(** Lines 432-437: Date.now() is read for each client. *)
Definition notifyResult {A} (cs : list client) (hasUpdates : bool) (k : async A) : async A :=
  foldr (λ c k,
           ADo Clock (λ t,
           ADo (Broadcast c (if hasUpdates then UPDATE_AVAILABLE_AT t else NO_UPDATES t))
             (λ _, k)))
    k cs.

(** Lines 391-453. *)
Definition checkForUpdates : async unit :=
  acatch
    (AAwait (Platform ClientsMatchAll) (λ cs,
     broadcastAll cs UPDATE_CHECK_STARTED
       (abind (checkUrls urlsToCheck false) (λ hasUpdates,
        notifyResult cs hasUpdates
          (ADo (Note (NoteCheckComplete hasUpdates)) (λ _, AReturn tt))))))
    (λ error,
       ADo (Note (NoteUpdateCheckFailed error)) (λ _,
       AAwait (Platform ClientsMatchAll) (λ cs,
       broadcastAll cs (UPDATE_CHECK_FAILED error) (AReturn tt)))).

(** Lines 497-512. *)
Definition getCacheStats : async (option cache_stats) :=
  acatch
    (AAwait (Platform (CachesOpen CACHE_NAME)) (λ _,
     AAwait (CacheKeys CACHE_NAME) (λ keys,
       let stats := mkStats CACHE_NAME (length keys) keys in
       ADo (Note (NoteCacheStats stats)) (λ _,
       AReturn (Some stats)))))
    (λ error, ADo (Note (NoteCacheStatsFailed error)) (λ _, AReturn None)).

(** The first message listener (lines 333-361).  The async functions it
    calls are not awaited, and nothing follows the call. *)
Definition on_message (event : MessageEvent) : async unit :=
  match data event with
  | None => AReturn tt
  | Some d =>
      ADo (Note (NoteMessageReceived (type d))) (λ _,
      if decide (type d = Some "GET_CACHE_NAME") then handleCacheNameRequest event
      else if decide (type d = Some "SKIP_WAITING") then
        ADo (Note NoteSkippingWaiting) (λ _,
        AAwait (Platform SkipWaiting) (λ _, AReturn tt))
      else if decide (type d = Some "CHECK_UPDATES") then
        ADo (Note NoteManualCheck) (λ _, checkForUpdates)
      else if decide (type d = Some "LANGUAGE_CHANGED") then
        ADo (Note (NoteLanguageChanged (language d))) (λ _, AReturn tt)
      else
        ADo (Note (NoteUnknownType (type d))) (λ _, AReturn tt))
  end.

(** The second message listener (lines 515-526). *)
Definition on_stats_message (event : MessageEvent) : async unit :=
  match data event with
  | Some d =>
      if decide (type d = Some "GET_CACHE_STATS") then
        abind getCacheStats (λ stats, replyOn event (CACHE_STATS_RESPONSE stats))
      else AReturn tt
  | None => AReturn tt
  end.

(** *** Reading a trace of the message side *)

Definition is_broadcast (e : mevent) : bool :=
  match e with MAct (Broadcast _ _) => true | _ => false end.

Definition is_reply (e : mevent) : bool :=
  match e with MAct (Reply _ _) => true | _ => false end.

Definition is_call (e : mevent) : bool :=
  match e with MCall _ => true | _ => false end.

Definition is_put (e : mevent) : bool :=
  match e with MCall (Platform (CachePut _ _ _)) => true | _ => false end.

Definition started (c : client) : mevent := MAct (Broadcast c UPDATE_CHECK_STARTED).

Definition closing (hasUpdates : bool) (t : Z) (c : client) : mevent :=
  MAct (Broadcast c (if hasUpdates then UPDATE_AVAILABLE_AT t else NO_UPDATES t)).

(** The fetches of an update check, in the order of urlsToCheck. *)
Definition check_fetches : list mevent :=
  (λ u, MCall (Platform (Fetch (resolve u) FetchNoCache))) <$> urlsToCheck.

Definition is_mfetch (e : mevent) : bool :=
  match e with MCall (Platform (Fetch _ _)) => true | _ => false end.

(** The update check finds the live content of a URL changed. *)
Definition changed (w : world) (u : string) : bool :=
  match live_update w (resolve u) with Some _ => true | None => false end.

(** The entry of a key after an update check of [us] that started in [w]. *)
Definition checked_entry (w : world) (us : list string) (k : string) : option Response :=
  match (if decide (k ∈ resolve <$> us) then live_update w k else None) with
  | Some new => after_put w k new
  | None => lookup_cached w k
  end.

(** The puts of an update check of [us] that started in [w]. *)
Definition check_puts (w : world) (us : list string) : list mevent :=
  flat_map (λ u, match live_update w (resolve u) with
                 | Some new => [MCall (Platform (CachePut CACHE_NAME (resolve u) new))]
                 | None => []
                 end) us.

(** * Properties *)

(** ** The semantics: unfolding equations and the event loop *)

Lemma start_All ps k s :
  start (All ps k) s =
  let '(cs, s1, e1) := start_list ps s in
  let '(r, s2, e2) := join_all cs k s1 in (r, s2, e1 ++ e2).
Proof.
  change (start (All ps k) s) with
    (let '(cs, s1, e1) := start_list ps s in
     match first_rejected cs with
     | Some e =>
         let '(r, s2, e2) :=
           start (k (inl e)) (set_tasks s1 (tasks s1 ++ filter (λ c, is_done c = false) cs)) in
         (r, s2, e1 ++ e2)
     | None =>
         match all_values cs with
         | Some vs => let '(r, s2, e2) := start (k (inr vs)) s1 in (r, s2, e1 ++ e2)
         | None => (RAll cs k, s1, e1)
         end
     end).
  destruct (start_list ps s) as [[cs s1] e1]. unfold join_all.
  destruct (first_rejected cs); [done|].
  destruct (all_values cs); [done|]. by rewrite app_nil_r.
Qed.

Lemma start_AllSettled ps k s :
  start (AllSettled ps k) s =
  let '(cs, s1, e1) := start_list ps s in
  let '(r, s2, e2) := join_all_settled cs k s1 in (r, s2, e1 ++ e2).
Proof.
  change (start (AllSettled ps k) s) with
    (let '(cs, s1, e1) := start_list ps s in
     match all_outcomes cs with
     | Some os => let '(r, s2, e2) := start (k os) s1 in (r, s2, e1 ++ e2)
     | None => (RAllSettled cs k, s1, e1)
     end).
  destruct (start_list ps s) as [[cs s1] e1]. unfold join_all_settled.
  destruct (all_outcomes cs); [done|]. by rewrite app_nil_r.
Qed.

Lemma settle_RAll n cs k s :
  settle n (RAll cs k) s =
  let '(cs1, s1, e1) := settle_list n cs s in
  let '(r2, s2, e2) := join_all cs1 k s1 in (r2, s2, e1 ++ e2).
Proof. reflexivity. Qed.

Lemma settle_RAllSettled n cs k s :
  settle n (RAllSettled cs k) s =
  let '(cs1, s1, e1) := settle_list n cs s in
  let '(r2, s2, e2) := join_all_settled cs1 k s1 in (r2, s2, e1 ++ e2).
Proof. reflexivity. Qed.

Lemma leaves_RAll cs k : leaves (RAll cs k) = leaves_list cs.
Proof. reflexivity. Qed.

Lemma leaves_RAllSettled cs k : leaves (RAllSettled cs k) = leaves_list cs.
Proof. reflexivity. Qed.

(** Settling in a list of promises moves exactly one of them. *)
Lemma settle_list_lookup n cs s :
  n < leaves_list cs →
  ∃ i c m, cs !! i = Some c ∧ m < leaves c ∧
    settle_list n cs s =
    let '(c1, s1, e1) := settle m c s in (<[i := c1]> cs, s1, e1).
Proof.
  revert n. induction cs as [|c cs IH]; intros n Hn.
  - unfold leaves_list in Hn. simpl in Hn. lia.
  - change (leaves_list (c :: cs)) with (leaves c + leaves_list cs) in Hn.
    simpl. destruct (Nat.ltb_spec n (leaves c)) as [Hlt|Hge].
    + exists 0, c, n. split; [done|]. split; [done|].
      by destruct (settle n c s) as [[c1 s1] e1].
    + destruct (IH (n - leaves c)) as (i & c' & m & Hi & Hm & Heq); [lia|].
      exists (S i), c', m. split; [done|]. split; [done|].
      rewrite Heq. by destruct (settle m c' s) as [[c1 s1] e1].
Qed.

Lemma locate_idle n ts i : leaves_list ts = 0 → locate n ts i = None.
Proof.
  revert n i. induction ts as [|t ts IH]; intros n i H; [done|].
  change (leaves_list (t :: ts)) with (leaves t + leaves_list ts) in H.
  simpl. destruct (Nat.ltb_spec n (leaves t)); [lia|]. apply IH. lia.
Qed.

(** With nothing pending a turn of the event loop changes nothing. *)
Lemma step_idle n s : pending s = 0 → step n s = (s, []).
Proof. intros H. unfold step. by rewrite locate_idle. Qed.

Lemma exec_idle sched s : pending s = 0 → exec sched s = (s, []).
Proof.
  intros H. induction sched as [|n sched IH]; simpl; [done|].
  by rewrite step_idle, IH.
Qed.

(** A turn of the event loop of a worker with a single task. *)
Lemma step_single n s r :
  tasks s = [r] → 0 < leaves r →
  ∃ m, m < leaves r ∧
    step n s =
    let '(r1, s1, evs) := settle m r s in
    (set_tasks s1 (<[0 := r1]> (tasks s1)), evs ++ done_event 0 r1).
Proof.
  intros Ht Hl. unfold step, pending. rewrite Ht. simpl.
  exists (if Nat.ltb n (leaves r + 0) then n else 0).
  assert (Hm : (if Nat.ltb n (leaves r + 0) then n else 0) < leaves r).
  { destruct (Nat.ltb_spec n (leaves r + 0)); lia. }
  split; [done|].
  destruct (Nat.ltb_spec (if Nat.ltb n (leaves r + 0) then n else 0) (leaves r)); [|lia].
  done.
Qed.

Lemma exec_app l1 l2 s :
  exec (l1 ++ l2) s =
  let '(s1, e1) := exec l1 s in
  let '(s2, e2) := exec l2 s1 in (s2, e1 ++ e2).
Proof.
  revert s. induction l1 as [|n l1 IH]; intros s; simpl.
  - by destruct (exec l2 s).
  - destruct (step n s) as [s1 e1]. rewrite IH.
    destruct (exec l1 s1) as [s2 e2]. destruct (exec l2 s2) as [s3 e3].
    by rewrite app_assoc.
Qed.

(** ** Install *)

Lemma start_cacheResource u s :
  start (cacheResource u) s = (fetching u, s, [EvCall (Fetch (resolve u) FetchPlain)]).
Proof. reflexivity. Qed.

Lemma start_installTask s :
  start installTask s = (opening, s, [EvCall (CachesOpen CACHE_NAME)]).
Proof. reflexivity. Qed.

Lemma settle_fetching_ok m u s r :
  net (env s) (resolve u) = NetOk r → ok r = true →
  settle m (fetching u) s =
  (putting u r, s,
   [EvSettle (Fetch (resolve u) FetchPlain); EvCall (CachePut CACHE_NAME (resolve u) r)]).
Proof.
  intros Hnet Hok. unfold fetching. simpl. rewrite Hnet. simpl. rewrite Hok. reflexivity.
Qed.

Lemma settle_fetching_fail m u s :
  fetch_fails (env s) u = true →
  ∃ e, settle m (fetching u) s =
       (RDone (Fulfilled VUndefined), s,
        [EvSettle (Fetch (resolve u) FetchPlain); EvAct (Log (LogWarnFailedToCache u e))]).
Proof.
  unfold fetch_fails. intros Hf. unfold fetching. simpl.
  destruct (net (env s) (resolve u)) as [r| |]; simpl.
  - destruct (ok r); [done|]. by eexists.
  - by eexists.
  - by eexists.
Qed.

Lemma settle_putting m u r s :
  put_accepts r = true →
  settle m (putting u r) s =
  (RDone (Fulfilled VUndefined),
   set_env s (set_caches (env s)
     (<[CACHE_NAME := <[resolve u := r]> (default ∅ (caches (env s) !! CACHE_NAME))]>
        (caches (env s)))),
   [EvSettle (CachePut CACHE_NAME (resolve u) r)]).
Proof. intros Ha. unfold putting. simpl. rewrite Ha. reflexivity. Qed.

(** A put the cache refuses ends in the catch callback, like a failed
    fetch. *)
Lemma settle_putting_refused m u r s :
  put_accepts r = false →
  settle m (putting u r) s =
  (RDone (Fulfilled VUndefined), s,
   [EvSettle (CachePut CACHE_NAME (resolve u) r);
    EvAct (Log (LogWarnFailedToCache u (put_error r)))]).
Proof. intros Ha. unfold putting. simpl. rewrite Ha. reflexivity. Qed.

Lemma leaves_child u ph : leaves (child u ph) = if settled ph then 0 else 1.
Proof. by destruct ph. Qed.

Lemma zip_with_child_insert us phs i u ph :
  us !! i = Some u →
  <[i := child u ph]> (zip_with child us phs) = zip_with child us (<[i := ph]> phs).
Proof.
  revert phs i. induction us as [|u' us IH]; intros phs i Hu; [done|].
  destruct phs as [|ph' phs]; [done|].
  destruct i as [|i]; simpl in *.
  - by inversion Hu.
  - f_equal. by apply IH.
Qed.

Lemma all_outcomes_children us phs :
  length us = length phs →
  all_outcomes (zip_with child us phs) =
  if forallb settled phs then Some (replicate (length phs) (Fulfilled VUndefined)) else None.
Proof.
  revert phs. induction us as [|u us IH]; intros [|ph phs] Hlen; try done.
  simpl in *. destruct ph; simpl; try done.
  - rewrite IH by lia. by destruct (forallb settled phs).
  - rewrite IH by lia. by destruct (forallb settled phs).
Qed.

Lemma leaves_children_pending us phs :
  length us = length phs →
  forallb settled phs = true → leaves_list (zip_with child us phs) = 0.
Proof.
  revert phs. induction us as [|u us IH]; intros [|ph phs] Hlen Hs; try done.
  simpl in *. apply andb_prop in Hs as [Hs1 Hs2].
  change (leaves (child u ph) + leaves_list (zip_with child us phs) = 0).
  rewrite leaves_child, Hs1, IH; [done|lia|done].
Qed.

Lemma append_inj (p a b : string) : p +:+ a = p +:+ b → a = b.
Proof. induction p as [|c p IH]; simpl; [done|]. intros H. inversion H. auto. Qed.

Lemma manifest_keys_NoDup : NoDup (resolve <$> URLS_TO_CACHE).
Proof.
  change (resolve <$> URLS_TO_CACHE) with
    (String.append scope <$>
       [EmptyString; "index.html"; "i18n.js"; "manifest.json"; "sw.js"; "i18n/cs.json";
        "i18n/en.json"; "i18n/de.json"; "i18n/fr.json"; "i18n/es.json"; "i18n/ru.json";
        "i18n/uk.json"]).
  apply NoDup_fmap_2.
  - intros a b. apply append_inj.
  - apply (bool_decide_unpack _). by vm_compute.
Qed.

Lemma cache_of_cons u us ph phs :
  cache_of (u :: us) (ph :: phs) =
  match ph with PStored r => <[resolve u := r]> (cache_of us phs) | _ => cache_of us phs end.
Proof. reflexivity. Qed.

Lemma cache_of_notin us phs k :
  k ∉ resolve <$> us → cache_of us phs !! k = None.
Proof.
  revert phs. induction us as [|u us IH]; intros [|ph phs] Hk; try done.
  rewrite cache_of_cons. rewrite fmap_cons in Hk. apply not_elem_of_cons in Hk as [Hne Hk].
  destruct ph; try by apply IH.
  rewrite lookup_insert_ne by done. by apply IH.
Qed.

Lemma cache_of_insert_unstored us phs i ph ph' :
  phs !! i = Some ph → stored ph = false → stored ph' = false →
  cache_of us (<[i := ph']> phs) = cache_of us phs.
Proof.
  revert phs i. induction us as [|u us IH]; intros [|ph0 phs] i Hi Hs Hs'; try done.
  destruct i as [|i]; simpl in Hi.
  - inversion Hi; subst ph0. simpl. rewrite !cache_of_cons.
    by destruct ph, ph'.
  - simpl. rewrite !cache_of_cons. rewrite (IH _ _ Hi Hs Hs'). done.
Qed.

Lemma cache_of_insert_stored us phs i u ph r :
  NoDup (resolve <$> us) →
  us !! i = Some u → phs !! i = Some ph → stored ph = false →
  cache_of us (<[i := PStored r]> phs) = <[resolve u := r]> (cache_of us phs).
Proof.
  revert phs i. induction us as [|u' us IH]; intros [|ph0 phs] i Hnd Hu Hi Hs; try done.
  rewrite fmap_cons in Hnd. apply NoDup_cons in Hnd as [Hnotin Hnd].
  destruct i as [|i]; simpl in Hi, Hu.
  - inversion Hi; subst ph0. inversion Hu; subst u'. simpl. rewrite !cache_of_cons.
    by destruct ph.
  - simpl. rewrite !cache_of_cons. rewrite (IH _ _ Hnd Hu Hi Hs).
    destruct ph0; try done.
    apply insert_insert_ne. intros Heq. apply Hnotin. rewrite Heq.
    apply list_elem_of_fmap. exists u. split; [done|]. by eapply list_elem_of_lookup_2.
Qed.

Lemma cache_of_size us phs :
  NoDup (resolve <$> us) → length us = length phs →
  size (cache_of us phs) = length (List.filter stored phs).
Proof.
  revert phs. induction us as [|u us IH]; intros [|ph phs] Hnd Hlen; try done.
  rewrite fmap_cons in Hnd. apply NoDup_cons in Hnd as [Hnotin Hnd].
  simpl in Hlen. rewrite cache_of_cons.
  destruct ph; simpl; try (apply IH; [done|lia]).
  rewrite map_size_insert_None by by apply cache_of_notin.
  rewrite IH; [done|done|lia].
Qed.

(** Of the settled promises, those that stored an entry are those whose
    fetch did not fail and whose response the cache did not refuse. *)
Lemma stored_count w us phs :
  Forall2 (phase_ok w) us phs → forallb settled phs = true →
  length (List.filter stored phs) =
  length (List.filter (λ u, negb (fetch_fails w u || put_refused w u)) us).
Proof.
  induction 1 as [|u ph us phs Hok _ IH]; intros Hs; [done|].
  simpl in Hs. apply andb_prop in Hs as [Hs1 Hs2]. specialize (IH Hs2).
  destruct ph; try done; simpl in *.
  - unfold fetch_fails, put_refused. destruct Hok as (-> & -> & ->). simpl. by rewrite IH.
  - rewrite Hok. simpl. done.
Qed.

(** No URL counts twice: a fetch that fails gives no response to refuse. *)
Lemma failed_or_refused_count w us :
  length (List.filter (λ u, fetch_fails w u || put_refused w u) us) =
  length (List.filter (fetch_fails w) us) + length (List.filter (put_refused w) us).
Proof.
  induction us as [|u us IH]; [done|]. cbn [List.filter].
  assert (Hx : fetch_fails w u = true → put_refused w u = false).
  { unfold fetch_fails, put_refused. destruct (net w (resolve u)) as [r| |]; try done.
    by destruct (ok r). }
  destruct (fetch_fails w u) eqn:Hf; [rewrite Hx by done|]; cbn [orb length]; [lia|].
  destruct (put_refused w u); cbn [length]; lia.
Qed.

Lemma leaves_children_unsettled us phs :
  length us = length phs →
  forallb settled phs = false → 0 < leaves_list (zip_with child us phs).
Proof.
  revert phs. induction us as [|u us IH]; intros [|ph phs] Hlen Hs; try done.
  simpl in *.
  change (0 < leaves (child u ph) + leaves_list (zip_with child us phs)).
  rewrite leaves_child. destruct (settled ph); [|lia].
  simpl in Hs. assert (0 < leaves_list (zip_with child us phs)); [|lia].
  apply IH; [lia|done].
Qed.

Lemma filter_fulfilled_replicate n v :
  List.filter is_fulfilled (replicate n (Fulfilled v)) = replicate n (Fulfilled v).
Proof. induction n; simpl; [done|]. by rewrite IHn. Qed.

Lemma filter_rejected_replicate n v :
  List.filter is_rejected (replicate n (Fulfilled v)) = [].
Proof. induction n; simpl; done. Qed.

Lemma phase_cost_insert phs i ph ph' :
  phs !! i = Some ph →
  sum_list (phase_cost <$> <[i := ph']> phs) + phase_cost ph =
  sum_list (phase_cost <$> phs) + phase_cost ph'.
Proof.
  revert i. induction phs as [|p phs IH]; intros i Hi; [done|].
  destruct i as [|i]; simpl in Hi.
  - inversion Hi; subst. cbn. lia.
  - specialize (IH _ Hi).
    change (phase_cost p + sum_list (phase_cost <$> <[i:=ph']> phs) + phase_cost ph =
            phase_cost p + sum_list (phase_cost <$> phs) + phase_cost ph').
    lia.
Qed.

Lemma forallb_settled_insert_false phs i ph' :
  i < length phs → settled ph' = false → forallb settled (<[i := ph']> phs) = false.
Proof.
  revert i. induction phs as [|p phs IH]; intros i Hi Hs; simpl in *; [lia|].
  destruct i as [|i]; simpl.
  - by rewrite Hs.
  - rewrite IH; [|lia|done]. by destruct (settled p).
Qed.

(** What the worker does once a promise of Promise.allSettled has moved. *)
Lemma install_join phs s :
  length URLS_TO_CACHE = length phs →
  join_all_settled (zip_with child URLS_TO_CACHE phs) installing s =
  if forallb settled phs then
    (skipping,
     mkState (env s) true (installPromise s) (lastBackgroundUpdate s) (now s) (tasks s),
     [EvAct (Log (LogCacheCreationComplete (length URLS_TO_CACHE) 0));
      EvAct (SetInstalled true); EvCall SkipWaiting])
  else (RAllSettled (zip_with child URLS_TO_CACHE phs) installing, s, []).
Proof.
  intros Hlen. unfold join_all_settled. rewrite all_outcomes_children by done.
  destruct (forallb settled phs); [|done].
  unfold installing, cacheCreationComplete.
  rewrite filter_fulfilled_replicate, filter_rejected_replicate, length_replicate, <- Hlen.
  reflexivity.
Qed.

Lemma settle_opening m s :
  caches (env s) !! CACHE_NAME = None →
  settle m opening s =
  (RAllSettled (zip_with child URLS_TO_CACHE (replicate (length URLS_TO_CACHE) PFetch)) installing,
   set_env s (set_caches (env s) (<[CACHE_NAME := ∅]> (caches (env s)))),
   EvSettle (CachesOpen CACHE_NAME) :: EvAct (Log LogOpenedCache) :: manifest_fetches).
Proof.
  intros Hnew. unfold opening. simpl. rewrite Hnew. reflexivity.
Qed.

Lemma settle_skipping m s :
  settle m skipping s =
  (RDone (Fulfilled VUndefined),
   set_env s (mkWorld (caches (env s)) (clients (env s)) (controlling (env s)) true (net (env s))),
   [EvSettle SkipWaiting]).
Proof. reflexivity. Qed.

Lemma Forall2_insert_right {A B} (P : A → B → Prop) l k i x y :
  Forall2 P l k → l !! i = Some x → P x y → Forall2 P l (<[i := y]> k).
Proof.
  intros H Hl Hp. rewrite <- (list_insert_id l i x Hl). by apply Forall2_insert.
Qed.

Lemma filter_manifest_fetches :
  List.filter install_relevant manifest_fetches = manifest_fetches.
Proof. reflexivity. Qed.

(** One turn of the event loop takes an install run to its next stage. *)
Lemma install_step s0 a s n :
  caches (env s0) !! CACHE_NAME = None →
  irep s0 a s → 0 < icost a →
  ∃ a', irep s0 a' (step n s).1 ∧ icost a' < icost a ∧
        idigest a ++ List.filter install_relevant (step n s).2 = idigest a'.
Proof.
  intros Hnew Hrep Hcost. destruct a as [|phs|phs|phs]; unfold irep in Hrep.
  - subst s.
    destruct (step_single n (ist s0 (caches (env s0)) (isInstalled s0)
                (skipped_waiting (env s0)) opening) opening) as (m & _ & ->);
      [done|simpl; lia|].
    rewrite settle_opening by done.
    exists (IFetching (replicate (length URLS_TO_CACHE) PFetch)).
    split; [|split].
    + split; [repeat constructor|]. split; reflexivity.
    + simpl. lia.
    + reflexivity.
  - destruct Hrep as (HF & Hs & ->).
    assert (Hlen := Forall2_length _ _ _ HF).
    destruct (step_single n (ist s0 (with_cache s0 phs) (isInstalled s0)
                (skipped_waiting (env s0))
                (RAllSettled (zip_with child URLS_TO_CACHE phs) installing))
                (RAllSettled (zip_with child URLS_TO_CACHE phs) installing))
      as (m & Hm & ->); [done|by apply leaves_children_unsettled|].
    rewrite settle_RAllSettled.
    destruct (settle_list_lookup m (zip_with child URLS_TO_CACHE phs)
                (ist s0 (with_cache s0 phs) (isInstalled s0) (skipped_waiting (env s0))
                   (RAllSettled (zip_with child URLS_TO_CACHE phs) installing)))
      as (i & c & m' & Hi & Hm' & ->); [done|].
    rewrite lookup_zip_with in Hi.
    destruct (URLS_TO_CACHE !! i) as [u|] eqn:Hu; [|done].
    destruct (phs !! i) as [ph|] eqn:Hph; [|done].
    simpl in Hi. inversion Hi; subst c; clear Hi.
    rewrite leaves_child in Hm'.
    assert (Hi : i < length phs) by (by eapply lookup_lt_Some).
    destruct ph as [|r|r|]; simpl in Hm'; try lia; cbn [child].
    + destruct (fetch_fails (env s0) u) eqn:Hf.
      * destruct (settle_fetching_fail m' u
                    (ist s0 (with_cache s0 phs) (isInstalled s0) (skipped_waiting (env s0))
                       (RAllSettled (zip_with child URLS_TO_CACHE phs) installing)) Hf)
          as [e ->].
        change (RDone (Fulfilled VUndefined)) with (child u PSkipped).
        rewrite zip_with_child_insert by done.
        rewrite install_join by (by rewrite length_insert).
        assert (HF' : Forall2 (phase_ok (env s0)) URLS_TO_CACHE (<[i := PSkipped]> phs)).
        { eapply Forall2_insert_right; [done..|]. unfold phase_ok. by rewrite Hf. }
        assert (Hc : with_cache s0 (<[i := PSkipped]> phs) = with_cache s0 phs).
        { unfold with_cache. by erewrite cache_of_insert_unstored. }
        assert (Hcost' := phase_cost_insert phs i PFetch PSkipped Hph).
        destruct (forallb settled (<[i := PSkipped]> phs)) eqn:Hs'.
        -- exists (ISkipping (<[i := PSkipped]> phs)). split; [|split].
           ++ split; [done|]. split; [done|]. rewrite Hc. reflexivity.
           ++ simpl in *. lia.
           ++ reflexivity.
        -- exists (IFetching (<[i := PSkipped]> phs)). split; [|split].
           ++ split; [done|]. split; [done|]. rewrite Hc. reflexivity.
           ++ simpl in *. lia.
           ++ reflexivity.
      * assert (∃ r, net (env s0) (resolve u) = NetOk r ∧ ok r = true) as (r & Hnet & Hok).
        { unfold fetch_fails in Hf. destruct (net (env s0) (resolve u)) as [r| |]; try done.
          exists r. split; [done|]. by destruct (ok r). }
        rewrite (settle_fetching_ok m' u
                   (ist s0 (with_cache s0 phs) (isInstalled s0) (skipped_waiting (env s0))
                      (RAllSettled (zip_with child URLS_TO_CACHE phs) installing)) r Hnet Hok).
        change (putting u r) with (child u (PPut r)).
        rewrite zip_with_child_insert by done.
        rewrite install_join by (by rewrite length_insert).
        rewrite forallb_settled_insert_false by done.
        exists (IFetching (<[i := PPut r]> phs)). split; [|split].
        -- split; [by eapply Forall2_insert_right|].
           split; [by apply forallb_settled_insert_false|].
           unfold with_cache. erewrite cache_of_insert_unstored by done. reflexivity.
        -- assert (Hcost' := phase_cost_insert phs i PFetch (PPut r) Hph).
           simpl in *. lia.
        -- reflexivity.
    + assert (Hr : phase_ok (env s0) u (PPut r)).
      { eapply Forall2_lookup_lr in HF; eauto. }
      destruct (put_accepts r) eqn:Hacc; cycle 1.
      { rewrite settle_putting_refused by done.
        change (RDone (Fulfilled VUndefined)) with (child u PSkipped).
        rewrite zip_with_child_insert by done.
        rewrite install_join by (by rewrite length_insert).
        assert (HF' : Forall2 (phase_ok (env s0)) URLS_TO_CACHE (<[i := PSkipped]> phs)).
        { eapply Forall2_insert_right; [done..|]. destruct Hr as [Hnet Hok].
          unfold phase_ok, fetch_fails, put_refused. by rewrite Hnet, Hok, Hacc. }
        assert (Hc : with_cache s0 (<[i := PSkipped]> phs) = with_cache s0 phs).
        { unfold with_cache. by erewrite cache_of_insert_unstored. }
        assert (Hcost' := phase_cost_insert phs i (PPut r) PSkipped Hph).
        destruct (forallb settled (<[i := PSkipped]> phs)) eqn:Hs'.
        - exists (ISkipping (<[i := PSkipped]> phs)). split; [|split].
          + split; [done|]. split; [done|]. rewrite Hc. reflexivity.
          + simpl in *. lia.
          + reflexivity.
        - exists (IFetching (<[i := PSkipped]> phs)). split; [|split].
          + split; [done|]. split; [done|]. rewrite Hc. reflexivity.
          + simpl in *. lia.
          + reflexivity. }
      rewrite settle_putting by done.
      change (RDone (Fulfilled VUndefined)) with (child u (PStored r)).
      rewrite zip_with_child_insert by done.
      rewrite install_join by (by rewrite length_insert).
      assert (HF' : Forall2 (phase_ok (env s0)) URLS_TO_CACHE (<[i := PStored r]> phs)).
      { eapply Forall2_insert_right; [done..|]. destruct Hr as [Hnet Hok]. by repeat split. }
      assert (Hc : <[CACHE_NAME := <[resolve u := r]>
                      (default ∅ (with_cache s0 phs !! CACHE_NAME))]> (with_cache s0 phs)
                   = with_cache s0 (<[i := PStored r]> phs)).
      { unfold with_cache. rewrite lookup_insert_eq. simpl. rewrite insert_insert_eq.
        erewrite cache_of_insert_stored; eauto using manifest_keys_NoDup. }
      assert (Hcost' := phase_cost_insert phs i (PPut r) (PStored r) Hph).
      destruct (forallb settled (<[i := PStored r]> phs)) eqn:Hs'.
      * exists (ISkipping (<[i := PStored r]> phs)). split; [|split].
        -- split; [done|]. split; [done|]. rewrite <- Hc. reflexivity.
        -- simpl in *. lia.
        -- reflexivity.
      * exists (IFetching (<[i := PStored r]> phs)). split; [|split].
        -- split; [done|]. split; [done|]. rewrite <- Hc. reflexivity.
        -- simpl in *. lia.
        -- reflexivity.
  - destruct Hrep as (HF & Hs & ->).
    destruct (step_single n (ist s0 (with_cache s0 phs) true (skipped_waiting (env s0)) skipping)
                skipping) as (m & _ & ->); [done|simpl; lia|].
    rewrite settle_skipping.
    exists (IDone phs). split; [|split].
    + split; [done|]. split; [done|]. reflexivity.
    + simpl. lia.
    + reflexivity.
  - simpl in Hcost. lia.
Qed.

Lemma ist_pending_done s0 cs inst skip o : pending (ist s0 cs inst skip (RDone o)) = 0.
Proof. reflexivity. Qed.

(** Under every schedule an install run moves through its stages, one
    settlement at a time, until its task is settled. *)
Lemma install_exec s0 sched a s :
  caches (env s0) !! CACHE_NAME = None →
  irep s0 a s →
  ∃ a', irep s0 a' (exec sched s).1 ∧ (icost a' ≤ icost a - length sched)%nat ∧
        idigest a ++ List.filter install_relevant (exec sched s).2 = idigest a'.
Proof.
  intros Hnew. revert a s. induction sched as [|n sched IH]; intros a s Hrep.
  - exists a. simpl. split; [done|]. split; [lia|]. by rewrite app_nil_r.
  - destruct (decide (icost a = 0)) as [H0|H0].
    + exists a. destruct a as [|phs|phs|phs]; simpl in H0; try lia.
      destruct Hrep as (HF & Hs & ->). rewrite exec_idle by reflexivity.
      split; [done|]. split; [simpl; lia|]. apply app_nil_r.
    + destruct (install_step s0 a s n Hnew Hrep) as (a1 & Hrep1 & Hc1 & Hd1); [lia|].
      simpl. destruct (step n s) as [s1 e1]. simpl in Hrep1, Hd1.
      destruct (IH a1 s1 Hrep1) as (a2 & Hrep2 & Hc2 & Hd2).
      destruct (exec sched s1) as [s2 e2]. simpl in *.
      exists a2. split; [done|]. split; [lia|].
      by rewrite List.filter_app, app_assoc, Hd1.
Qed.

Lemma on_install_fresh s0 :
  installPromise s0 = None → tasks s0 = [] →
  on_install s0 =
  (ist s0 (caches (env s0)) (isInstalled s0) (skipped_waiting (env s0)) opening,
   [EvAct (Log LogInstalling); EvCall (CachesOpen CACHE_NAME); EvWaitUntil 0]).
Proof.
  intros Hp Ht. unfold on_install, spawn_task. rewrite Hp, start_installTask, Ht.
  reflexivity.
Qed.

Lemma on_install_again s0 a s :
  irep s0 a s →
  on_install s = (s, [EvAct (Log LogInstalling); EvWaitUntil 0]).
Proof.
  intros Hrep. unfold on_install.
  destruct a as [|phs|phs|phs]; unfold irep in Hrep;
    [subst s|destruct Hrep as (_ & _ & ->)..]; reflexivity.
Qed.

Lemma irep_done_only s0 a s : irep s0 a s → icost a = 0 → ∃ phs, a = IDone phs.
Proof. destruct a; simpl; intros _ H; try lia. by eexists. Qed.

Lemma filter_partition_length {A} (f : A → bool) (l : list A) :
  length (List.filter (λ x, negb (f x)) l) = length l - length (List.filter f l).
Proof.
  induction l as [|x l IH]; simpl; [done|].
  assert (length (List.filter f l) ≤ length l)%nat.
  { clear. induction l as [|y l IH]; simpl; [done|]. destruct (f y); simpl; lia. }
  destruct (f x); simpl; lia.
Qed.

Lemma manifest_fetches_no_log l e :
  In (EvAct (Log l)) (manifest_fetches ++ e) → In (EvAct (Log l)) e.
Proof.
  intros H. apply in_app_or in H as [H|H]; [|done].
  unfold manifest_fetches in H. apply list_elem_of_In, list_elem_of_fmap in H as (u & Hu & _).
  done.
Qed.

(** C1, as the code has it.  An install run over the manifest of N
    resource identifiers, K of which fail to fetch (no response, or a
    response that is not ok) and R of which are answered with an ok
    response that the cache refuses to store (its status is 206, or
    its Vary header is a star), completes under every schedule: its
    promise is fulfilled, the new version's cache holds exactly
    N - K - R entries, the worker is marked installed, the closing log
    line reports completion and no "Installation failed" line is
    logged. *)
Theorem install_tolerates_failures (s0 : state) (sched : list nat) :
  installPromise s0 = None → tasks s0 = [] →
  caches (env s0) !! CACHE_NAME = None →
  (2 + 2 * length URLS_TO_CACHE ≤ length sched)%nat →
  let N := length URLS_TO_CACHE in
  let K := length (List.filter (fetch_fails (env s0)) URLS_TO_CACHE) in
  let R := length (List.filter (put_refused (env s0)) URLS_TO_CACHE) in
  let trace := (on_install s0).2 ++ (exec sched (on_install s0).1).2 in
  let s := (exec sched (on_install s0).1).1 in
  tasks s = [RDone (Fulfilled VUndefined)] ∧
  size <$> caches (env s) !! CACHE_NAME = Some (N - K - R) ∧
  isInstalled s = true ∧
  In (EvAct (Log (LogCacheCreationComplete N 0))) trace ∧
  ∀ e, ¬ In (EvAct (Log (LogInstallationFailed e))) trace.
Proof.
  intros Hp Ht Hnew Hlen N K R. rewrite on_install_fresh by done. cbn [fst snd].
  destruct (install_exec s0 sched IOpening
              (ist s0 (caches (env s0)) (isInstalled s0) (skipped_waiting (env s0)) opening)
              Hnew eq_refl) as (a & Hrep & Hcost & Hdig).
  destruct (irep_done_only s0 a _ Hrep) as [phs ->]; [simpl in *; lia|].
  destruct Hrep as (HF & Hs & Hst).
  destruct (exec sched _) as [s e]. cbn [fst snd] in *. subst s.
  assert (Hl := Forall2_length _ _ _ HF).
  change (List.filter install_relevant e =
          manifest_fetches ++
          [EvAct (Log (LogCacheCreationComplete N 0)); EvDone 0 (Fulfilled VUndefined)])
    in Hdig.
  split; [done|]. split; [|split; [done|split]].
  - cbn [env caches ist]. unfold with_cache. rewrite lookup_insert_eq. cbn [fmap option_fmap option_map].
    f_equal. rewrite cache_of_size by (done || apply manifest_keys_NoDup).
    rewrite (stored_count _ _ _ HF Hs), filter_partition_length, failed_or_refused_count.
    fold N K R. lia.
  - assert (Hin : In (EvAct (Log (LogCacheCreationComplete N 0))) (List.filter install_relevant e)).
    { rewrite Hdig. apply in_or_app. right. by left. }
    apply List.filter_In in Hin as [Hin _]. apply in_or_app. by right.
  - intros err Hin. apply in_app_or in Hin as [Hin|Hin].
    + simpl in Hin. intuition discriminate.
    + assert (Hin' : In (EvAct (Log (LogInstallationFailed err))) (List.filter install_relevant e)).
      { apply List.filter_In. by split. }
      rewrite Hdig in Hin'. apply manifest_fetches_no_log in Hin'.
      simpl in Hin'. intuition discriminate.
Qed.

Lemma idigest_completion_line a x y :
  In (EvAct (Log (LogCacheCreationComplete x y))) (idigest a) →
  x = length URLS_TO_CACHE ∧ y = 0.
Proof.
  intros H.
  assert (H' : In (EvAct (Log (LogCacheCreationComplete x y)))
                 [EvAct (Log (LogCacheCreationComplete (length URLS_TO_CACHE) 0));
                  EvDone 0 (Fulfilled VUndefined)]).
  { destruct a; unfold idigest in H.
    - destruct H.
    - rewrite <- (app_nil_r manifest_fetches) in H.
      apply manifest_fetches_no_log in H. destruct H.
    - apply manifest_fetches_no_log in H. destruct H as [H|[]]. by left.
    - by apply manifest_fetches_no_log in H. }
  destruct H' as [H'|[H'|[]]]; [|discriminate]. by inversion H'.
Qed.

Lemma manifest_fetches_NoDup : NoDup manifest_fetches.
Proof.
  unfold manifest_fetches.
  change (NoDup (((λ k, EvCall (Fetch k FetchPlain)) ∘ resolve) <$> URLS_TO_CACHE)).
  rewrite list_fmap_compose. apply NoDup_fmap_2; [|apply manifest_keys_NoDup].
  intros a b H. by inversion H.
Qed.

Lemma install_trace_digest s0 sched :
  installPromise s0 = None → tasks s0 = [] →
  caches (env s0) !! CACHE_NAME = None →
  ∃ a, irep s0 a (exec sched (on_install s0).1).1 ∧
       (icost a ≤ icost IOpening - length sched)%nat ∧
       List.filter install_relevant
         ((on_install s0).2 ++ (exec sched (on_install s0).1).2) = idigest a.
Proof.
  intros Hp Ht Hnew. rewrite on_install_fresh by done. cbn [fst snd].
  destruct (install_exec s0 sched IOpening
              (ist s0 (caches (env s0)) (isInstalled s0) (skipped_waiting (env s0)) opening)
              Hnew eq_refl) as (a & Hrep & Hcost & Hdig).
  exists a. split; [done|]. split; [done|].
  rewrite List.filter_app. exact Hdig.
Qed.

(** C10.  In every install run, under every schedule and whatever the
    network does, the closing log line counts zero failed resources
    (and as many successful ones as the manifest has URLs): every
    failure is turned into a fulfilled result before Promise.allSettled
    collects the results.  The line is logged once the run is over. *)
Theorem install_reports_zero_failed (s0 : state) (sched : list nat) :
  installPromise s0 = None → tasks s0 = [] →
  caches (env s0) !! CACHE_NAME = None →
  let trace := (on_install s0).2 ++ (exec sched (on_install s0).1).2 in
  (∀ successful failed,
     In (EvAct (Log (LogCacheCreationComplete successful failed))) trace →
     successful = length URLS_TO_CACHE ∧ failed = 0) ∧
  ((2 + 2 * length URLS_TO_CACHE ≤ length sched)%nat →
   In (EvAct (Log (LogCacheCreationComplete (length URLS_TO_CACHE) 0))) trace).
Proof.
  intros Hp Ht Hnew trace.
  destruct (install_trace_digest s0 sched Hp Ht Hnew) as (a & Hrep & Hcost & Hdig).
  fold trace in Hdig. split.
  - intros x y Hin. apply (idigest_completion_line a). rewrite <- Hdig.
    apply List.filter_In. by split.
  - intros Hlen. destruct (irep_done_only s0 a _ Hrep) as [phs ->]; [simpl in *; lia|].
    assert (Hin : In (EvAct (Log (LogCacheCreationComplete (length URLS_TO_CACHE) 0)))
                    (List.filter install_relevant trace)).
    { rewrite Hdig. apply in_or_app. right. by left. }
    by apply List.filter_In in Hin as [Hin _].
Qed.

Lemma filter_fetch_call_relevant l :
  List.filter is_fetch_call (List.filter install_relevant l) = List.filter is_fetch_call l.
Proof.
  induction l as [|e l IH]; [done|]. simpl.
  destruct (install_relevant e) eqn:Hr; simpl; rewrite IH; [done|].
  destruct e as [o|o|a|t|t|t o]; try done. by destruct o.
Qed.

Lemma filter_fetch_call_manifest :
  List.filter is_fetch_call manifest_fetches = manifest_fetches.
Proof. reflexivity. Qed.

Lemma idigest_fetch_calls a :
  List.filter is_fetch_call (idigest a) =
  match a with IOpening => [] | _ => manifest_fetches end.
Proof. by destruct a. Qed.

(** C4.  A second install event delivered while the install of the same
    version is in flight (after any part [sched1] of its run) starts
    nothing: the worker is left as it is, the event waits on the promise
    of the first one (task 0), and over the whole run each URL of the
    manifest is fetched exactly once. *)
Theorem install_coalesces (s0 : state) (sched1 sched2 : list nat) :
  installPromise s0 = None → tasks s0 = [] →
  caches (env s0) !! CACHE_NAME = None →
  let first := on_install s0 in
  let run1 := exec sched1 first.1 in
  let second := on_install run1.1 in
  let run2 := exec sched2 second.1 in
  let trace := first.2 ++ run1.2 ++ second.2 ++ run2.2 in
  second.1 = run1.1 ∧
  last first.2 = Some (EvWaitUntil 0) ∧
  second.2 = [EvAct (Log LogInstalling); EvWaitUntil 0] ∧
  NoDup manifest_fetches ∧
  (List.filter is_fetch_call trace = [] ∨
   List.filter is_fetch_call trace = manifest_fetches) ∧
  ((1 ≤ length sched1 + length sched2)%nat →
   List.filter is_fetch_call trace = manifest_fetches).
Proof.
  intros Hp Ht Hnew first run1 second run2 trace.
  destruct (install_trace_digest s0 sched1 Hp Ht Hnew) as (a1 & Hrep1 & Hcost1 & Hdig1).
  fold first in Hrep1, Hdig1. fold run1 in Hrep1, Hdig1.
  assert (Hsecond : second = (run1.1, [EvAct (Log LogInstalling); EvWaitUntil 0])).
  { unfold second. by eapply on_install_again. }
  destruct (install_exec s0 sched2 a1 run1.1 Hnew Hrep1) as (a2 & Hrep2 & Hcost2 & Hdig2).
  assert (Hcalls : List.filter is_fetch_call trace =
                   match a2 with IOpening => [] | _ => manifest_fetches end).
  { rewrite <- idigest_fetch_calls, <- Hdig2, <- Hdig1.
    rewrite List.filter_app, !filter_fetch_call_relevant.
    unfold trace, run2. rewrite Hsecond. cbn [fst snd].
    by rewrite !List.filter_app, <- !app_assoc. }
  split; [by rewrite Hsecond|].
  split; [unfold first; by rewrite on_install_fresh|].
  split; [by rewrite Hsecond|].
  split; [apply manifest_fetches_NoDup|].
  split.
  - rewrite Hcalls. destruct a2; auto.
  - intros Hlen. rewrite Hcalls. destruct a2; try done. simpl in *. lia.
Qed.

(** ** Activate *)

Lemma start_activateTask s :
  start activateTask s =
  (RAll [awaitingKeys; awaitingClaim] activating, s, [EvCall CachesKeys; EvCall ClientsClaim]).
Proof. reflexivity. Qed.

Lemma on_activate_fresh s0 :
  tasks s0 = [] →
  on_activate s0 =
  (ast s0 (caches (env s0)) false (isInstalled s0)
     (RAll [awaitingKeys; claim_child false] activating),
   [EvAct (Log LogActivating); EvCall CachesKeys; EvCall ClientsClaim; EvWaitUntil 0]).
Proof.
  intros Ht. unfold on_activate, spawn_task. rewrite start_activateTask, Ht. reflexivity.
Qed.

Lemma start_deleteOldCache_list names s :
  start_list (map deleteOldCache names) s =
  (zip_with dchild names (initial_dphase <$> names), s, deletion_calls names).
Proof.
  induction names as [|n names IH]; [done|].
  change (start_list (map deleteOldCache (n :: names)) s) with
    (let '(c, s1, e1) := start (deleteOldCache n) s in
     let '(cs, s2, e2) := start_list (map deleteOldCache names) s1 in
     (c :: cs, s2, e1 ++ e2)).
  assert (Hd : start (deleteOldCache n) s =
               (dchild n (initial_dphase n), s,
                if superseded n
                then [EvAct (Log (LogDeletingOldCache n)); EvCall (CachesDelete n)]
                else [])).
  { unfold deleteOldCache, initial_dphase, superseded.
    destruct (startsWith n CACHE_BASE_NAME && negb (String.eqb n CACHE_NAME)); reflexivity. }
  rewrite Hd, IH. reflexivity.
Qed.

Lemma first_rejected_dchildren names dphs :
  first_rejected (zip_with dchild names dphs) = None.
Proof.
  revert dphs. induction names as [|n names IH]; intros [|ph dphs]; try done.
  simpl. destruct ph; simpl; apply IH.
Qed.

Lemma all_values_dchildren names dphs :
  length names = length dphs →
  all_values (zip_with dchild names dphs) =
  if forallb dsettled dphs then Some (replicate (length dphs) VUndefined) else None.
Proof.
  revert dphs. induction names as [|n names IH]; intros [|ph dphs] Hlen; try done.
  simpl in *. destruct ph; simpl; try done.
  - rewrite IH by lia. by destruct (forallb dsettled dphs).
  - rewrite IH by lia. by destruct (forallb dsettled dphs).
Qed.

(** The inner Promise.all after its promises were started or one moved. *)
Lemma cleanup_join names dphs s :
  length names = length dphs →
  join_all (zip_with dchild names dphs) joined s = (cleanup names dphs, s, []).
Proof.
  intros Hlen. unfold join_all, cleanup.
  rewrite first_rejected_dchildren, all_values_dchildren by done.
  by destruct (forallb dsettled dphs).
Qed.

Lemma settle_awaitingKeys m s :
  settle m awaitingKeys s =
  (cleanup (elements (dom (caches (env s)))) (initial_dphase <$> elements (dom (caches (env s)))),
   s, EvSettle CachesKeys :: deletion_calls (elements (dom (caches (env s))))).
Proof.
  unfold awaitingKeys. cbn [settle perform]. unfold promise_all.
  rewrite start_All, start_deleteOldCache_list.
  change (λ x : string + list jsval, match x with inl e => Throw e | inr _ => Ret VUndefined end)
    with joined.
  rewrite cleanup_join by (by rewrite length_fmap).
  by rewrite app_nil_r.
Qed.

Lemma settle_awaitingClaim m s :
  settle m awaitingClaim s =
  (claim_child true,
   set_env s (mkWorld (caches (env s)) (clients (env s)) true (skipped_waiting (env s))
                (net (env s))),
   [EvSettle ClientsClaim]).
Proof. reflexivity. Qed.

Lemma settle_deletingCache m n s :
  settle m (deletingCache n) s =
  (dchild n DDeleted, set_env s (set_caches (env s) (delete n (caches (env s)))),
   [EvSettle (CachesDelete n)]).
Proof. reflexivity. Qed.

(** The outer Promise.all: once the cleanup is over and the clients are
    claimed the worker logs, sets its flag and asks for the clients. *)
Lemma activation_join names dphs claimed s :
  join_all [cleanup names dphs; claim_child claimed] activating s =
  if forallb dsettled dphs && claimed then
    (notifying,
     mkState (env s) true (installPromise s) (lastBackgroundUpdate s) (now s) (tasks s),
     [EvAct (Log LogActivationComplete); EvAct (SetInstalled true); EvCall ClientsMatchAll])
  else (RAll [cleanup names dphs; claim_child claimed] activating, s, []).
Proof.
  unfold cleanup. destruct (forallb dsettled dphs), claimed; reflexivity.
Qed.

Lemma activation_join_keys claimed s :
  join_all [awaitingKeys; claim_child claimed] activating s =
  (RAll [awaitingKeys; claim_child claimed] activating, s, []).
Proof. destruct claimed; reflexivity. Qed.

Lemma start_notifyActivated cs l s :
  start (catch_ (notifyActivated cs (Sync (Log l) (λ _, Ret VUndefined))) activationError) s =
  (fulfilled, s, (activation_notice <$> cs) ++ [EvAct (Log l)]).
Proof.
  induction cs as [|c cs IH]; [done|].
  cbn [notifyActivated foldr catch_ start do_act]. fold (notifyActivated cs).
  change (foldr _ ?k cs) with (notifyActivated cs k).
  by rewrite IH.
Qed.

Lemma settle_notifying m s :
  settle m notifying s =
  (fulfilled, s,
   EvSettle ClientsMatchAll :: (activation_notice <$> clients (env s)) ++
   [EvAct (Log (LogNotified (length (clients (env s)))))]).
Proof.
  unfold notifying. cbn [settle perform]. cbv beta. by rewrite start_notifyActivated.
Qed.

Lemma zip_with_dchild_insert names dphs j n ph :
  names !! j = Some n →
  <[j := dchild n ph]> (zip_with dchild names dphs) = zip_with dchild names (<[j := ph]> dphs).
Proof.
  revert dphs j. induction names as [|n' names IH]; intros dphs j Hn; [done|].
  destruct dphs as [|ph' dphs]; [done|].
  destruct j as [|j]; simpl in *.
  - by inversion Hn.
  - f_equal. by apply IH.
Qed.

Lemma del_caches_cons n names ph dphs c0 :
  del_caches (n :: names) (ph :: dphs) c0 =
  match ph with
  | DDeleted => delete n (del_caches names dphs c0)
  | _ => del_caches names dphs c0
  end.
Proof. reflexivity. Qed.

Lemma del_caches_initial names c0 :
  del_caches names (initial_dphase <$> names) c0 = c0.
Proof.
  induction names as [|n names IH]; [done|].
  rewrite fmap_cons, del_caches_cons, IH. unfold initial_dphase. by destruct (superseded n).
Qed.

Lemma del_caches_insert names dphs j n c0 :
  names !! j = Some n → dphs !! j = Some DPending →
  del_caches names (<[j := DDeleted]> dphs) c0 = delete n (del_caches names dphs c0).
Proof.
  revert dphs j. induction names as [|n' names IH]; intros [|ph dphs] j Hn Hp; try done.
  destruct j as [|j]; simpl in Hn, Hp.
  - inversion Hn; inversion Hp; subst. reflexivity.
  - simpl. rewrite !del_caches_cons, (IH _ _ Hn Hp).
    destruct ph; try done. apply delete_delete.
Qed.

Lemma dphase_cost_insert dphs j :
  dphs !! j = Some DPending →
  sum_list (dphase_cost <$> <[j := DDeleted]> dphs) + 1 = sum_list (dphase_cost <$> dphs).
Proof.
  revert j. induction dphs as [|p dphs IH]; intros j Hj; [done|].
  destruct j as [|j]; simpl in Hj.
  - inversion Hj; subst. cbn. lia.
  - specialize (IH _ Hj).
    change (dphase_cost p + sum_list (dphase_cost <$> <[j:=DDeleted]> dphs) + 1 =
            dphase_cost p + sum_list (dphase_cost <$> dphs)).
    lia.
Qed.

Lemma dphase_cost_initial names :
  (sum_list (dphase_cost <$> (initial_dphase <$> names)) ≤ length names)%nat.
Proof.
  induction names as [|n names IH]; [done|].
  change (dphase_cost (initial_dphase n) +
          sum_list (dphase_cost <$> (initial_dphase <$> names)) ≤ S (length names))%nat.
  unfold initial_dphase at 1. destruct (superseded n); simpl; lia.
Qed.

Lemma dphase_ok_initial names : Forall2 dphase_ok names (initial_dphase <$> names).
Proof.
  induction names as [|n names IH]; constructor; [|done].
  unfold initial_dphase. by destruct (superseded n) eqn:E.
Qed.

Lemma leaves_cleanup_unsettled names dphs :
  length names = length dphs →
  forallb dsettled dphs = false → 0 < leaves (cleanup names dphs).
Proof.
  intros Hlen Hs. unfold cleanup. rewrite Hs, leaves_RAll.
  revert dphs Hlen Hs. induction names as [|n names IH]; intros [|ph dphs] Hlen Hs; try done.
  simpl in Hlen, Hs.
  change (0 < leaves (dchild n ph) + leaves_list (zip_with dchild names dphs)).
  destruct ph; simpl in *; try lia.
  - assert (0 < leaves_list (zip_with dchild names dphs)); [|lia]. apply IH; [lia|done].
  - assert (0 < leaves_list (zip_with dchild names dphs)); [|lia]. apply IH; [lia|done].
Qed.

Lemma silent_app tr evs : silent tr → silent evs → silent (tr ++ evs).
Proof. intros H1 H2 c m Hin. apply in_app_or in Hin as [Hin|Hin]; [by eapply H1|by eapply H2]. Qed.

Lemma silent_deletion_calls names : silent (deletion_calls names).
Proof.
  intros c m Hin. unfold deletion_calls in Hin. apply in_flat_map in Hin as (n & _ & Hin).
  destruct (superseded n); simpl in Hin; intuition discriminate.
Qed.

Lemma silent_cons e tr :
  (∀ c m, e ≠ EvAct (PostMessage c m)) → silent tr → silent (e :: tr).
Proof. intros He H c m [Hin|Hin]; [by eapply He|by eapply H]. Qed.

Lemma silent_nil : silent [].
Proof. intros c m []. Qed.

Lemma claim_seen_app claimed tr evs : claim_seen claimed tr → claim_seen claimed (tr ++ evs).
Proof. intros H Hc. apply in_or_app. left. by apply H. Qed.

Lemma deletions_seen_app names dphs tr evs :
  deletions_seen names dphs tr → deletions_seen names dphs (tr ++ evs).
Proof. intros H j n Hn Hd. apply in_or_app. left. by eapply H. Qed.

Lemma deletions_seen_initial names tr : deletions_seen names (initial_dphase <$> names) tr.
Proof.
  intros j n Hn Hd. rewrite list_lookup_fmap, Hn in Hd. simpl in Hd.
  unfold initial_dphase in Hd. by destruct (superseded n).
Qed.

Lemma deletions_seen_insert names dphs tr evs j n :
  names !! j = Some n →
  deletions_seen names dphs tr →
  In (EvSettle (CachesDelete n)) evs →
  deletions_seen names (<[j := DDeleted]> dphs) (tr ++ evs).
Proof.
  intros Hn H Hin j' n' Hn' Hd. destruct (decide (j = j')) as [->|Hne].
  - rewrite Hn in Hn'. inversion Hn'; subst. apply in_or_app. by right.
  - rewrite list_lookup_insert_ne in Hd by done. apply in_or_app. left. by eapply H.
Qed.

Ltac silent_events :=
  solve [ repeat first
    [ apply silent_nil
    | apply silent_deletion_calls
    | apply silent_cons; [by intros|]
    | apply silent_app ] ].

(** One turn of the event loop takes an activation run to its next stage. *)
Lemma activate_step s0 a s tr n :
  arep s0 a s tr → 0 < acost s0 a →
  ∃ a', arep s0 a' (step n s).1 (tr ++ (step n s).2) ∧ acost s0 a' < acost s0 a.
Proof.
  intros Hrep Hcost. destruct a as [claimed|claimed dphs|dphs|dphs]; unfold arep in Hrep.
  - destruct Hrep as (Hsil & Hcl & ->).
    destruct (step_single n (ast s0 (caches (env s0)) claimed (isInstalled s0)
                (RAll [awaitingKeys; claim_child claimed] activating))
                (RAll [awaitingKeys; claim_child claimed] activating))
      as (m & Hm & ->); [done|simpl; lia|].
    rewrite settle_RAll.
    destruct (settle_list_lookup m [awaitingKeys; claim_child claimed]
                (ast s0 (caches (env s0)) claimed (isInstalled s0)
                   (RAll [awaitingKeys; claim_child claimed] activating)))
      as (i & c & m' & Hi & Hm' & ->); [done|].
    destruct i as [|[|i]]; simpl in Hi; [| |done]; inversion Hi; subst c; clear Hi.
    + rewrite settle_awaitingKeys. cbn [insert list_insert].
      change (elements (dom (caches (env (ast s0 (caches (env s0)) claimed (isInstalled s0)
                (RAll [awaitingKeys; claim_child claimed] activating))))))
        with (stored_names s0).
      rewrite activation_join.
      destruct (forallb dsettled (initial_dphase <$> stored_names s0) && claimed) eqn:Hall.
      * apply andb_prop in Hall as [Hall ->].
        exists (ANotifying (initial_dphase <$> stored_names s0)). split; [|simpl; lia].
        split; [cbn [fst snd]; apply silent_app; [done|silent_events]|].
        split; [by apply claim_seen_app|].
        split; [apply deletions_seen_initial|].
        split; [apply dphase_ok_initial|].
        split; [done|]. rewrite del_caches_initial. reflexivity.
      * exists (ADeleting claimed (initial_dphase <$> stored_names s0)). split.
        -- split; [cbn [fst snd]; apply silent_app; [done|silent_events]|].
           split; [by apply claim_seen_app|].
           split; [apply deletions_seen_initial|].
           split; [apply dphase_ok_initial|].
           split; [done|]. rewrite del_caches_initial. reflexivity.
        -- assert (H := dphase_cost_initial (stored_names s0)). simpl. lia.
    + destruct claimed; simpl in Hm'; [lia|]. cbn [claim_child].
      rewrite settle_awaitingClaim. cbn [insert list_insert].
      rewrite activation_join_keys.
      exists (AKeys true). split; [|simpl; lia].
      split; [cbn [fst snd]; apply silent_app; [done|silent_events]|].
      split; [|reflexivity].
      intros _. cbn [fst snd]. apply in_or_app. right. by left.
  - destruct Hrep as (Hsil & Hcl & Hdel & HF & Hnot & ->).
    assert (Hlen := Forall2_length _ _ _ HF).
    destruct (step_single n (ast s0 (del_caches (stored_names s0) dphs (caches (env s0)))
                claimed (isInstalled s0)
                (RAll [cleanup (stored_names s0) dphs; claim_child claimed] activating))
                (RAll [cleanup (stored_names s0) dphs; claim_child claimed] activating))
      as (m & Hm & ->); [done| |].
    { rewrite leaves_RAll.
      change (0 < leaves (cleanup (stored_names s0) dphs) + (leaves (claim_child claimed) + 0)).
      destruct (forallb dsettled dphs) eqn:Hs.
      - destruct claimed; [done|]. simpl. lia.
      - assert (H := leaves_cleanup_unsettled _ _ Hlen Hs). lia. }
    rewrite settle_RAll.
    destruct (settle_list_lookup m [cleanup (stored_names s0) dphs; claim_child claimed]
                (ast s0 (del_caches (stored_names s0) dphs (caches (env s0)))
                   claimed (isInstalled s0)
                   (RAll [cleanup (stored_names s0) dphs; claim_child claimed] activating)))
      as (i & c & m' & Hi & Hm' & ->); [done|].
    destruct i as [|[|i]]; simpl in Hi; [| |done]; inversion Hi; subst c; clear Hi.
    + destruct (forallb dsettled dphs) eqn:Hs.
      { unfold cleanup in Hm'. rewrite Hs in Hm'. simpl in Hm'. lia. }
      assert (Hcu : cleanup (stored_names s0) dphs =
                    RAll (zip_with dchild (stored_names s0) dphs) joined).
      { unfold cleanup. by rewrite Hs. }
      remember (ast s0 (del_caches (stored_names s0) dphs (caches (env s0)))
                  claimed (isInstalled s0)
                  (RAll [cleanup (stored_names s0) dphs; claim_child claimed] activating))
        as st eqn:Hst.
      rewrite Hcu in Hm' |- *.
      rewrite settle_RAll. rewrite leaves_RAll in Hm'.
      destruct (settle_list_lookup m' (zip_with dchild (stored_names s0) dphs) st)
        as (j & c & m2 & Hj & Hm2 & ->); [done|].
      rewrite lookup_zip_with in Hj.
      destruct (stored_names s0 !! j) as [nm|] eqn:Hn; [|done].
      destruct (dphs !! j) as [ph|] eqn:Hph; [|done].
      simpl in Hj. inversion Hj; subst c; clear Hj.
      destruct ph; simpl in Hm2; try lia. cbn [dchild].
      rewrite settle_deletingCache. subst st.
      rewrite zip_with_dchild_insert by done.
      rewrite cleanup_join by (by rewrite length_insert).
      cbn [insert list_insert]. rewrite activation_join.
      assert (HF' : Forall2 dphase_ok (stored_names s0) (<[j := DDeleted]> dphs)).
      { eapply Forall2_insert_right; eauto.
        by eapply (Forall2_lookup_lr _ _ _ j nm DPending) in HF. }
      assert (Hcst := dphase_cost_insert dphs j Hph).
      assert (Hcaches := del_caches_insert (stored_names s0) dphs j nm (caches (env s0)) Hn Hph).
      destruct (forallb dsettled (<[j := DDeleted]> dphs) && claimed) eqn:Hall.
      * apply andb_prop in Hall as [Hall ->].
        exists (ANotifying (<[j := DDeleted]> dphs)). split; [|simpl; lia].
        split; [cbn [fst snd]; apply silent_app; [done|silent_events]|].
        split; [by apply claim_seen_app|].
        split.
        { apply (deletions_seen_insert _ _ _ _ j nm); [done|done|]. simpl. by left. }
        split; [done|]. split; [done|]. rewrite Hcaches. reflexivity.
      * exists (ADeleting claimed (<[j := DDeleted]> dphs)). split; [|simpl; lia].
        split; [cbn [fst snd]; apply silent_app; [done|silent_events]|].
        split; [by apply claim_seen_app|].
        split.
        { apply (deletions_seen_insert _ _ _ _ j nm); [done|done|]. simpl. by left. }
        split; [done|]. split; [done|]. rewrite Hcaches. reflexivity.
    + destruct claimed; simpl in Hm'; [lia|]. cbn [claim_child].
      rewrite settle_awaitingClaim. cbn [insert list_insert].
      rewrite activation_join.
      destruct (forallb dsettled dphs && true) eqn:Hall.
      * apply andb_prop in Hall as [Hall _].
        exists (ANotifying dphs). split; [|simpl; lia].
        split; [cbn [fst snd]; apply silent_app; [done|silent_events]|].
        split; [intros _; cbn [fst snd]; apply in_or_app; right; by left|].
        split; [by apply deletions_seen_app|].
        split; [done|]. split; [done|]. reflexivity.
      * exists (ADeleting true dphs). split; [|simpl; lia].
        split; [cbn [fst snd]; apply silent_app; [done|silent_events]|].
        split; [intros _; cbn [fst snd]; apply in_or_app; right; by left|].
        split; [by apply deletions_seen_app|].
        split; [done|]. split; [done|]. reflexivity.
  - destruct Hrep as (Hsil & Hcl & Hdel & HF & Hs & ->).
    destruct (step_single n (ast s0 (del_caches (stored_names s0) dphs (caches (env s0)))
                true true notifying) notifying) as (m & _ & ->); [done|simpl; lia|].
    rewrite settle_notifying.
    exists (ADone dphs). split; [|simpl; lia].
    split; [|split; [done|split; [done|reflexivity]]].
    exists tr. split; [done|]. split; [done|]. split; [done|].
    cbn [fst snd]. f_equal. cbn [app done_event fulfilled]. f_equal.
    by rewrite <- app_assoc.
  - simpl in Hcost. lia.
Qed.

(** Under every schedule an activation run moves through its stages
    until its task is settled. *)
Lemma activate_exec s0 sched a s tr :
  arep s0 a s tr →
  ∃ a', arep s0 a' (exec sched s).1 (tr ++ (exec sched s).2) ∧
        (acost s0 a' ≤ acost s0 a - length sched)%nat.
Proof.
  revert a s tr. induction sched as [|n sched IH]; intros a s tr Hrep.
  - exists a. simpl. rewrite app_nil_r. split; [done|lia].
  - destruct (decide (acost s0 a = 0)) as [H0|H0].
    + exists a. destruct a as [c|c dphs|dphs|dphs]; simpl in H0; try lia.
      assert (Hs : s = ast s0 (del_caches (stored_names s0) dphs (caches (env s0)))
                     true true fulfilled) by apply Hrep.
      rewrite Hs at 1 2. rewrite exec_idle by reflexivity. cbn [fst snd].
      rewrite app_nil_r, <- Hs. split; [done|simpl; lia].
    + destruct (activate_step s0 a s tr n Hrep) as (a1 & Hrep1 & Hc1); [lia|].
      simpl. destruct (step n s) as [s1 e1]. cbn [fst snd] in Hrep1.
      destruct (IH a1 s1 (tr ++ e1) Hrep1) as (a2 & Hrep2 & Hc2).
      destruct (exec sched s1) as [s2 e2]. cbn [fst snd] in *.
      exists a2. rewrite app_assoc. split; [done|lia].
Qed.

Lemma activate_trace s0 sched :
  tasks s0 = [] →
  ∃ a, arep s0 a (exec sched (on_activate s0).1).1
         ((on_activate s0).2 ++ (exec sched (on_activate s0).1).2) ∧
       (acost s0 a ≤ 3 + size (caches (env s0)) - length sched)%nat.
Proof.
  intros Ht. rewrite on_activate_fresh by done. cbn [fst snd].
  destruct (activate_exec s0 sched (AKeys false)
              (ast s0 (caches (env s0)) false (isInstalled s0)
                 (RAll [awaitingKeys; claim_child false] activating))
              [EvAct (Log LogActivating); EvCall CachesKeys; EvCall ClientsClaim; EvWaitUntil 0])
    as (a & Hrep & Hcost).
  { split; [|split; [done|reflexivity]].
    intros c m Hin. simpl in Hin. intuition discriminate. }
  exists a. split; [done|].
  assert (Hsz : length (stored_names s0) = size (caches (env s0))).
  { unfold stored_names. by rewrite <- size_dom. }
  simpl in Hcost. lia.
Qed.

Lemma del_caches_lookup_deleted names dphs c0 j k :
  names !! j = Some k → dphs !! j = Some DDeleted →
  del_caches names dphs c0 !! k = None.
Proof.
  revert dphs j. induction names as [|n names IH]; intros [|ph dphs] j Hn Hd; try done.
  rewrite del_caches_cons. destruct j as [|j]; simpl in Hn, Hd.
  - inversion Hn; inversion Hd; subst. apply lookup_delete_eq.
  - specialize (IH _ _ Hn Hd). destruct ph; try done.
    destruct (decide (n = k)) as [->|Hne]; [apply lookup_delete_eq|].
    by rewrite lookup_delete_ne.
Qed.

Lemma del_caches_lookup_absent names dphs c0 k :
  c0 !! k = None → del_caches names dphs c0 !! k = None.
Proof.
  intros H0. revert dphs. induction names as [|n names IH]; intros [|ph dphs]; try done.
  rewrite del_caches_cons. specialize (IH dphs). destruct ph; try done.
  destruct (decide (n = k)) as [->|Hne]; [apply lookup_delete_eq|].
  by rewrite lookup_delete_ne.
Qed.

Lemma del_caches_lookup_kept names dphs c0 k :
  Forall2 dphase_ok names dphs → superseded k = false →
  del_caches names dphs c0 !! k = c0 !! k.
Proof.
  intros HF Hk. induction HF as [|n ph names dphs Hok _ IH]; [done|].
  rewrite del_caches_cons. destruct ph; try done.
  simpl in Hok. rewrite lookup_delete_ne; [done|]. intros ->. congruence.
Qed.

Lemma settled_phase_deleted names dphs j n :
  Forall2 dphase_ok names dphs → forallb dsettled dphs = true →
  names !! j = Some n → superseded n = true → dphs !! j = Some DDeleted.
Proof.
  intros HF. revert j. induction HF as [|n' ph names dphs Hok _ IH]; intros j Hs Hn Hsup; [done|].
  simpl in Hs. apply andb_prop in Hs as [Hs1 Hs2].
  destruct j as [|j]; simpl in *.
  - inversion Hn; subst n'. destruct ph; simpl in *; congruence.
  - by apply IH.
Qed.

(** The storage an activation run leaves: the superseded caches are
    gone, every other cache is as it was. *)
Lemma activation_final_lookup s0 dphs k :
  Forall2 dphase_ok (stored_names s0) dphs → forallb dsettled dphs = true →
  del_caches (stored_names s0) dphs (caches (env s0)) !! k =
  if superseded k then None else caches (env s0) !! k.
Proof.
  intros HF Hs. destruct (superseded k) eqn:Hk; [|by apply del_caches_lookup_kept].
  destruct (caches (env s0) !! k) as [c|] eqn:Hc; [|by apply del_caches_lookup_absent].
  assert (Hin : k ∈ stored_names s0).
  { unfold stored_names. apply elem_of_elements, elem_of_dom. by eexists. }
  apply list_elem_of_lookup in Hin as [j Hj].
  eapply del_caches_lookup_deleted; [done|]. by eapply settled_phase_deleted.
Qed.

Lemma singleton_of_NoDup {A} (l : list A) (a : A) :
  NoDup l → (∀ x, x ∈ l ↔ x = a) → l = [a].
Proof.
  intros Hnd H. destruct l as [|x l].
  - assert (Ha : a ∈ []) by by apply H. by apply elem_of_nil in Ha.
  - assert (Hx : x = a) by (apply H; left). subst x.
    apply NoDup_cons in Hnd as [Hnotin _]. destruct l as [|y l]; [done|].
    assert (Hy : y = a) by (apply H; right; left). subst y.
    exfalso. apply Hnotin. left.
Qed.

Lemma current_cache_not_superseded : superseded CACHE_NAME = false.
Proof. unfold superseded. by rewrite String.eqb_refl, andb_false_r. Qed.

Lemma current_cache_has_base_name : startsWith CACHE_NAME CACHE_BASE_NAME = true.
Proof. reflexivity. Qed.

Lemma arep_done_only s0 a s tr : arep s0 a s tr → acost s0 a = 0 → ∃ dphs, a = ADone dphs.
Proof. destruct a; simpl; intros _ H; try lia. by eexists. Qed.

(** C2.  Under every schedule, once activation is over (its promise is
    fulfilled after at most 3 + the number of stored caches settlements),
    the names of the stored caches that start with the base name are
    exactly the current cache name: every other cache prefixed by the
    base name is deleted, the caches not prefixed by it and the current
    cache are as they were. *)
Theorem activation_keeps_one_version (s0 : state) (sched : list nat) :
  tasks s0 = [] →
  is_Some (caches (env s0) !! CACHE_NAME) →
  (3 + size (caches (env s0)) ≤ length sched)%nat →
  let s := (exec sched (on_activate s0).1).1 in
  tasks s = [RDone (Fulfilled VUndefined)] ∧
  filter (λ n, startsWith n CACHE_BASE_NAME = true) (elements (dom (caches (env s))))
    = [CACHE_NAME] ∧
  (∀ n, startsWith n CACHE_BASE_NAME = true → n ≠ CACHE_NAME → caches (env s) !! n = None) ∧
  (∀ n, startsWith n CACHE_BASE_NAME = false →
        caches (env s) !! n = caches (env s0) !! n) ∧
  caches (env s) !! CACHE_NAME = caches (env s0) !! CACHE_NAME.
Proof.
  intros Ht Hcur Hlen s.
  destruct (activate_trace s0 sched Ht) as (a & Hrep & Hcost). fold s in Hrep.
  destruct (arep_done_only s0 a _ _ Hrep) as [dphs ->]; [lia|].
  destruct Hrep as (_ & HF & Hs & Hst).
  assert (Hlook : ∀ k, caches (env s) !! k =
                       if superseded k then None else caches (env s0) !! k).
  { intros k. rewrite Hst. cbn [env caches ast]. by apply activation_final_lookup. }
  assert (Hsup : ∀ n, startsWith n CACHE_BASE_NAME = true → n ≠ CACHE_NAME →
                      superseded n = true).
  { intros n Hn Hne. unfold superseded. rewrite Hn.
    apply String.eqb_neq in Hne. by rewrite Hne. }
  split; [by rewrite Hst|]. split; [|split; [|split]].
  - apply singleton_of_NoDup.
    + apply NoDup_filter, NoDup_elements.
    + intros n. rewrite list_elem_of_filter, elem_of_elements, elem_of_dom. split.
      * intros [Hn Hsome]. destruct (decide (n = CACHE_NAME)) as [|Hne]; [done|].
        rewrite Hlook, (Hsup n Hn Hne) in Hsome. by destruct Hsome.
      * intros ->. split; [apply current_cache_has_base_name|].
        by rewrite Hlook, current_cache_not_superseded.
  - intros n Hn Hne. by rewrite Hlook, (Hsup n Hn Hne).
  - intros n Hn. rewrite Hlook. unfold superseded. by rewrite Hn.
  - by rewrite Hlook, current_cache_not_superseded.
Qed.

Lemma split_after_prefix {A} (l1 l2 pre post : list A) (x : A) :
  l1 ++ l2 = pre ++ x :: post → ¬ In x l1 → ∃ mid, pre = l1 ++ mid.
Proof.
  revert pre. induction l1 as [|a l1 IH]; intros pre Heq Hx.
  - by exists pre.
  - destruct pre as [|b pre]; simpl in Heq.
    + inversion Heq; subst. exfalso. apply Hx. by left.
    + inversion Heq; subst. destruct (IH pre) as [mid ->]; [done| |by exists mid].
      intros Hin. apply Hx. by right.
Qed.

Lemma notice_in_done_trace pre cs l c m :
  silent pre →
  In (EvAct (PostMessage c m))
    (pre ++ EvSettle ClientsMatchAll :: (activation_notice <$> cs) ++
       [EvAct (Log l); EvDone 0 (Fulfilled VUndefined)]) →
  m = SW_ACTIVATED CACHE_NAME CACHE_VERSION.
Proof.
  intros Hsil Hin. apply in_app_or in Hin as [Hin|[Hin|Hin]]; [by apply Hsil in Hin|done|].
  apply in_app_or in Hin as [Hin|Hin].
  - apply list_elem_of_In, list_elem_of_fmap in Hin as (c' & Heq & _).
    unfold activation_notice in Heq. by inversion Heq.
  - simpl in Hin. intuition discriminate.
Qed.

(** C3, as the code has it.  In every activation run, under every
    schedule: clients.claim() is called in the listener's own turn,
    together with caches.keys(), so before any caches.delete() is called;
    a notification is posted only after clients.claim() and the deletion
    of every superseded cache of the storage have settled, and it is the
    SW_ACTIVATED message of the current version; once the run is over
    every connected client has been sent it. *)
Theorem activation_claims_first_notifies_last (s0 : state) (sched : list nat) :
  tasks s0 = [] →
  let trace := (on_activate s0).2 ++ (exec sched (on_activate s0).1).2 in
  (∃ rest, trace = [EvAct (Log LogActivating); EvCall CachesKeys; EvCall ClientsClaim;
                    EvWaitUntil 0] ++ rest) ∧
  (∀ pre n post, trace = pre ++ EvCall (CachesDelete n) :: post →
     In (EvCall ClientsClaim) pre) ∧
  (∀ pre c m post, trace = pre ++ EvAct (PostMessage c m) :: post →
     m = SW_ACTIVATED CACHE_NAME CACHE_VERSION ∧
     In (EvSettle ClientsClaim) pre ∧
     ∀ n, superseded n = true → is_Some (caches (env s0) !! n) →
          In (EvSettle (CachesDelete n)) pre) ∧
  ((3 + size (caches (env s0)) ≤ length sched)%nat →
   ∀ c, In c (clients (env s0)) → In (activation_notice c) trace).
Proof.
  intros Ht trace.
  destruct (activate_trace s0 sched Ht) as (a & Hrep & Hcost). fold trace in Hrep.
  assert (Hstart : ∃ rest, trace = [EvAct (Log LogActivating); EvCall CachesKeys;
                                     EvCall ClientsClaim; EvWaitUntil 0] ++ rest).
  { unfold trace. rewrite on_activate_fresh by done. by eexists. }
  split; [done|]. split; [|split].
  - intros pre n post Heq. destruct Hstart as [rest Hrest]. rewrite Hrest in Heq.
    apply split_after_prefix in Heq as [mid ->].
    + apply in_or_app. left. simpl. auto.
    + simpl. intuition discriminate.
  - intros pre c m post Heq.
    assert (Hin : In (EvAct (PostMessage c m)) trace).
    { rewrite Heq. apply in_or_app. right. by left. }
    destruct a as [cl|cl dphs|dphs|dphs]; unfold arep in Hrep;
      try (exfalso; by apply (proj1 Hrep c m)).
    destruct Hrep as ((pre0 & Hsil & Hcl & Hdel & Htr) & HF & Hs & _).
    split; [rewrite Htr in Hin; by eapply notice_in_done_trace|].
    rewrite Htr in Heq. apply split_after_prefix in Heq as [mid ->]; [|apply Hsil].
    split; [apply in_or_app; left; by apply Hcl|].
    intros n Hn [cache Hc]. apply in_or_app. left.
    assert (Hnm : n ∈ stored_names s0).
    { unfold stored_names. apply elem_of_elements, elem_of_dom. by eexists. }
    apply list_elem_of_lookup in Hnm as [j Hj].
    eapply Hdel; [done|]. by eapply settled_phase_deleted.
  - intros Hlen c Hc.
    destruct (arep_done_only s0 a _ _ Hrep) as [dphs ->]; [lia|].
    destruct Hrep as ((pre0 & _ & _ & _ & Htr) & _). rewrite Htr.
    apply in_or_app. right. right. apply in_or_app. left.
    apply list_elem_of_In, list_elem_of_fmap. exists c. split; [done|].
    by apply list_elem_of_In.
Qed.

(** ** Fetch *)

Lemma step_wait_head n s o k rest :
  tasks s = RWait o k :: rest → leaves_list rest = 0 →
  step n s =
  let '(x, w1) := perform o (env s) in
  let '(r1, s1, e1) := start (k x) (set_env s w1) in
  (set_tasks s1 (<[0 := r1]> (tasks s1)), (EvSettle o :: e1) ++ done_event 0 r1).
Proof.
  intros Ht Hr. unfold step, pending. rewrite Ht.
  change (leaves_list (RWait o k :: rest)) with (1 + leaves_list rest). rewrite Hr.
  assert (Hn : (if Nat.ltb n (1 + 0) then n else 0) = 0).
  { destruct (Nat.ltb_spec n (1 + 0)); lia. }
  rewrite Hn. cbn [locate leaves Nat.ltb Nat.leb lookup list_lookup settle].
  destruct (perform o (env s)) as [x w1].
  destruct (start (k x) (set_env s w1)) as [[r1 s1] e1]. reflexivity.
Qed.

Lemma step_wait_second n s o0 o k rest :
  tasks s = RDone o0 :: RWait o k :: rest → leaves_list rest = 0 →
  step n s =
  let '(x, w1) := perform o (env s) in
  let '(r1, s1, e1) := start (k x) (set_env s w1) in
  (set_tasks s1 (<[1 := r1]> (tasks s1)), (EvSettle o :: e1) ++ done_event 1 r1).
Proof.
  intros Ht Hr. unfold step, pending. rewrite Ht.
  change (leaves_list (RDone o0 :: RWait o k :: rest)) with (0 + (1 + leaves_list rest)).
  rewrite Hr.
  assert (Hn : (if Nat.ltb n (0 + (1 + 0)) then n else 0) = 0).
  { destruct (Nat.ltb_spec n (0 + (1 + 0))); lia. }
  rewrite Hn.
  cbn [locate leaves Nat.ltb Nat.leb Nat.sub lookup list_lookup settle].
  destruct (perform o (env s)) as [x w1].
  destruct (start (k x) (set_env s w1)) as [[r1 s1] e1]. reflexivity.
Qed.

Lemma lookup_cached_open w k : lookup_cached (open_cache w) k = lookup_cached w k.
Proof.
  unfold lookup_cached, open_cache. simpl.
  destruct (caches w !! CACHE_NAME) eqn:E; simpl; [by rewrite E|].
  by rewrite lookup_insert_eq.
Qed.

Lemma net_open_cache w : net (open_cache w) = net w.
Proof. unfold open_cache. simpl. by destruct (caches w !! CACHE_NAME). Qed.

Lemma lookup_cached_put w k r :
  put_accepts r = true → lookup_cached (put_cached w k r) k = Some r.
Proof.
  intros Ha. unfold lookup_cached, put_cached. simpl. rewrite Ha. simpl.
  rewrite lookup_insert_eq. simpl. apply lookup_insert_eq.
Qed.

Lemma put_cached_refused w k r : put_accepts r = false → put_cached w k r = w.
Proof. intros Ha. unfold put_cached. simpl. by rewrite Ha. Qed.

Lemma on_fetch_routed request s :
  routed request →
  on_fetch request s =
  let '(p, s1, evs) := spawn_task (handleRequest request) s in
  (Some p, s1, evs ++ [EvRespondWith p]).
Proof. intros (Hm & Ho & Hw). unfold on_fetch. by rewrite Hm, Ho, Hw. Qed.

Lemma on_fetch_worker_script request s :
  method request = "GET" → startsWith (url request) origin = true →
  includes (url request) "sw.js" = true →
  on_fetch request s =
  let '(p, s1, evs) := spawn_task (fetch_ (url request) FetchPlain) s in
  (Some p, s1, evs ++ [EvRespondWith p]).
Proof. intros Hm Ho Hw. unfold on_fetch. by rewrite Hm, Ho, Hw. Qed.


Lemma perform_open w : perform (CachesOpen CACHE_NAME) w = (tt, open_cache w).
Proof. reflexivity. Qed.

Lemma perform_match w k : perform (CacheMatch CACHE_NAME k) w = (lookup_cached w k, w).
Proof. reflexivity. Qed.

Lemma perform_put w k r :
  perform (CachePut CACHE_NAME k r) w =
  (if put_accepts r then inr tt else inl (put_error r), put_cached w k r).
Proof. unfold put_cached. simpl. by destruct (put_accepts r). Qed.

Lemma perform_fetch w u o : perform (Fetch u o) w = (fetch_reply (net w u), w).
Proof. reflexivity. Qed.

Lemma exec_cons n sched s :
  exec (n :: sched) s =
  ((exec sched (step n s).1).1, (step n s).2 ++ (exec sched (step n s).1).2).
Proof.
  change (exec (n :: sched) s) with
    (let '(s1, e1) := step n s in let '(s2, e2) := exec sched s1 in (s2, e1 ++ e2)).
  destruct (step n s) as [s1 e1]. cbn [fst snd]. by destruct (exec sched s1) as [s2 e2].
Qed.

Lemma exec_nil s : exec [] s = (s, []).
Proof. reflexivity. Qed.

Ltac calm :=
  cbn [start catch_ then_ put_ do_act set_env set_tasks env tasks insert list_insert
       lastBackgroundUpdate now isInstalled installPromise fst snd app done_event];
  rewrite ?lookup_cached_open, ?net_open_cache.

Ltac turn :=
  rewrite exec_cons;
  erewrite step_wait_head by reflexivity;
  rewrite ?perform_open, ?perform_match, ?perform_put, ?perform_fetch;
  calm.

(** The lookups of handleRequest that find nothing end in the network
    fetch of tryNetwork. *)
Lemma lookup_phase_miss request s0 sched :
  tasks s0 = [] →
  (∀ k, In k (lookup_keys request) → lookup_cached (env s0) k = None) →
  length sched = S (length (lookup_keys request)) →
  (exec sched (spawn_task (handleRequest request) s0).1.2).1 =
  set_tasks (set_env s0 (open_cache (env s0))) [awaitingNetwork request].
Proof.
  intros Ht Hmiss Hlen. unfold spawn_task, lookup_keys in *.
  cbn [handleRequest getCachedResponse catch_ then_ start fst snd]. rewrite Ht.
  destruct (isHTMLRequest request) eqn:Hhtml.
  - destruct sched as [|n1 [|n2 [|n3 [|n4 [|n5 [|]]]]]]; try discriminate Hlen.
    turn. turn. rewrite (Hmiss (url request)) by (by left).
    cbn [exactMatch]. rewrite Hhtml. cbn [matchAlternatives]. calm.
    turn. rewrite Hmiss by (simpl; auto). calm.
    turn. rewrite Hmiss by (simpl; auto). calm.
    turn. rewrite Hmiss by (simpl; auto). cbn [serveOrFetch tryNetwork]. calm.
    reflexivity.
  - destruct sched as [|n1 [|n2 [|]]]; try discriminate Hlen.
    turn. turn. rewrite (Hmiss (url request)) by (by left).
    cbn [exactMatch]. rewrite Hhtml. cbn [serveOrFetch tryNetwork]. calm.
    reflexivity.
Qed.

Lemma start_tryNetwork request s :
  start (tryNetwork request) s =
  (tryingNetwork request, s,
   [EvAct (SetTimeout 5000); EvCall (Fetch (url request) FetchWithSignal)]).
Proof. reflexivity. Qed.

(** tryNetwork when the fetch fails: the placeholder for a page request,
    the error thrown again otherwise. *)
Lemma tryNetwork_failed_turn n s0 w request :
  network_fails w request = true →
  ∃ evs,
    step n (set_tasks (set_env s0 w) [tryingNetwork request]) =
    (set_tasks (set_env s0 w)
       [RDone (if isHTMLRequest request
               then Fulfilled (VResponse createOfflineResponse)
               else Rejected (network_error w request))],
     evs).
Proof.
  intros Hf. unfold network_fails, network_error in *.
  erewrite step_wait_head by reflexivity. rewrite perform_fetch.
  cbn [set_env set_tasks env tasks fst snd].
  destruct (net w (url request)) as [r| |]; cbn [fetch_reply networkAnswered].
  - destruct (ok r); [done|]. cbn [start catch_ do_act networkFailed negb].
    destruct (isHTMLRequest request); calm; by eexists.
  - cbn [start catch_ do_act networkFailed].
    destruct (isHTMLRequest request); calm; by eexists.
  - cbn [start catch_ do_act networkFailed].
    destruct (isHTMLRequest request); calm; by eexists.
Qed.

(** handleRequest when the fetch of tryNetwork fails: the placeholder
    for a page request; otherwise the error tryNetwork throws reaches the
    catch block, which answers with the generic error response. *)
Lemma network_failed_turn n s0 w request :
  network_fails w request = true →
  ∃ pre,
    step n (set_tasks (set_env s0 w) [awaitingNetwork request]) =
    (set_tasks (set_env s0 w)
       [RDone (Fulfilled (VResponse
          (if isHTMLRequest request then createOfflineResponse else createErrorResponse)))],
     EvSettle (Fetch (url request) FetchWithSignal) :: pre ++
     EvAct (Log (LogNetworkFailed (network_error w request))) ::
     (if isHTMLRequest request then []
      else [EvAct (Log (LogRequestHandlingFailed (network_error w request)))]) ++
     [EvDone 0 (Fulfilled (VResponse
        (if isHTMLRequest request then createOfflineResponse else createErrorResponse)))]).
Proof.
  intros Hf. unfold network_fails, network_error in *.
  erewrite step_wait_head by reflexivity. rewrite perform_fetch.
  cbn [set_env set_tasks env tasks fst snd].
  destruct (net w (url request)) as [r| |]; cbn [fetch_reply networkAnswered].
  - destruct (ok r); [done|]. cbn [start catch_ do_act networkFailed negb].
    destruct (isHTMLRequest request); calm;
      by exists [EvAct ClearTimeout; EvAct ClearTimeout].
  - cbn [start catch_ do_act networkFailed].
    destruct (isHTMLRequest request); calm; by exists [EvAct ClearTimeout].
  - cbn [start catch_ do_act networkFailed].
    destruct (isHTMLRequest request); calm; by exists [EvAct ClearTimeout].
Qed.

Lemma split_last_turn {A} (l : list A) k :
  length l = S k → ∃ l' x, l = l' ++ [x] ∧ length l' = k.
Proof.
  intros Hl. destruct (exists_last (l := l)) as (l' & x & ->).
  { intros ->. discriminate. }
  exists l', x. split; [done|]. rewrite length_app in Hl. simpl in Hl. lia.
Qed.

Lemma exec_last sched n s :
  exec (sched ++ [n]) s =
  ((step n (exec sched s).1).1, (exec sched s).2 ++ (step n (exec sched s).1).2).
Proof.
  rewrite exec_app. destruct (exec sched s) as [s1 e1]. cbn [fst snd].
  rewrite exec_cons, exec_nil. cbn [fst snd]. by rewrite app_nil_r.
Qed.

Lemma spawn_handleRequest_id request s0 :
  tasks s0 = [] → (spawn_task (handleRequest request) s0).1.1 = 0.
Proof. intros Ht. unfold spawn_task. cbn [handleRequest getCachedResponse catch_ then_ start fst snd]. by rewrite Ht. Qed.

Lemma on_fetch_routed_start request s0 :
  tasks s0 = [] → routed request →
  on_fetch request s0 =
  (Some 0, (spawn_task (handleRequest request) s0).1.2,
   [EvCall (CachesOpen CACHE_NAME); EvRespondWith 0]).
Proof.
  intros Ht Hr. rewrite on_fetch_routed by done. unfold spawn_task.
  cbn [handleRequest getCachedResponse catch_ then_ start fst snd]. by rewrite Ht.
Qed.

(** The worker's own script: the answer of the network, as it is. *)
Lemma on_fetch_worker_script_start request s0 :
  tasks s0 = [] →
  method request = "GET" → startsWith (url request) origin = true →
  includes (url request) "sw.js" = true →
  on_fetch request s0 =
  (Some 0,
   set_tasks s0 [RWait (Fetch (url request) FetchPlain)
                   (λ x, match x with inl e => Throw e | inr r => Ret (VResponse r) end)],
   [EvCall (Fetch (url request) FetchPlain); EvRespondWith 0]).
Proof.
  intros Ht Hm Ho Hw. rewrite on_fetch_worker_script by done. unfold spawn_task.
  cbn [fetch_ start fst snd]. by rewrite Ht.
Qed.

Lemma worker_script_turn n s0 u :
  step n (set_tasks s0 [RWait (Fetch u FetchPlain)
                          (λ x, match x with inl e => Throw e | inr r => Ret (VResponse r) end)]) =
  (set_tasks s0 [RDone (fetched (env s0) u)],
   [EvSettle (Fetch u FetchPlain); EvDone 0 (fetched (env s0) u)]).
Proof.
  erewrite step_wait_head by reflexivity. rewrite perform_fetch. unfold fetched.
  cbn [set_env set_tasks env tasks fst snd].
  destruct (net (env s0) u); reflexivity.
Qed.

Lemma offline_response_ok : ok createOfflineResponse = true.
Proof. reflexivity. Qed.

(** C6, as the code has it.  A same-origin GET request that does not
    name the worker's own script (its URL does not contain "sw.js"), is
    classified as a page request, has no entry in the current cache under
    its URL or under the fallback identifiers, and whose network fetch
    fails (no answer, time-out, or an answer that is not ok) is answered
    with the built-in placeholder: status 200, content type text/html,
    the literal markup of the script as body. *)
Theorem page_request_gets_offline_placeholder (s0 : state) (request : Request)
    (sched : list nat) :
  tasks s0 = [] → routed request →
  isHTMLRequest request = true →
  (∀ k, In k (lookup_keys request) → lookup_cached (env s0) k = None) →
  network_fails (env s0) request = true →
  length sched = 2 + length (lookup_keys request) →
  let answered := on_fetch request s0 in
  answered.1.1 = Some 0 ∧
  tasks (exec sched answered.1.2).1 = [RDone (Fulfilled (VResponse createOfflineResponse))] ∧
  status createOfflineResponse = 200%Z ∧
  content_type createOfflineResponse = "text/html; charset=utf-8" ∧
  body createOfflineResponse = offlineHTML.
Proof.
  intros Ht Hr Hhtml Hmiss Hf Hlen answered. unfold answered.
  rewrite on_fetch_routed_start by done. cbn [fst snd].
  split; [done|]. split; [|done].
  destruct (split_last_turn sched _ Hlen) as (sched' & n & -> & Hlen').
  rewrite exec_last. cbn [fst snd].
  rewrite lookup_phase_miss by done.
  destruct (network_failed_turn n s0 (open_cache (env s0)) request) as [pre ->].
  { unfold network_fails. by rewrite net_open_cache. }
  cbn [fst snd tasks set_tasks]. by rewrite Hhtml.
Qed.

(** C7.  A same-origin GET request that is not classified as a page
    request, has no entry in the current cache, and whose network fetch
    fails: tryNetwork rejects with the error of the fetch, and what the
    router hands to its caller is a failure and never the offline
    placeholder -- the generic error response (status 500) that the catch
    block of handleRequest makes of the rejection, or, for the worker's
    own script, the failed answer of the network itself. *)
Theorem resource_request_failure_surfaces (s0 : state) (request : Request)
    (sched : list nat) :
  tasks s0 = [] →
  method request = "GET" → startsWith (url request) origin = true →
  isHTMLRequest request = false →
  lookup_cached (env s0) (url request) = None →
  network_fails (env s0) request = true →
  length sched = 3 →
  let answered := on_fetch request s0 in
  (∀ n s, ∃ evs,
     step n (set_tasks (set_env s (env s0)) [(start (tryNetwork request) s).1.1]) =
     (set_tasks (set_env s (env s0)) [RDone (Rejected (network_error (env s0) request))],
      evs)) ∧
  ∃ o, tasks (exec sched answered.1.2).1 = [RDone o] ∧
       surfaced_as_failure o ∧
       o ≠ Fulfilled (VResponse createOfflineResponse) ∧
       (includes (url request) "sw.js" = false →
        o = Fulfilled (VResponse createErrorResponse) ∧
        In (EvAct (Log (LogRequestHandlingFailed (network_error (env s0) request))))
          (exec sched answered.1.2).2).
Proof.
  intros Ht Hm Ho Hhtml Hmiss Hf Hlen answered. split.
  - intros n s. rewrite start_tryNetwork. cbn [fst snd].
    destruct (tryNetwork_failed_turn n s (env s0) request Hf) as [evs Hevs].
    exists evs. by rewrite Hhtml in Hevs.
  - unfold answered. destruct (includes (url request) "sw.js") eqn:Hw.
    + rewrite on_fetch_worker_script_start by done. cbn [fst snd].
      destruct sched as [|n1 sched]; [discriminate|].
      rewrite exec_cons, worker_script_turn. cbn [fst snd].
      rewrite exec_idle by reflexivity. cbn [fst snd tasks set_tasks].
      exists (fetched (env s0) (url request)). split; [done|].
      unfold network_fails in Hf. unfold fetched.
      destruct (net (env s0) (url request)) as [r| |]; simpl.
      * split; [by destruct (ok r)|]. split; [|done].
        intros Heq. inversion Heq; subst r. by rewrite offline_response_ok in Hf.
      * done.
      * done.
    + rewrite on_fetch_routed_start by done. cbn [fst snd].
      destruct (split_last_turn sched 2 Hlen) as (sched' & n & -> & Hlen').
      rewrite exec_last. cbn [fst snd].
      rewrite lookup_phase_miss; [|done| |].
      * destruct (network_failed_turn n s0 (open_cache (env s0)) request) as [pre ->].
        { unfold network_fails. by rewrite net_open_cache. }
        cbn [fst snd tasks set_tasks]. rewrite Hhtml.
        exists (Fulfilled (VResponse createErrorResponse)).
        split; [done|]. split; [done|]. split; [done|]. intros _. split; [done|].
        unfold network_error. rewrite net_open_cache.
        apply in_or_app. right. right. apply in_or_app. right. simpl. auto.
      * unfold lookup_keys. rewrite Hhtml. intros k [<-|[]]. done.
      * unfold lookup_keys. by rewrite Hhtml.
Qed.

Ltac turn1 :=
  erewrite step_wait_head by reflexivity;
  rewrite ?perform_open, ?perform_match, ?perform_put, ?perform_fetch;
  calm.

(** C8, as the code has it.  When the lookups of a routed request find
    nothing and the network answers with a successful status, the worker
    opens the cache and, in the turn in which it returns the response,
    calls cache.put with a copy without awaiting it: the put is called
    before the response is returned, and it is still pending (and the
    entry not yet in the cache) when the response is returned.  Once the
    put has settled the entry is in the current version's cache if the
    cache accepts the response; if it refuses it (status 206, or a Vary
    header that is a star) the put ends rejected, in a task nothing
    waits for, and the URL still has no entry. *)
Theorem network_response_copy_put_not_awaited (s0 : state) (request : Request)
    (r : Response) (sched : list nat) (nf no np : nat) :
  tasks s0 = [] → routed request →
  (∀ k, In k (lookup_keys request) → lookup_cached (env s0) k = None) →
  net (env s0) (url request) = NetOk r → ok r = true →
  length sched = S (length (lookup_keys request)) →
  let waiting := (exec sched (on_fetch request s0).1.2).1 in
  let answered := step nf waiting in
  let returned := step no answered.1 in
  let stored := step np returned.1 in
  is_done <$> tasks answered.1 !! 0 = Some false ∧
  returned.2 =
    [EvSettle (CachesOpen CACHE_NAME);
     EvCall (CachePut CACHE_NAME (url request) r);
     EvAct (Log (LogNetworkSuccess (url request)));
     EvDone 0 (Fulfilled (VResponse r))] ∧
  tasks returned.1 = [RDone (Fulfilled (VResponse r)); storingCopy request r] ∧
  lookup_cached (env returned.1) (url request) = None ∧
  stored.2 = [EvSettle (CachePut CACHE_NAME (url request) r);
              EvDone 1 (put_outcome r)] ∧
  tasks stored.1 = [RDone (Fulfilled (VResponse r)); RDone (put_outcome r)] ∧
  lookup_cached (env stored.1) (url request) = if put_accepts r then Some r else None.
Proof.
  intros Ht Hr Hmiss Hnet Hok Hlen waiting answered returned stored.
  assert (Hwaiting : waiting =
            set_tasks (set_env s0 (open_cache (env s0))) [awaitingNetwork request]).
  { unfold waiting. rewrite on_fetch_routed_start by done. cbn [fst snd].
    by apply lookup_phase_miss. }
  assert (Hanswered : answered =
            (set_tasks (set_env s0 (open_cache (env s0)))
               [RWait (CachesOpen CACHE_NAME)
                  (λ _, catch_ (catch_
                     (Spawn (put_ CACHE_NAME (url request) r)
                        (Sync (Log (LogNetworkSuccess (url request)))
                           (λ _, Ret (VResponse r))))
                     (networkFailed request)) requestFailed)],
             [EvSettle (Fetch (url request) FetchWithSignal); EvAct ClearTimeout;
              EvCall (CachesOpen CACHE_NAME)])).
  { unfold answered. rewrite Hwaiting. unfold awaitingNetwork. turn1.
    rewrite Hnet. cbn [fetch_reply networkAnswered]. calm. rewrite Hok. calm.
    reflexivity. }
  assert (Hreturned : returned =
            (set_tasks (set_env s0 (open_cache (open_cache (env s0))))
               [RDone (Fulfilled (VResponse r)); storingCopy request r],
             [EvSettle (CachesOpen CACHE_NAME);
              EvCall (CachePut CACHE_NAME (url request) r);
              EvAct (Log (LogNetworkSuccess (url request)));
              EvDone 0 (Fulfilled (VResponse r))])).
  { unfold returned. rewrite Hanswered. cbn [fst]. turn1. reflexivity. }
  assert (Hstored : stored =
            (set_tasks
               (set_env s0 (put_cached (open_cache (open_cache (env s0))) (url request) r))
               [RDone (Fulfilled (VResponse r)); RDone (put_outcome r)],
             [EvSettle (CachePut CACHE_NAME (url request) r);
              EvDone 1 (put_outcome r)])).
  { unfold stored. rewrite Hreturned. cbn [fst]. unfold storingCopy.
    erewrite step_wait_second by reflexivity. rewrite perform_put.
    unfold put_outcome. by destruct (put_accepts r). }
  rewrite Hanswered, Hreturned, Hstored. cbn [fst snd tasks env set_tasks set_env].
  split; [done|]. split; [done|]. split; [done|].
  split; [rewrite !lookup_cached_open; apply Hmiss; by left|].
  split; [done|]. split; [done|].
  destruct (put_accepts r) eqn:Ha; [by apply lookup_cached_put|].
  rewrite put_cached_refused by done. rewrite !lookup_cached_open. apply Hmiss. by left.
Qed.

Ltac trace_facts :=
  repeat split; try done; unfold not; intros;
  repeat match goal with
    | H : In _ _ |- _ => simpl in H
    | H : _ ∨ _ |- _ => destruct H
    | H : False |- _ => destruct H
    | H : EvCall _ = EvCall _ |- _ => inversion H; clear H; subst
    | H : _ = _ |- _ => discriminate H
    end; auto.

Ltac script :=
  cbn [start catch_ then_ do_act set_env set_tasks env tasks insert list_insert
       lastBackgroundUpdate now isInstalled installPromise fst snd app done_event
       exactMatch serveOrFetch updateInBackground backgroundRefresh fetch_ put_ requestFailed
       negb exec].

(** C5, as the code has it.  A same-origin GET request that does not
    name the worker's own script and whose URL has an entry in the
    current cache is answered, after the two cache operations of the
    lookup, with the cached response, whatever the network does: no
    fetch settles before the answer, no fetch is even called for a
    request that is not a page request, and the only fetch a page request
    may call is the detached background refresh of that URL. *)
Theorem cached_request_served_without_network (s0 : state) (request : Request)
    (cached : Response) (n1 n2 : nat) :
  tasks s0 = [] → routed request →
  lookup_cached (env s0) (url request) = Some cached →
  let answered := on_fetch request s0 in
  let served := exec [n1; n2] answered.1.2 in
  let trace := answered.2 ++ served.2 in
  answered.1.1 = Some 0 ∧
  tasks served.1 !! 0 = Some (RDone (Fulfilled (VResponse cached))) ∧
  (∀ u o, ¬ In (EvSettle (Fetch u o)) trace) ∧
  (isHTMLRequest request = false → ∀ u o, ¬ In (EvCall (Fetch u o)) trace) ∧
  (∀ u o, In (EvCall (Fetch u o)) trace →
          u = url request ∧ o = FetchNoCache ∧ isHTMLRequest request = true).
Proof.
  intros Ht Hr Hhit answered served trace. unfold trace, served, answered.
  rewrite on_fetch_routed_start by done. unfold spawn_task.
  cbn [handleRequest getCachedResponse catch_ then_ start fst snd]. rewrite Ht.
  turn. turn. rewrite Hhit. script.
  destruct (isHTMLRequest request) eqn:Hhtml; script.
  - destruct (lastBackgroundUpdate s0) as [l|]; script.
    + destruct (l =? 0)%Z; script; [trace_facts|].
      destruct (now s0 - l <? 30000)%Z; script; trace_facts.
    + trace_facts.
  - trace_facts.
Qed.

(** ** Background refresh *)

(** updateInBackground fetches exactly when its test lets it through,
    and then stamps the time of the call. *)
Lemma updateInBackground_decides request s t :
  let called := start (updateInBackground request (Ret VUndefined)) (at_time s t) in
  fetch_calls called.2 = (if rate_limited (lastBackgroundUpdate s) t then 0 else 1) ∧
  lastBackgroundUpdate called.1.2 =
    (if rate_limited (lastBackgroundUpdate s) t then lastBackgroundUpdate s else Some t).
Proof.
  unfold rate_limited, at_time. script.
  destruct (lastBackgroundUpdate s) as [l|] eqn:Hl; script; [|by rewrite ?Hl].
  destruct (l =? 0)%Z; script; [done|].
  destruct (t - l <? 30000)%Z; script; [by rewrite ?Hl|done].
Qed.

Lemma refreshes_limited invocations s l :
  lastBackgroundUpdate s = Some l → l ≠ 0%Z →
  (∀ r t, In (r, t) invocations → (t - l < 30000)%Z) →
  refreshes invocations s = 0.
Proof.
  revert s. induction invocations as [|[r t] rest IH]; intros s Hl Hl0 Hw; [done|].
  cbn [refreshes].
  destruct (updateInBackground_decides r s t) as [Hc Hs]. cbv zeta in Hc, Hs.
  destruct (start (updateInBackground r (Ret VUndefined)) (at_time s t)) as [[r1 s1] evs].
  cbn [fst snd] in Hc, Hs.
  assert (Hlim : rate_limited (lastBackgroundUpdate s) t = true).
  { rewrite Hl. unfold rate_limited. apply andb_true_intro. split.
    - apply negb_true_iff, Z.eqb_neq. done.
    - apply Z.ltb_lt. apply (Hw r). by left. }
  rewrite Hlim in Hc, Hs. rewrite Hc. simpl.
  apply IH; [by rewrite Hs|done|]. intros r' t' Hin. apply (Hw r'). by right.
Qed.

(** Any number of invocations, for whatever requests, at clock readings
    other than 0 of which no later one is 30 seconds or more after an
    earlier one, call fetch at most once. *)
Lemma refreshes_at_most_once invocations s :
  (∀ r t, In (r, t) invocations → t ≠ 0%Z) →
  (∀ i j r1 t1 r2 t2, i < j → invocations !! i = Some (r1, t1) →
     invocations !! j = Some (r2, t2) → (t2 - t1 < 30000)%Z) →
  (refreshes invocations s ≤ 1)%nat.
Proof.
  revert s. induction invocations as [|[r t] rest IH]; intros s Hnz Hw; [simpl; lia|].
  cbn [refreshes].
  destruct (updateInBackground_decides r s t) as [Hc Hs]. cbv zeta in Hc, Hs.
  destruct (start (updateInBackground r (Ret VUndefined)) (at_time s t)) as [[r1 s1] evs].
  cbn [fst snd] in Hc, Hs. rewrite Hc.
  destruct (rate_limited (lastBackgroundUpdate s) t).
  - simpl. apply IH.
    + intros r' t' Hin. apply (Hnz r'). by right.
    + intros i j ra ta rb tb Hij Hi Hj. by apply (Hw (S i) (S j) ra ta rb tb); [lia|..].
  - rewrite (refreshes_limited rest s1 t); [lia|done| |].
    + apply (Hnz r). by left.
    + intros r' t' Hin. apply list_elem_of_In, list_elem_of_lookup in Hin as [j Hj].
      by apply (Hw 0 (S j) r t r' t'); [lia|..].
Qed.

(** C9.  Two invocations of the passive background refresh, for whatever
    requests, the second less than 30 seconds after the first, call fetch
    at most once between them: the limit is the one timestamp of the
    worker, whatever the resource.  The same holds of any number of
    invocations within 30 seconds.  (The clock readings are other than 0:
    a timestamp of 0 is falsy in JavaScript and would read as "never
    refreshed".) *)
Theorem background_refresh_rate_limited (s : state) (r1 r2 : Request) (t1 t2 : Z) :
  t1 ≠ 0%Z → (t2 - t1 < 30000)%Z →
  let first := start (updateInBackground r1 (Ret VUndefined)) (at_time s t1) in
  let second := start (updateInBackground r2 (Ret VUndefined)) (at_time first.1.2 t2) in
  (fetch_calls first.2 + fetch_calls second.2 ≤ 1)%nat ∧
  ∀ invocations s',
    (∀ r t, In (r, t) invocations → t ≠ 0%Z) →
    (∀ i j ra ta rb tb, i < j → invocations !! i = Some (ra, ta) →
       invocations !! j = Some (rb, tb) → (tb - ta < 30000)%Z) →
    (refreshes invocations s' ≤ 1)%nat.
Proof.
  intros Ht1 Hw first second. split; [|apply refreshes_at_most_once].
  destruct (updateInBackground_decides r1 s t1) as [Hc1 Hs1]. fold first in Hc1, Hs1.
  destruct (updateInBackground_decides r2 first.1.2 t2) as [Hc2 Hs2]. fold second in Hc2, Hs2.
  rewrite Hc1, Hc2, Hs1.
  destruct (rate_limited (lastBackgroundUpdate s) t1).
  - destruct (rate_limited (lastBackgroundUpdate s) t2); simpl; lia.
  - assert (Hlim : rate_limited (Some t1) t2 = true).
    { unfold rate_limited. apply andb_true_intro. split.
      - by apply negb_true_iff, Z.eqb_neq.
      - by apply Z.ltb_lt. }
    rewrite Hlim. simpl. lia.
Qed.

(** * Further properties of the script *)

(** ** Induction on promise programs and on started programs *)

Lemma proc_induction (P : proc → Prop) :
  (∀ v, P (Ret v)) →
  (∀ e, P (Throw e)) →
  (∀ a k, (∀ x, P (k x)) → P (Sync a k)) →
  (∀ o k, (∀ x, P (k x)) → P (Await o k)) →
  (∀ q k, P q → P k → P (Spawn q k)) →
  (∀ ps k, Forall P ps → (∀ x, P (k x)) → P (All ps k)) →
  (∀ ps k, Forall P ps → (∀ x, P (k x)) → P (AllSettled ps k)) →
  ∀ p, P p.
Proof.
  intros HR HT HS HA HSp HAll HAS. fix IH 1.
  intros [v|e|a k|o k|q k|ps k|ps k].
  - apply HR.
  - apply HT.
  - apply HS. intros x. apply IH.
  - apply HA. intros x. apply IH.
  - apply HSp; apply IH.
  - apply HAll; [|intros x; apply IH].
    revert ps. fix IHl 1. intros [|p ps]; constructor; [apply IH|apply IHl].
  - apply HAS; [|intros x; apply IH].
    revert ps. fix IHl 1. intros [|p ps]; constructor; [apply IH|apply IHl].
Qed.

Lemma run_induction (P : run → Prop) :
  (∀ o, P (RDone o)) →
  (∀ o k, P (RWait o k)) →
  (∀ cs k, Forall P cs → P (RAll cs k)) →
  (∀ cs k, Forall P cs → P (RAllSettled cs k)) →
  ∀ r, P r.
Proof.
  intros HD HW HAll HAS. fix IH 1. intros [o|o k|cs k|cs k].
  - apply HD.
  - apply HW.
  - apply HAll. revert cs. fix IHl 1. intros [|c cs]; constructor; [apply IH|apply IHl].
  - apply HAS. revert cs. fix IHl 1. intros [|c cs]; constructor; [apply IH|apply IHl].
Qed.

(** ** Settled tasks of earlier events are inert *)

Lemma do_act_behind pre a s :
  do_act a (behind pre s) = ((do_act a s).1, behind pre (do_act a s).2).
Proof. by destruct a. Qed.

Lemma behind_spawned pre s added :
  set_tasks (behind pre s) (tasks (behind pre s) ++ added) =
  behind pre (set_tasks s (tasks s ++ added)).
Proof. unfold behind. cbn [set_tasks tasks]. by rewrite app_assoc. Qed.

Lemma start_list_behind pre ps s :
  Forall (start_behind_at pre) ps →
  start_list ps (behind pre s) =
  ((start_list ps s).1.1, behind pre (start_list ps s).1.2, (start_list ps s).2).
Proof.
  intros HF. revert s. induction HF as [|p ps Hp _ IH]; intros s; [done|].
  cbn [start_list]. rewrite Hp. destruct (start p s) as [[c s1] e1]. cbn [fst snd].
  rewrite IH. by destruct (start_list ps s1) as [[cs s2] e2].
Qed.

Lemma join_all_behind pre cs k s :
  (∀ x, start_behind_at pre (k x)) →
  join_all cs k (behind pre s) =
  ((join_all cs k s).1.1, behind pre (join_all cs k s).1.2, (join_all cs k s).2).
Proof.
  intros Hk. unfold join_all.
  destruct (first_rejected cs) as [e|].
  - rewrite behind_spawned. apply Hk.
  - destruct (all_values cs) as [vs|]; [apply Hk|done].
Qed.

Lemma join_all_settled_behind pre cs k s :
  (∀ x, start_behind_at pre (k x)) →
  join_all_settled cs k (behind pre s) =
  ((join_all_settled cs k s).1.1, behind pre (join_all_settled cs k s).1.2,
   (join_all_settled cs k s).2).
Proof.
  intros Hk. unfold join_all_settled.
  destruct (all_outcomes cs) as [os|]; [apply Hk|done].
Qed.

Lemma start_behind pre p : start_behind_at pre p.
Proof.
  induction p as [v|e|a k IH|o k IH|q k IHq IHk|ps k IHps IHk|ps k IHps IHk]
    using proc_induction; intros s.
  - done.
  - done.
  - cbn [start]. rewrite do_act_behind. destruct (do_act a s) as [x s1]. cbn [fst snd].
    rewrite IH. by destruct (start (k x) s1) as [[r s2] evs].
  - done.
  - cbn [start]. rewrite IHq. destruct (start q s) as [[rq s1] e1]. cbn [fst snd].
    rewrite behind_spawned, IHk.
    by destruct (start k (set_tasks s1 (tasks s1 ++ [rq]))) as [[r s2] e2].
  - rewrite !start_All, start_list_behind by done.
    destruct (start_list ps s) as [[cs s1] e1]. cbn [fst snd].
    rewrite join_all_behind by done. by destruct (join_all cs k s1) as [[r s2] e2].
  - rewrite !start_AllSettled, start_list_behind by done.
    destruct (start_list ps s) as [[cs s1] e1]. cbn [fst snd].
    rewrite join_all_settled_behind by done.
    by destruct (join_all_settled cs k s1) as [[r s2] e2].
Qed.

Lemma settle_list_behind pre cs n s :
  Forall (settle_behind_at pre) cs →
  settle_list n cs (behind pre s) =
  ((settle_list n cs s).1.1, behind pre (settle_list n cs s).1.2, (settle_list n cs s).2).
Proof.
  intros HF. revert n. induction HF as [|c cs Hc _ IH]; intros n; [done|].
  cbn [settle_list]. destruct (Nat.ltb n (leaves c)).
  - rewrite Hc. by destruct (settle n c s) as [[c1 s1] e1].
  - rewrite IH. by destruct (settle_list (n - leaves c) cs s) as [[cs1 s1] e1].
Qed.

Lemma settle_behind pre r : settle_behind_at pre r.
Proof.
  induction r as [o|o k|cs k IH|cs k IH] using run_induction; intros n s.
  - done.
  - cbn [settle]. change (env (behind pre s)) with (env s).
    destruct (perform o (env s)) as [x w1].
    change (set_env (behind pre s) w1) with (behind pre (set_env s w1)).
    rewrite start_behind. by destruct (start (k x) (set_env s w1)) as [[r1 s1] e1].
  - rewrite !settle_RAll, settle_list_behind by done.
    destruct (settle_list n cs s) as [[cs1 s1] e1]. cbn [fst snd].
    rewrite join_all_behind by (intros x; apply start_behind).
    by destruct (join_all cs1 k s1) as [[r2 s2] e2].
  - rewrite !settle_RAllSettled, settle_list_behind by done.
    destruct (settle_list n cs s) as [[cs1 s1] e1]. cbn [fst snd].
    rewrite join_all_settled_behind by (intros x; apply start_behind).
    by destruct (join_all_settled cs1 k s1) as [[r2 s2] e2].
Qed.

(** The script's own events name no task. *)
Lemma start_list_plain ps s :
  Forall (λ p, ∀ s, forallb plain (start p s).2 = true) ps →
  forallb plain (start_list ps s).2 = true.
Proof.
  intros HF. revert s. induction HF as [|p ps Hp _ IH]; intros s; [done|].
  cbn [start_list]. specialize (Hp s). destruct (start p s) as [[c s1] e1].
  specialize (IH s1). destruct (start_list ps s1) as [[cs s2] e2]. cbn [fst snd] in *.
  rewrite forallb_app. by rewrite Hp, IH.
Qed.

Lemma join_all_plain cs k s :
  (∀ x s, forallb plain (start (k x) s).2 = true) →
  forallb plain (join_all cs k s).2 = true.
Proof.
  intros Hk. unfold join_all. destruct (first_rejected cs); [apply Hk|].
  destruct (all_values cs); [apply Hk|done].
Qed.

Lemma join_all_settled_plain cs k s :
  (∀ x s, forallb plain (start (k x) s).2 = true) →
  forallb plain (join_all_settled cs k s).2 = true.
Proof.
  intros Hk. unfold join_all_settled. destruct (all_outcomes cs); [apply Hk|done].
Qed.

Lemma start_plain p : ∀ s, forallb plain (start p s).2 = true.
Proof.
  induction p as [v|e|a k IH|o k IH|q k IHq IHk|ps k IHps IHk|ps k IHps IHk]
    using proc_induction; intros s.
  - done.
  - done.
  - cbn [start]. destruct (do_act a s) as [x s1]. specialize (IH x s1).
    by destruct (start (k x) s1) as [[r s2] evs].
  - done.
  - cbn [start]. specialize (IHq s). destruct (start q s) as [[rq s1] e1].
    specialize (IHk (set_tasks s1 (tasks s1 ++ [rq]))).
    destruct (start k _) as [[r s2] e2]. cbn [fst snd] in *.
    rewrite forallb_app. by rewrite IHq, IHk.
  - rewrite start_All. pose proof (start_list_plain ps s IHps) as H1.
    destruct (start_list ps s) as [[cs s1] e1].
    pose proof (join_all_plain cs k s1 IHk) as H2.
    destruct (join_all cs k s1) as [[r s2] e2]. cbn [fst snd] in *.
    rewrite forallb_app. by rewrite H1, H2.
  - rewrite start_AllSettled. pose proof (start_list_plain ps s IHps) as H1.
    destruct (start_list ps s) as [[cs s1] e1].
    pose proof (join_all_settled_plain cs k s1 IHk) as H2.
    destruct (join_all_settled cs k s1) as [[r s2] e2]. cbn [fst snd] in *.
    rewrite forallb_app. by rewrite H1, H2.
Qed.

Lemma settle_list_plain cs n s :
  Forall (λ r, ∀ n s, forallb plain (settle n r s).2 = true) cs →
  forallb plain (settle_list n cs s).2 = true.
Proof.
  intros HF. revert n. induction HF as [|c cs Hc _ IH]; intros n; [done|].
  cbn [settle_list]. destruct (Nat.ltb n (leaves c)).
  - specialize (Hc n s). by destruct (settle n c s) as [[c1 s1] e1].
  - specialize (IH (n - leaves c)).
    by destruct (settle_list (n - leaves c) cs s) as [[cs1 s1] e1].
Qed.

Lemma settle_plain r : ∀ n s, forallb plain (settle n r s).2 = true.
Proof.
  induction r as [o|o k|cs k IH|cs k IH] using run_induction; intros n s.
  - done.
  - cbn [settle]. destruct (perform o (env s)) as [x w1].
    pose proof (start_plain (k x) (set_env s w1)) as H.
    by destruct (start (k x) (set_env s w1)) as [[r1 s1] e1].
  - rewrite settle_RAll. pose proof (settle_list_plain cs n s IH) as H1.
    destruct (settle_list n cs s) as [[cs1 s1] e1].
    pose proof (join_all_plain cs1 k s1 (λ x, start_plain (k x))) as H2.
    destruct (join_all cs1 k s1) as [[r2 s2] e2]. cbn [fst snd] in *.
    rewrite forallb_app. by rewrite H1, H2.
  - rewrite settle_RAllSettled. pose proof (settle_list_plain cs n s IH) as H1.
    destruct (settle_list n cs s) as [[cs1 s1] e1].
    pose proof (join_all_settled_plain cs1 k s1 (λ x, start_plain (k x))) as H2.
    destruct (join_all_settled cs1 k s1) as [[r2 s2] e2]. cbn [fst snd] in *.
    rewrite forallb_app. by rewrite H1, H2.
Qed.

Lemma renumber_plain k evs : forallb plain evs = true → renumber k <$> evs = evs.
Proof.
  induction evs as [|e evs IH]; [done|]. cbn [forallb]. intros [He Hevs]%andb_prop.
  cbn [fmap list_fmap]. fold (fmap (M := list) (renumber k) evs). rewrite IH by done.
  by destruct e.
Qed.

Lemma leaves_list_app l1 l2 : leaves_list (l1 ++ l2) = leaves_list l1 + leaves_list l2.
Proof.
  induction l1 as [|t l1 IH]; [done|].
  change (leaves_list ((t :: l1) ++ l2)) with (leaves t + leaves_list (l1 ++ l2)).
  change (leaves_list (t :: l1)) with (leaves t + leaves_list l1). lia.
Qed.

Lemma locate_behind n pre ts i :
  leaves_list pre = 0 →
  locate n (pre ++ ts) i = locate n ts (length pre + i).
Proof.
  revert i. induction pre as [|t pre IH]; intros i H; [done|].
  change (leaves_list (t :: pre)) with (leaves t + leaves_list pre) in H.
  cbn [app locate length]. destruct (Nat.ltb_spec n (leaves t)); [lia|].
  assert (Hl : leaves t = 0) by lia. rewrite Hl, Nat.sub_0_r, IH by lia.
  f_equal. lia.
Qed.

Lemma locate_from n ts k i :
  locate n ts (k + i) = prod_map (Nat.add k) id <$> locate n ts i.
Proof.
  revert n i. induction ts as [|t ts IH]; intros n i; [done|].
  cbn [locate]. destruct (Nat.ltb n (leaves t)); [done|].
  rewrite <- IH. f_equal. lia.
Qed.

Lemma done_event_renumber k i r : done_event (k + i) r = renumber k <$> done_event i r.
Proof. by destruct r. Qed.

(** A turn of the event loop of a worker with settled tasks in front. *)
Lemma step_behind pre n s :
  leaves_list pre = 0 →
  step n (behind pre s) =
  (behind pre (step n s).1, renumber (length pre) <$> (step n s).2).
Proof.
  intros Hpre. unfold step, pending.
  change (tasks (behind pre s)) with (pre ++ tasks s).
  rewrite leaves_list_app, Hpre, Nat.add_0_l, locate_behind by done.
  rewrite locate_from.
  destruct (locate (if Nat.ltb n (leaves_list (tasks s)) then n else 0) (tasks s) 0)
    as [[i m]|]; [|done].
  cbn [fmap option_fmap option_map prod_map fst snd id].
  rewrite lookup_app_r by lia.
  replace (length pre + i - length pre) with i by lia.
  destruct (tasks s !! i) as [t|]; [|done].
  rewrite settle_behind. pose proof (settle_plain t m s) as Hplain.
  destruct (settle m t s) as [[t1 s1] evs]. cbn [fst snd] in *.
  f_equal.
  - unfold behind. cbn [set_tasks tasks]. f_equal. apply insert_app_r.
  - rewrite fmap_app, renumber_plain by done. by rewrite done_event_renumber.
Qed.

Lemma exec_behind pre sched s :
  leaves_list pre = 0 →
  exec sched (behind pre s) =
  (behind pre (exec sched s).1, renumber (length pre) <$> (exec sched s).2).
Proof.
  intros Hpre. revert s. induction sched as [|n sched IH]; intros s; [done|].
  rewrite !exec_cons, step_behind by done. cbn [fst snd]. rewrite IH.
  cbn [fst snd]. by rewrite fmap_app.
Qed.

Lemma spawn_task_behind pre p s :
  spawn_task p (behind pre s) =
  (length pre + (spawn_task p s).1.1, behind pre (spawn_task p s).1.2, (spawn_task p s).2).
Proof.
  unfold spawn_task. rewrite start_behind. destruct (start p s) as [[r s1] evs].
  cbn [fst snd]. rewrite <- behind_spawned.
  unfold behind. cbn [tasks set_tasks]. by rewrite length_app.
Qed.

(** A worker is its settled tasks in front of nothing. *)
Lemma behind_idle_part s : behind (tasks s) (idle_part s) = s.
Proof. unfold behind, idle_part. cbn [set_tasks tasks]. by rewrite app_nil_r. Qed.

Lemma on_fetch_behind pre request s :
  on_fetch request (behind pre s) =
  (Nat.add (length pre) <$> (on_fetch request s).1.1,
   behind pre (on_fetch request s).1.2,
   renumber (length pre) <$> (on_fetch request s).2).
Proof.
  unfold on_fetch.
  destruct (negb (String.eqb (method request) "GET")); [done|].
  destruct (negb (startsWith (url request) origin)); [done|].
  destruct (includes (url request) "sw.js").
  - rewrite spawn_task_behind.
    pose proof (start_plain (fetch_ (url request) FetchPlain) s) as Hplain.
    unfold spawn_task in *. destruct (start _ s) as [[r s1] evs]. cbn [fst snd] in *.
    by rewrite fmap_app, renumber_plain.
  - rewrite spawn_task_behind.
    pose proof (start_plain (handleRequest request) s) as Hplain.
    unfold spawn_task in *. destruct (start _ s) as [[r s1] evs]. cbn [fst snd] in *.
    by rewrite fmap_app, renumber_plain.
Qed.

Lemma on_activate_behind pre s :
  on_activate (behind pre s) =
  (behind pre (on_activate s).1, renumber (length pre) <$> (on_activate s).2).
Proof.
  unfold on_activate. rewrite spawn_task_behind.
  pose proof (start_plain activateTask s) as Hplain.
  unfold spawn_task in *. destruct (start _ s) as [[r s1] evs]. cbn [fst snd] in *.
  cbn [fmap list_fmap renumber]. fold (fmap (M := list) (renumber (length pre))).
  by rewrite fmap_app, renumber_plain.
Qed.

(** ** A settled task stays as it is *)

Lemma locate_Some n ts i j m :
  locate n ts i = Some (j, m) →
  ∃ t, (i ≤ j)%nat ∧ ts !! (j - i) = Some t ∧ m < leaves t.
Proof.
  revert n i. induction ts as [|t ts IH]; intros n i; [done|].
  cbn [locate]. destruct (Nat.ltb_spec n (leaves t)) as [Hlt|Hge].
  - intros [= <- <-]. exists t. by rewrite Nat.sub_diag.
  - intros H. apply IH in H as (t' & Hle & Ht' & Hm). exists t'.
    split; [lia|]. split; [|done].
    replace (j - i) with (S (j - S i)) by lia. done.
Qed.

Lemma settle_keeps_tasks m t s :
  ∃ added, tasks (settle m t s).1.2 = tasks s ++ added.
Proof.
  pose proof (settle_behind (tasks s) t m (idle_part s)) as H.
  rewrite behind_idle_part in H. rewrite H.
  cbn [fst snd]. unfold behind. cbn [tasks set_tasks]. by eexists.
Qed.

Lemma step_keeps_done n s i o :
  tasks s !! i = Some (RDone o) → tasks (step n s).1 !! i = Some (RDone o).
Proof.
  intros Hi. unfold step.
  destruct (locate _ (tasks s) 0) as [[j m]|] eqn:Hloc; [|done].
  apply locate_Some in Hloc as (t & _ & Ht & Hm). rewrite Nat.sub_0_r in Ht.
  rewrite Ht. destruct (settle_keeps_tasks m t s) as [added Hadd].
  destruct (settle m t s) as [[t1 s1] evs]. cbn [fst snd tasks set_tasks] in *.
  assert (Hne : j ≠ i).
  { intros ->. rewrite Hi in Ht. injection Ht as <-. simpl in Hm. lia. }
  rewrite list_lookup_insert_ne by done. rewrite Hadd.
  by apply lookup_app_l_Some.
Qed.

Lemma exec_keeps_done sched s i o :
  tasks s !! i = Some (RDone o) → tasks (exec sched s).1 !! i = Some (RDone o).
Proof.
  revert s. induction sched as [|n sched IH]; intros s Hi; [done|].
  rewrite exec_cons. cbn [fst]. apply IH. by apply step_keeps_done.
Qed.

(** ** Install: what is stored, and what is left alone *)

Lemma install_final s0 sched :
  installPromise s0 = None → tasks s0 = [] →
  caches (env s0) !! CACHE_NAME = None →
  (2 + 2 * length URLS_TO_CACHE ≤ length sched)%nat →
  ∃ phs, Forall2 (phase_ok (env s0)) URLS_TO_CACHE phs ∧
         forallb settled phs = true ∧
         (exec sched (on_install s0).1).1 =
         ist s0 (with_cache s0 phs) true true (RDone (Fulfilled VUndefined)).
Proof.
  intros Hp Ht Hnew Hlen.
  destruct (install_trace_digest s0 sched Hp Ht Hnew) as (a & Hrep & Hcost & _).
  destruct (irep_done_only s0 a _ Hrep) as [phs ->]; [simpl in *; lia|].
  by exists phs.
Qed.

Lemma cache_of_lookup w us phs u :
  NoDup (resolve <$> us) →
  Forall2 (phase_ok w) us phs → forallb settled phs = true →
  In u us → cache_of us phs !! resolve u = installed_entry w u.
Proof.
  intros Hnd HF. revert Hnd. induction HF as [|u0 ph us phs Hok _ IH]; intros Hnd Hs Hin; [done|].
  rewrite fmap_cons in Hnd. apply NoDup_cons in Hnd as [Hnotin Hnd].
  simpl in Hs. apply andb_prop in Hs as [Hs1 Hs2].
  rewrite cache_of_cons. destruct (decide (resolve u = resolve u0)) as [Heq|Hne].
  - rewrite Heq. unfold installed_entry. rewrite Heq.
    destruct ph as [|r|r|]; try discriminate Hs1; simpl in Hok.
    + destruct Hok as (-> & -> & ->). apply lookup_insert_eq.
    + rewrite cache_of_notin by done. unfold fetch_fails, put_refused in Hok.
      destruct (net w (resolve u0)) as [r| |]; try done.
      by destruct (ok r), (put_accepts r).
  - assert (Hin' : In u us).
    { destruct Hin as [->|Hin]; [done|done]. }
    destruct ph as [|r|r|]; try discriminate Hs1.
    + rewrite lookup_insert_ne by done. by apply IH.
    + by apply IH.
Qed.

(** X1.  Once an install run is over, the new cache holds, under the key of
    each URL of the manifest, the response the network gave for it if it
    was ok and the cache accepted it, and nothing if the fetch failed or
    the cache refused the response (status 206, or a Vary header that is
    a star); it holds no other entry. *)
Theorem install_stores_fetched_responses (s0 : state) (sched : list nat) :
  installPromise s0 = None → tasks s0 = [] →
  caches (env s0) !! CACHE_NAME = None →
  (2 + 2 * length URLS_TO_CACHE ≤ length sched)%nat →
  let s := (exec sched (on_install s0).1).1 in
  (∀ u, In u URLS_TO_CACHE →
        lookup_cached (env s) (resolve u) = installed_entry (env s0) u) ∧
  (∀ k, k ∉ resolve <$> URLS_TO_CACHE → lookup_cached (env s) k = None).
Proof.
  intros Hp Ht Hnew Hlen s.
  destruct (install_final s0 sched Hp Ht Hnew Hlen) as (phs & HF & Hs & Hst).
  unfold s. rewrite Hst. unfold lookup_cached, with_cache. cbn [env caches ist].
  rewrite lookup_insert_eq. cbn [mbind option_bind]. split.
  - intros u Hu. by apply cache_of_lookup; [apply manifest_keys_NoDup|..].
  - intros k Hk. by apply cache_of_notin.
Qed.

(** X2.  At every point of an install run every cache other than the new one
    is as it was, and so are the clients and the control over them: the
    previous version stays servable.  Once the run is over skipWaiting
    has taken effect. *)
Theorem install_leaves_other_caches (s0 : state) (sched : list nat) :
  installPromise s0 = None → tasks s0 = [] →
  caches (env s0) !! CACHE_NAME = None →
  let s := (exec sched (on_install s0).1).1 in
  (∀ n, n ≠ CACHE_NAME → caches (env s) !! n = caches (env s0) !! n) ∧
  clients (env s) = clients (env s0) ∧
  controlling (env s) = controlling (env s0) ∧
  ((2 + 2 * length URLS_TO_CACHE ≤ length sched)%nat → skipped_waiting (env s) = true).
Proof.
  intros Hp Ht Hnew s.
  destruct (install_trace_digest s0 sched Hp Ht Hnew) as (a & Hrep & Hcost & _).
  fold s in Hrep. split; [|split; [|split]].
  - intros n Hn.
    destruct a as [|phs|phs|phs]; unfold irep in Hrep;
      [rewrite Hrep|destruct Hrep as (_ & _ & ->)..]; cbn [env caches ist]; try done;
      unfold with_cache; by rewrite lookup_insert_ne.
  - destruct a as [|phs|phs|phs]; unfold irep in Hrep;
      [rewrite Hrep|destruct Hrep as (_ & _ & ->)..]; done.
  - destruct a as [|phs|phs|phs]; unfold irep in Hrep;
      [rewrite Hrep|destruct Hrep as (_ & _ & ->)..]; done.
  - intros Hlen. destruct (irep_done_only s0 a _ Hrep) as [phs ->]; [simpl in *; lia|].
    by destruct Hrep as (_ & _ & ->).
Qed.

(** ** Activation: the notification, and the worker afterwards *)

Lemma silent_no_post tr : silent tr → List.filter is_post tr = [].
Proof.
  induction tr as [|e tr IH]; intros Hs; [done|]. cbn [List.filter].
  assert (Htr : silent tr). { intros c m Hin. apply (Hs c m). by right. }
  destruct e as [o|o|a|t|t|t o]; cbn [is_post]; try by apply IH.
  destruct a; try by apply IH. exfalso. eapply Hs. by left.
Qed.

Lemma filter_post_notices cs :
  List.filter is_post (activation_notice <$> cs) = activation_notice <$> cs.
Proof. induction cs as [|c cs IH]; [done|]. cbn. by rewrite IH. Qed.

Lemma activation_final s0 sched :
  tasks s0 = [] →
  (3 + size (caches (env s0)) ≤ length sched)%nat →
  ∃ dphs pre,
    silent pre ∧
    (on_activate s0).2 ++ (exec sched (on_activate s0).1).2 =
      pre ++ EvSettle ClientsMatchAll :: (activation_notice <$> clients (env s0)) ++
        [EvAct (Log (LogNotified (length (clients (env s0)))));
         EvDone 0 (Fulfilled VUndefined)] ∧
    (∀ k, del_caches (stored_names s0) dphs (caches (env s0)) !! k =
          if superseded k then None else caches (env s0) !! k) ∧
    (exec sched (on_activate s0).1).1 =
      ast s0 (del_caches (stored_names s0) dphs (caches (env s0))) true true fulfilled.
Proof.
  intros Ht Hlen. destruct (activate_trace s0 sched Ht) as (a & Hrep & Hcost).
  destruct (arep_done_only s0 a _ _ Hrep) as [dphs ->]; [lia|].
  destruct Hrep as ((pre & Hsil & _ & _ & Htr) & HF & Hs & Hst).
  exists dphs, pre. split; [done|]. split; [done|]. split; [|done].
  intros k. by apply activation_final_lookup.
Qed.

(** X3.  Once an activation run is over, under every schedule: the messages
    posted during the run are exactly one SW_ACTIVATED message for each
    connected client, in the order of clients.matchAll(); the number of
    clients is logged; the worker is marked installed and controls the
    clients. *)
Theorem activation_notifies_each_client_once (s0 : state) (sched : list nat) :
  tasks s0 = [] →
  (3 + size (caches (env s0)) ≤ length sched)%nat →
  let trace := (on_activate s0).2 ++ (exec sched (on_activate s0).1).2 in
  let s := (exec sched (on_activate s0).1).1 in
  List.filter is_post trace =
    (λ c, EvAct (PostMessage c (SW_ACTIVATED CACHE_NAME CACHE_VERSION))) <$> clients (env s0) ∧
  In (EvAct (Log (LogNotified (length (clients (env s0)))))) trace ∧
  isInstalled s = true ∧
  controlling (env s) = true.
Proof.
  intros Ht Hlen trace s.
  destruct (activation_final s0 sched Ht Hlen) as (dphs & pre & Hsil & Htr & _ & Hst).
  fold trace in Htr. fold s in Hst. rewrite Htr, Hst. split; [|split; [|done]].
  - rewrite List.filter_app, silent_no_post by done. cbn [List.filter is_post app].
    rewrite List.filter_app, filter_post_notices. cbn. by rewrite app_nil_r.
  - apply in_or_app. right. right. apply in_or_app. right. by left.
Qed.

(** X4.  Install and then activation in one run of the worker script, each
    run to its end under whatever schedule: the storage holds exactly one
    cache of the application, the current one, with the responses the
    install fetched and the cache accepted; the superseded caches are
    gone and the caches of other applications are as they were before
    the install. *)
Theorem install_then_activate_one_version (s0 : state) (sched1 sched2 : list nat) :
  installPromise s0 = None → tasks s0 = [] →
  caches (env s0) !! CACHE_NAME = None →
  (2 + 2 * length URLS_TO_CACHE ≤ length sched1)%nat →
  (4 + size (caches (env s0)) ≤ length sched2)%nat →
  let installed := (exec sched1 (on_install s0).1).1 in
  let s := (exec sched2 (on_activate installed).1).1 in
  filter (λ n, startsWith n CACHE_BASE_NAME = true) (elements (dom (caches (env s))))
    = [CACHE_NAME] ∧
  (∀ u, In u URLS_TO_CACHE →
        lookup_cached (env s) (resolve u) = installed_entry (env s0) u) ∧
  (∀ n, startsWith n CACHE_BASE_NAME = false →
        caches (env s) !! n = caches (env s0) !! n) ∧
  isInstalled s = true ∧ controlling (env s) = true ∧ skipped_waiting (env s) = true.
Proof.
  intros Hp Ht Hnew Hlen1 Hlen2 installed s.
  destruct (install_final s0 sched1 Hp Ht Hnew Hlen1) as (phs & HF & Hs & Hst).
  fold installed in Hst.
  set (s1 := idle_part installed).
  assert (Hb : installed = behind [RDone (Fulfilled VUndefined)] s1).
  { unfold s1. by rewrite Hst. }
  assert (Hsize : size (caches (env s1)) = S (size (caches (env s0)))).
  { unfold s1. rewrite Hst. cbn [idle_part set_tasks env caches ist]. unfold with_cache.
    by rewrite map_size_insert_None. }
  destruct (activation_final s1 sched2 eq_refl) as (dphs & pre & _ & _ & Hlook & Hfin).
  { rewrite Hsize. lia. }
  assert (Hcaches : ∀ k, caches (env s) !! k =
                         if superseded k then None else with_cache s0 phs !! k).
  { intros k. unfold s. rewrite Hb, on_activate_behind. cbn [fst].
    rewrite exec_behind by done. cbn [fst]. rewrite Hfin.
    cbn [behind set_tasks env caches ast]. rewrite Hlook. unfold s1. by rewrite Hst. }
  assert (Hflags : isInstalled s = true ∧ controlling (env s) = true ∧
                   skipped_waiting (env s) = true).
  { unfold s. rewrite Hb, on_activate_behind. cbn [fst].
    rewrite exec_behind by done. cbn [fst]. rewrite Hfin. unfold s1. by rewrite Hst. }
  split; [|split; [|split; [|done]]].
  - apply singleton_of_NoDup.
    + apply NoDup_filter, NoDup_elements.
    + intros n. rewrite list_elem_of_filter, elem_of_elements, elem_of_dom. split.
      * intros [Hn Hsome]. destruct (decide (n = CACHE_NAME)) as [|Hne]; [done|].
        rewrite Hcaches in Hsome. unfold superseded in Hsome. rewrite Hn in Hsome.
        apply String.eqb_neq in Hne. rewrite Hne in Hsome. by destruct Hsome.
      * intros ->. split; [apply current_cache_has_base_name|].
        rewrite Hcaches, current_cache_not_superseded. unfold with_cache.
        by rewrite lookup_insert_eq.
  - intros u Hu. unfold lookup_cached.
    rewrite Hcaches, current_cache_not_superseded. unfold with_cache.
    rewrite lookup_insert_eq. cbn [mbind option_bind].
    by apply cache_of_lookup; [apply manifest_keys_NoDup|..].
  - intros n Hn. rewrite Hcaches. unfold superseded. rewrite Hn. cbn [andb].
    unfold with_cache. rewrite lookup_insert_ne; [done|].
    intros <-. by rewrite current_cache_has_base_name in Hn.
Qed.

(** ** The router: every request gets a response *)

Lemma first_cached_None w keys :
  first_cached w keys = None → ∀ k, In k keys → lookup_cached w k = None.
Proof.
  induction keys as [|k0 keys IH]; intros H k Hin; [done|].
  cbn [first_cached foldr] in H. destruct (lookup_cached w k0) eqn:Hk0; [done|].
  destruct Hin as [<-|Hin]; [done|]. by apply IH.
Qed.

Lemma take_drop_length {A} (l : list A) k :
  (k ≤ length l)%nat → ∃ l1 l2, l = l1 ++ l2 ∧ length l1 = k.
Proof.
  intros H. exists (take k l), (drop k l). split; [by rewrite take_drop|].
  rewrite length_take. lia.
Qed.

Ltac settled_for_good := apply exec_keeps_done; reflexivity.

Ltac act_out :=
  cbn [start catch_ then_ do_act set_env set_tasks env tasks insert list_insert
       lastBackgroundUpdate now isInstalled installPromise fst snd app done_event
       exactMatch serveOrFetch updateInBackground backgroundRefresh fetch_ put_ requestFailed
       negb].

Ltac limiter s0 :=
  destruct (lastBackgroundUpdate s0) as [?l|]; act_out;
  [match goal with |- context [(?l =? 0)%Z] => destruct (l =? 0)%Z end; act_out;
   [|match goal with |- context [(?a <? 30000)%Z] => destruct (a <? 30000)%Z end; act_out]|].

Lemma handleRequest_miss_answers s0 request sched :
  tasks s0 = [] →
  (∀ k, In k (lookup_keys request) → lookup_cached (env s0) k = None) →
  (3 + length (lookup_keys request) ≤ length sched)%nat →
  tasks (exec sched (spawn_task (handleRequest request) s0).1.2).1 !! 0 =
  Some (RDone (Fulfilled (VResponse
    match net (env s0) (url request) with
    | NetOk r => if ok r then r else fallback_response request
    | NetFail | NetTimeout => fallback_response request
    end))).
Proof.
  intros Ht Hmiss Hlen.
  destruct (take_drop_length sched (S (length (lookup_keys request))))
    as (l1 & l2 & -> & Hl1); [lia|].
  rewrite length_app, Hl1 in Hlen.
  rewrite exec_app.
  pose proof (lookup_phase_miss request s0 l1 Ht Hmiss Hl1) as Hphase.
  destruct (exec l1 _) as [s1 e1]. cbn [fst] in Hphase. subst s1.
  destruct (network_fails (env s0) request) eqn:Hf.
  - destruct l2 as [|n rest]; [cbn [length] in Hlen; lia|].
    destruct (exec (n :: rest) _) as [s2 e2] eqn:Hrun. cbn [fst].
    assert (Hs2 : s2 = (exec (n :: rest)
              (set_tasks (set_env s0 (open_cache (env s0))) [awaitingNetwork request])).1)
      by (by rewrite Hrun).
    rewrite Hs2, exec_cons. cbn [fst].
    destruct (network_failed_turn n s0 (open_cache (env s0)) request) as [pre ->].
    { unfold network_fails. by rewrite net_open_cache. }
    cbn [fst]. apply exec_keeps_done. cbn [tasks set_tasks lookup list_lookup].
    unfold network_fails in Hf. unfold fallback_response.
    destruct (net (env s0) (url request)) as [r| |]; try done.
    by destruct (ok r).
  - unfold network_fails in Hf.
    destruct (net (env s0) (url request)) as [r| |] eqn:Hnet; try done.
    apply negb_false_iff in Hf. rewrite Hf.
    destruct l2 as [|n1 [|n2 rest]]; [cbn [length] in Hlen; lia..|].
    destruct (exec (n1 :: n2 :: rest) _) as [s2 e2] eqn:Hrun. cbn [fst].
    assert (Hs2 : s2 = (exec (n1 :: n2 :: rest)
              (set_tasks (set_env s0 (open_cache (env s0))) [awaitingNetwork request])).1)
      by (by rewrite Hrun).
    rewrite Hs2. unfold awaitingNetwork. turn. rewrite Hnet.
    cbn [fetch_reply networkAnswered]. calm. rewrite Hf. calm. turn.
    settled_for_good.
Qed.

Lemma handleRequest_answers s0 request sched :
  tasks s0 = [] →
  (3 + length (lookup_keys request) ≤ length sched)%nat →
  tasks (exec sched (spawn_task (handleRequest request) s0).1.2).1 !! 0 =
  Some (RDone (Fulfilled (VResponse (answer (env s0) request)))).
Proof.
  intros Ht Hlen. unfold answer.
  destruct (first_cached (env s0) (lookup_keys request)) as [r|] eqn:Hfirst.
  2: { apply handleRequest_miss_answers; [done| |done]. by apply first_cached_None. }
  unfold lookup_keys in *. unfold spawn_task.
  cbn [handleRequest getCachedResponse catch_ then_ start fst snd]. rewrite Ht.
  cbn [first_cached foldr] in Hfirst.
  destruct (isHTMLRequest request) eqn:Hhtml.
  - cbn [fmap list_fmap foldr length] in Hfirst, Hlen.
    destruct sched as [|n1 [|n2 [|n3 [|n4 [|n5 rest]]]]]; try (cbn [length] in Hlen; lia).
    turn. turn.
    destruct (lookup_cached (env s0) (url request)) as [r0|] eqn:H0.
    { injection Hfirst as ->. act_out. rewrite Hhtml. act_out. limiter s0; settled_for_good. }
    cbn [exactMatch]. rewrite Hhtml. cbn [matchAlternatives]. calm. turn.
    destruct (lookup_cached (env s0) (resolve "./")) as [r1|] eqn:H1.
    { injection Hfirst as ->. act_out. rewrite Hhtml. act_out. limiter s0; settled_for_good. }
    calm. turn.
    destruct (lookup_cached (env s0) (resolve "./index.html")) as [r2|] eqn:H2.
    { injection Hfirst as ->. act_out. rewrite Hhtml. act_out. limiter s0; settled_for_good. }
    calm. turn.
    destruct (lookup_cached (env s0) (resolve "/")) as [r3|] eqn:H3; [|done].
    injection Hfirst as ->. act_out. rewrite Hhtml. act_out. limiter s0; settled_for_good.
  - cbn [foldr length] in Hfirst, Hlen.
    destruct sched as [|n1 [|n2 rest]]; try (cbn [length] in Hlen; lia).
    turn. turn.
    destruct (lookup_cached (env s0) (url request)) as [r0|] eqn:H0; [|done].
    injection Hfirst as ->. act_out. rewrite Hhtml. act_out. settled_for_good.
Qed.

Lemma on_fetch_routed_behind request s0 :
  routed request →
  on_fetch request s0 =
  (Some (length (tasks s0)),
   behind (tasks s0) (spawn_task (handleRequest request) (idle_part s0)).1.2,
   renumber (length (tasks s0)) <$>
     [EvCall (CachesOpen CACHE_NAME); EvRespondWith 0]).
Proof.
  intros Hr. rewrite <- (behind_idle_part s0) at 1. rewrite on_fetch_behind.
  rewrite (on_fetch_routed_start request (idle_part s0)) by done.
  cbn [fst snd fmap option_fmap option_map]. by rewrite Nat.add_0_r.
Qed.

Lemma on_fetch_answers s0 request sched :
  pending s0 = 0 → routed request →
  (3 + length (lookup_keys request) ≤ length sched)%nat →
  (on_fetch request s0).1.1 = Some (length (tasks s0)) ∧
  tasks (exec sched (on_fetch request s0).1.2).1 !! length (tasks s0) =
  Some (RDone (Fulfilled (VResponse (answer (env s0) request)))).
Proof.
  intros Hidle Hr Hlen.
  rewrite on_fetch_routed_behind by done. cbn [fst snd].
  split; [done|]. rewrite exec_behind by done. cbn [fst].
  unfold behind. cbn [tasks set_tasks].
  rewrite lookup_app_r by lia. rewrite Nat.sub_diag.
  by apply (handleRequest_answers (idle_part s0)).
Qed.

(** X5.  Every request the fetch listener hands to handleRequest is answered
    with a response, never with a rejection, under every schedule and
    whatever the earlier events of the worker were (none of their
    operations being still pending): the entry of the first of the
    request's keys that is in the current cache -- its URL, then for a
    page request "./", "./index.html" and "/" in this order -- or else
    the response of the network if it is ok, or else the offline
    placeholder for a page request and the 500 response for any other. *)
Theorem routed_request_always_answered (s0 : state) (request : Request)
    (sched : list nat) :
  pending s0 = 0 → routed request →
  (3 + length (lookup_keys request) ≤ length sched)%nat →
  let answered := on_fetch request s0 in
  ∃ p, answered.1.1 = Some p ∧
       tasks (exec sched answered.1.2).1 !! p =
       Some (RDone (Fulfilled (VResponse (answer (env s0) request)))).
Proof.
  intros Hidle Hr Hlen answered. exists (length (tasks s0)).
  by apply on_fetch_answers.
Qed.

(** ** The background refresh *)

Lemma perform_matchAll w : perform ClientsMatchAll w = (clients w, w).
Proof. reflexivity. Qed.

Lemma clients_open_cache w : clients (open_cache w) = clients w.
Proof. unfold open_cache. simpl. by destruct (caches w !! CACHE_NAME). Qed.

Lemma lookup_cached_put_ne w k k' r :
  k ≠ k' → lookup_cached (put_cached w k r) k' = lookup_cached (open_cache w) k'.
Proof.
  intros Hne. destruct (put_accepts r) eqn:Ha.
  - unfold lookup_cached, put_cached, open_cache. simpl. rewrite Ha. simpl.
    rewrite lookup_insert_eq. simpl. rewrite lookup_insert_ne by done.
    destruct (caches w !! CACHE_NAME) eqn:E; simpl; [by rewrite E|].
    by rewrite lookup_insert_eq.
  - rewrite put_cached_refused by done. by rewrite lookup_cached_open.
Qed.

Lemma other_caches_open w n : n ≠ CACHE_NAME → caches (open_cache w) !! n = caches w !! n.
Proof.
  intros Hne. unfold open_cache. simpl. destruct (caches w !! CACHE_NAME); [done|].
  simpl. by rewrite lookup_insert_ne.
Qed.

Lemma other_caches_put w k r n :
  n ≠ CACHE_NAME → caches (put_cached w k r) !! n = caches w !! n.
Proof.
  intros Hne. unfold put_cached. simpl. destruct (put_accepts r); [|done].
  simpl. by rewrite lookup_insert_ne.
Qed.

Lemma start_notifyUpdate u cs h s :
  start (catch_ (notifyUpdate u cs (Ret VUndefined)) h) s =
  (RDone (Fulfilled VUndefined), s, update_notice u <$> cs).
Proof.
  induction cs as [|c cs IH]; [done|].
  cbn [notifyUpdate foldr catch_ start do_act].
  change (foldr _ ?k cs) with (notifyUpdate u cs k).
  by rewrite IH.
Qed.

Lemma filter_post_updates u cs :
  List.filter is_post (update_notice u <$> cs) = update_notice u <$> cs.
Proof. induction cs as [|c cs IH]; [done|]. cbn. by rewrite IH. Qed.

Lemma start_backgroundRefresh request s :
  start (backgroundRefresh request) s =
  (refreshing request, s, [EvCall (Fetch (url request) FetchNoCache)]).
Proof. reflexivity. Qed.

Ltac turn2 :=
  rewrite exec_cons;
  erewrite step_wait_second by reflexivity;
  rewrite ?perform_open, ?perform_match, ?perform_put, ?perform_fetch, ?perform_matchAll;
  calm.

(** The run of the promise chain of a background refresh, next to the
    settled task of the request that started it. *)
Lemma refresh_run request s o sched :
  (5 ≤ length sched)%nat →
  let run := exec sched (set_tasks s [RDone o; refreshing request]) in
  tasks run.1 = [RDone o; RDone (Fulfilled VUndefined)] ∧
  (∀ k, lookup_cached (env run.1) k =
        match refreshed (env s) request with
        | Some new =>
            if decide (url request = k) then after_put (env s) k new
            else lookup_cached (env s) k
        | None => lookup_cached (env s) k
        end) ∧
  (∀ n, n ≠ CACHE_NAME → caches (env run.1) !! n = caches (env s) !! n) ∧
  List.filter is_post run.2 =
    match refreshed (env s) request with
    | Some new =>
        if put_accepts new then update_notice (url request) <$> clients (env s) else []
    | None => []
    end.
Proof.
  intros Hlen. destruct sched as [|n1 [|n2 [|n3 [|n4 [|n5 rest]]]]]; try (cbn [length] in Hlen; lia).
  cbv zeta. unfold refreshed, live_update, refreshing.
  cbn [backgroundRefresh fetch_ catch_ then_].
  turn2. destruct (net (env s) (url request)) as [r| |] eqn:Hnet; cbn [fetch_reply]; calm.
  2,3: rewrite exec_idle by reflexivity; cbn [fst snd tasks env set_tasks set_env app];
       repeat split; done.
  destruct (ok r) eqn:Hok; calm.
  2: { rewrite exec_idle by reflexivity. cbn [fst snd tasks env set_tasks set_env app].
       repeat split; done. }
  turn2. turn2.
  destruct (lookup_cached (env s) (url request)) as [cached|] eqn:Hc; calm.
  2: { rewrite exec_idle by reflexivity. cbn [fst snd tasks env set_tasks set_env app].
       split; [done|]. split; [intros k; by rewrite !lookup_cached_open|].
       split; [|done]. intros n Hn. by rewrite !other_caches_open. }
  destruct (String.eqb (body r) (body cached)) eqn:Hb; cbn [negb]; calm.
  { rewrite exec_idle by reflexivity. cbn [fst snd tasks env set_tasks set_env app].
    split; [done|]. split; [intros k; by rewrite !lookup_cached_open|].
    split; [|done]. intros n Hn. by rewrite !other_caches_open. }
  unfold after_put.
  destruct (put_accepts (withHeadersOf r (body r))) eqn:Ha.
  - turn2. rewrite Ha. calm. turn2. rewrite start_notifyUpdate.
    rewrite exec_idle by reflexivity. cbn [fst snd tasks env set_tasks set_env app].
    split; [done|]. split; [|split].
    + intros k. destruct (decide (url request = k)) as [<-|Hne].
      * by apply lookup_cached_put.
      * rewrite lookup_cached_put_ne by done. by rewrite !lookup_cached_open.
    + intros n Hn. rewrite other_caches_put by done. by rewrite !other_caches_open.
    + rewrite app_nil_r. cbn [List.filter is_post].
      unfold put_cached. cbn [perform snd clients set_caches]. rewrite Ha.
      cbn [snd clients set_caches].
      rewrite !clients_open_cache, List.filter_app, filter_post_updates.
      cbn. by rewrite app_nil_r.
  - turn2. rewrite Ha. calm.
    rewrite exec_idle by reflexivity. cbn [fst snd tasks env set_tasks set_env app].
    rewrite put_cached_refused by done.
    split; [done|]. split; [|split; [|done]].
    + intros k. rewrite !lookup_cached_open. by destruct (decide (url request = k)) as [<-|Hne].
    + intros n Hn. by rewrite !other_caches_open.
Qed.

Ltac found := cbn [In app fst snd]; repeat (first [by left | right]).

Ltac limiter_open s0 H :=
  unfold rate_limited in H;
  destruct (lastBackgroundUpdate s0) as [?l|]; act_out;
  [match goal with |- context [(?l =? 0)%Z] => destruct (l =? 0)%Z end; act_out;
   [|match goal with |- context [(?a <? 30000)%Z] => destruct (a <? 30000)%Z end; act_out;
     [discriminate H|]]|].

(** A page request that finds an entry while the limiter is open: the
    entry is the answer, and the refresh is left behind as a task. *)
Lemma page_hit_spawns_refresh s0 request r :
  tasks s0 = [] → isHTMLRequest request = true →
  first_cached (env s0) (lookup_keys request) = Some r →
  rate_limited (lastBackgroundUpdate s0) (now s0) = false →
  ∃ m, (2 ≤ m ≤ 5)%nat ∧
    (lookup_cached (env s0) (url request) = Some r → m = 2) ∧
    ∀ sched, length sched = m →
      let run := exec sched (spawn_task (handleRequest request) s0).1.2 in
      run.1 = mkState (open_cache (env s0)) (isInstalled s0) (installPromise s0)
                (Some (now s0)) (now s0)
                [RDone (Fulfilled (VResponse r)); refreshing request] ∧
      List.filter is_post run.2 = [] ∧
      In (EvCall (Fetch (url request) FetchNoCache)) run.2.
Proof.
  intros Ht Hhtml Hfirst Hopen. unfold lookup_keys in Hfirst. rewrite Hhtml in Hfirst.
  cbn [first_cached foldr fmap list_fmap] in Hfirst.
  unfold spawn_task. cbn [handleRequest getCachedResponse catch_ then_ start fst snd].
  rewrite Ht. cbn [app].
  destruct (lookup_cached (env s0) (url request)) as [r0|] eqn:H0.
  { injection Hfirst as ->. exists 2. split; [lia|]. split; [done|].
    intros sched Hlen. destruct sched as [|n1 [|n2 [|]]]; try discriminate Hlen.
    cbv zeta. turn. turn. rewrite H0. act_out. rewrite Hhtml. act_out.
    limiter_open s0 Hopen; rewrite exec_nil; (split; [done|split; [done|found]]). }
  destruct (lookup_cached (env s0) (resolve "./")) as [r1|] eqn:H1.
  { injection Hfirst as ->. exists 3. split; [lia|]. split; [done|].
    intros sched Hlen. destruct sched as [|n1 [|n2 [|n3 [|]]]]; try discriminate Hlen.
    cbv zeta. turn. turn. rewrite H0. cbn [exactMatch]. rewrite Hhtml.
    cbn [matchAlternatives]. calm. turn. rewrite H1. act_out. rewrite Hhtml. act_out.
    limiter_open s0 Hopen; rewrite exec_nil; (split; [done|split; [done|found]]). }
  destruct (lookup_cached (env s0) (resolve "./index.html")) as [r2|] eqn:H2.
  { injection Hfirst as ->. exists 4. split; [lia|]. split; [done|].
    intros sched Hlen. destruct sched as [|n1 [|n2 [|n3 [|n4 [|]]]]]; try discriminate Hlen.
    cbv zeta. turn. turn. rewrite H0. cbn [exactMatch]. rewrite Hhtml.
    cbn [matchAlternatives]. calm. turn. rewrite H1. calm. turn. rewrite H2.
    act_out. rewrite Hhtml. act_out.
    limiter_open s0 Hopen; rewrite exec_nil; (split; [done|split; [done|found]]). }
  destruct (lookup_cached (env s0) (resolve "/")) as [r3|] eqn:H3; [|done].
  injection Hfirst as ->. exists 5. split; [lia|]. split; [done|].
  intros sched Hlen. destruct sched as [|n1 [|n2 [|n3 [|n4 [|n5 [|]]]]]]; try discriminate Hlen.
  cbv zeta. turn. turn. rewrite H0. cbn [exactMatch]. rewrite Hhtml.
  cbn [matchAlternatives]. calm. turn. rewrite H1. calm. turn. rewrite H2. calm.
  turn. rewrite H3. act_out. rewrite Hhtml. act_out.
  limiter_open s0 Hopen; rewrite exec_nil; (split; [done|split; [done|found]]).
Qed.

Lemma refreshed_open_cache w request :
  refreshed (open_cache w) request = refreshed w request.
Proof. unfold refreshed, live_update. by rewrite net_open_cache, lookup_cached_open. Qed.

Lemma answer_cached w request r :
  lookup_cached w (url request) = Some r → answer w request = r.
Proof. intros H. unfold answer, lookup_keys. cbn [first_cached foldr]. by rewrite H. Qed.

(** X6.  A page request whose URL has an entry, the limiter being open and
    the live content other than the stored one: the stored response is
    the answer; the refresh left behind then replaces the entry with the
    live text under the live headers, touches no other entry, and posts
    UPDATE_AVAILABLE with the URL to every connected client; the next
    request for the URL is answered with the new entry.  When the live
    response has a Vary header that is a star the cache refuses that
    entry (it is built from the live headers): the refresh then ends in
    its catch callback, the old entry stays, nobody is notified, and the
    next request is answered with the old entry. *)
Theorem cached_page_refreshed_in_background (s0 : state) (request : Request)
    (cached live : Response) (sched : list nat) :
  tasks s0 = [] → routed request → isHTMLRequest request = true →
  lookup_cached (env s0) (url request) = Some cached →
  rate_limited (lastBackgroundUpdate s0) (now s0) = false →
  net (env s0) (url request) = NetOk live → ok live = true →
  body live ≠ body cached →
  (7 ≤ length sched)%nat →
  let run := exec sched (on_fetch request s0).1.2 in
  let stored :=
    if vary_star live then cached
    else mkResponse 200 (content_type live) (body live) false in
  tasks run.1 = [RDone (Fulfilled (VResponse cached)); RDone (Fulfilled VUndefined)] ∧
  lookup_cached (env run.1) (url request) = Some stored ∧
  (∀ k, k ≠ url request → lookup_cached (env run.1) k = lookup_cached (env s0) k) ∧
  List.filter is_post run.2 =
    (if vary_star live then []
     else (λ c, EvAct (PostMessage c (UPDATE_AVAILABLE (url request)))) <$> clients (env s0)) ∧
  answer (env run.1) request = stored.
Proof.
  intros Ht Hr Hhtml Hhit Hopen Hnet Hok Hdiff Hlen run stored.
  assert (Hfirst : first_cached (env s0) (lookup_keys request) = Some cached).
  { unfold lookup_keys. cbn [first_cached foldr]. by rewrite Hhit. }
  destruct (page_hit_spawns_refresh s0 request cached Ht Hhtml Hfirst Hopen)
    as (m & _ & Hm & Hrun).
  rewrite (Hm Hhit) in Hrun. clear Hm.
  destruct (take_drop_length sched 2) as (l1 & l2 & Hsched & Hl1); [lia|].
  assert (Hl2 : (5 ≤ length l2)%nat).
  { rewrite Hsched, length_app, Hl1 in Hlen. lia. }
  destruct (Hrun l1 Hl1) as (Hst & Hposts & _).
  unfold run. rewrite on_fetch_routed_start by done. cbn [fst snd].
  rewrite Hsched, exec_app.
  destruct (exec l1 _) as [s1 e1]. cbn [fst snd] in Hst, Hposts. subst s1.
  pose proof (refresh_run request
                (mkState (open_cache (env s0)) (isInstalled s0) (installPromise s0)
                   (Some (now s0)) (now s0) [])
                (Fulfilled (VResponse cached)) l2 Hl2) as Hrefresh.
  cbv zeta in Hrefresh. cbn [set_tasks env] in Hrefresh.
  destruct (exec l2 _) as [s2 e2]. cbn [fst snd] in *.
  destruct Hrefresh as (Htasks & Hlook & _ & Hp2).
  rewrite refreshed_open_cache in Hlook, Hp2.
  assert (Href : refreshed (env s0) request = Some (withHeadersOf live (body live))).
  { unfold refreshed, live_update. rewrite Hnet, Hok, Hhit.
    apply String.eqb_neq in Hdiff. by rewrite Hdiff. }
  rewrite Href in Hlook, Hp2.
  assert (Hacc : put_accepts (withHeadersOf live (body live)) = negb (vary_star live)).
  { reflexivity. }
  rewrite Hacc in Hp2.
  assert (Hnew : lookup_cached (env s2) (url request) = Some stored).
  { rewrite Hlook. rewrite decide_True by done. unfold after_put, stored.
    rewrite Hacc, lookup_cached_open, Hhit. unfold withHeadersOf.
    by destruct (vary_star live). }
  split; [done|]. split; [done|]. split; [|split].
  - intros k Hk. rewrite Hlook. rewrite decide_False by done.
    apply lookup_cached_open.
  - rewrite List.filter_app, Hposts, Hp2. rewrite clients_open_cache.
    by destruct (vary_star live).
  - by apply answer_cached.
Qed.

(** X7.  The same request when the live content is the stored one, or the
    network fails or answers with a status that is not ok: the stored
    response is the answer, the refresh left behind ends fulfilled, no
    entry of the cache changes and nobody is notified. *)
Theorem refresh_without_change_is_silent (s0 : state) (request : Request)
    (cached : Response) (sched : list nat) :
  tasks s0 = [] → routed request → isHTMLRequest request = true →
  lookup_cached (env s0) (url request) = Some cached →
  rate_limited (lastBackgroundUpdate s0) (now s0) = false →
  (∀ live, net (env s0) (url request) = NetOk live → ok live = true →
           body live = body cached) →
  (7 ≤ length sched)%nat →
  let run := exec sched (on_fetch request s0).1.2 in
  tasks run.1 = [RDone (Fulfilled (VResponse cached)); RDone (Fulfilled VUndefined)] ∧
  (∀ k, lookup_cached (env run.1) k = lookup_cached (env s0) k) ∧
  List.filter is_post run.2 = [].
Proof.
  intros Ht Hr Hhtml Hhit Hopen Hsame Hlen run.
  assert (Hfirst : first_cached (env s0) (lookup_keys request) = Some cached).
  { unfold lookup_keys. cbn [first_cached foldr]. by rewrite Hhit. }
  destruct (page_hit_spawns_refresh s0 request cached Ht Hhtml Hfirst Hopen)
    as (m & _ & Hm & Hrun).
  rewrite (Hm Hhit) in Hrun. clear Hm.
  destruct (take_drop_length sched 2) as (l1 & l2 & Hsched & Hl1); [lia|].
  assert (Hl2 : (5 ≤ length l2)%nat).
  { rewrite Hsched, length_app, Hl1 in Hlen. lia. }
  destruct (Hrun l1 Hl1) as (Hst & Hposts & _).
  unfold run. rewrite on_fetch_routed_start by done. cbn [fst snd].
  rewrite Hsched, exec_app.
  destruct (exec l1 _) as [s1 e1]. cbn [fst snd] in Hst, Hposts. subst s1.
  pose proof (refresh_run request
                (mkState (open_cache (env s0)) (isInstalled s0) (installPromise s0)
                   (Some (now s0)) (now s0) [])
                (Fulfilled (VResponse cached)) l2 Hl2) as Hrefresh.
  cbv zeta in Hrefresh. cbn [set_tasks env] in Hrefresh.
  destruct (exec l2 _) as [s2 e2]. cbn [fst snd] in *.
  destruct Hrefresh as (Htasks & Hlook & _ & Hp2).
  rewrite refreshed_open_cache in Hlook, Hp2.
  assert (Href : refreshed (env s0) request = None).
  { unfold refreshed, live_update. destruct (net (env s0) (url request)) as [live| |]; try done.
    destruct (ok live) eqn:Hok; [|done]. rewrite Hhit.
    rewrite (Hsame live eq_refl Hok). by rewrite String.eqb_refl. }
  rewrite Href in Hlook, Hp2.
  split; [done|]. split.
  - intros k. rewrite Hlook. apply lookup_cached_open.
  - by rewrite List.filter_app, Hposts, Hp2.
Qed.

(** X8.  A page request whose own URL has no entry and which is answered
    with the entry of a fallback key, the limiter being open: the
    refresh left behind fetches the URL of the request, and whatever the
    network answers it stores nothing and notifies nobody. *)
Theorem fallback_page_is_never_refreshed (s0 : state) (request : Request)
    (r : Response) (sched : list nat) :
  tasks s0 = [] → routed request → isHTMLRequest request = true →
  lookup_cached (env s0) (url request) = None →
  first_cached (env s0) (lookup_keys request) = Some r →
  rate_limited (lastBackgroundUpdate s0) (now s0) = false →
  (10 ≤ length sched)%nat →
  let run := exec sched (on_fetch request s0).1.2 in
  tasks run.1 = [RDone (Fulfilled (VResponse r)); RDone (Fulfilled VUndefined)] ∧
  In (EvCall (Fetch (url request) FetchNoCache)) run.2 ∧
  (∀ k, lookup_cached (env run.1) k = lookup_cached (env s0) k) ∧
  List.filter is_post run.2 = [].
Proof.
  intros Ht Hr Hhtml Hmiss Hfirst Hopen Hlen run.
  destruct (page_hit_spawns_refresh s0 request r Ht Hhtml Hfirst Hopen)
    as (m & Hm & _ & Hrun).
  destruct (take_drop_length sched m) as (l1 & l2 & Hsched & Hl1); [lia|].
  assert (Hl2 : (5 ≤ length l2)%nat).
  { rewrite Hsched, length_app, Hl1 in Hlen. lia. }
  destruct (Hrun l1 Hl1) as (Hst & Hposts & Hcall).
  unfold run. rewrite on_fetch_routed_start by done. cbn [fst snd].
  rewrite Hsched, exec_app.
  destruct (exec l1 _) as [s1 e1]. cbn [fst snd] in Hst, Hposts, Hcall. subst s1.
  pose proof (refresh_run request
                (mkState (open_cache (env s0)) (isInstalled s0) (installPromise s0)
                   (Some (now s0)) (now s0) [])
                (Fulfilled (VResponse r)) l2 Hl2) as Hrefresh.
  cbv zeta in Hrefresh. cbn [set_tasks env] in Hrefresh.
  destruct (exec l2 _) as [s2 e2]. cbn [fst snd] in *.
  destruct Hrefresh as (Htasks & Hlook & _ & Hp2).
  rewrite refreshed_open_cache in Hlook, Hp2.
  assert (Href : refreshed (env s0) request = None).
  { unfold refreshed, live_update. rewrite Hmiss.
    destruct (net (env s0) (url request)) as [live| |]; try done. by destruct (ok live). }
  rewrite Href in Hlook, Hp2.
  split; [done|]. split; [apply in_or_app; by left|]. split.
  - intros k. rewrite Hlook. apply lookup_cached_open.
  - by rewrite List.filter_app, Hposts, Hp2.
Qed.

(** ** The worker's own script *)

(** X9.  A same-origin GET request whose URL contains "sw.js" is answered
    with what the network answers, a failure included, whether or not the
    URL has an entry in a cache: the run consists of the fetch alone, so
    that no cache is read or written. *)
Theorem worker_script_answered_by_network (s0 : state) (request : Request) (n : nat) :
  pending s0 = 0 →
  method request = "GET" → startsWith (url request) origin = true →
  includes (url request) "sw.js" = true →
  let answered := on_fetch request s0 in
  let settled := step n answered.1.2 in
  let p := length (tasks s0) in
  answered.1.1 = Some p ∧
  tasks settled.1 !! p = Some (RDone (fetched (env s0) (url request))) ∧
  env settled.1 = env s0 ∧
  answered.2 ++ settled.2 =
    [EvCall (Fetch (url request) FetchPlain); EvRespondWith p;
     EvSettle (Fetch (url request) FetchPlain);
     EvDone p (fetched (env s0) (url request))].
Proof.
  intros Hidle Hm Ho Hw answered settled p.
  assert (Ha : answered =
            (Some p,
             behind (tasks s0)
               (set_tasks (idle_part s0)
                  [RWait (Fetch (url request) FetchPlain)
                     (λ x, match x with inl e => Throw e | inr r => Ret (VResponse r) end)]),
             [EvCall (Fetch (url request) FetchPlain); EvRespondWith p])).
  { unfold answered. rewrite <- (behind_idle_part s0) at 1. rewrite on_fetch_behind.
    rewrite (on_fetch_worker_script_start request (idle_part s0)) by done.
    cbn [fst snd fmap option_fmap option_map list_fmap renumber].
    unfold p. by rewrite Nat.add_0_r. }
  unfold settled. rewrite Ha. cbn [fst snd].
  rewrite step_behind by done. rewrite worker_script_turn.
  cbn [fst snd fmap list_fmap renumber app].
  unfold behind. cbn [tasks set_tasks env idle_part].
  rewrite lookup_app_r by (unfold p; lia). unfold p. rewrite Nat.sub_diag.
  by rewrite Nat.add_0_r.
Qed.

(** ** From the network into the cache, and from the cache to the next request *)

Lemma miss_then_stored s0 request r sched :
  tasks s0 = [] →
  (∀ k, In k (lookup_keys request) → lookup_cached (env s0) k = None) →
  net (env s0) (url request) = NetOk r → ok r = true →
  (4 + length (lookup_keys request) ≤ length sched)%nat →
  (exec sched (spawn_task (handleRequest request) s0).1.2).1 =
  set_tasks
    (set_env s0 (put_cached (open_cache (open_cache (env s0))) (url request) r))
    [RDone (Fulfilled (VResponse r)); RDone (put_outcome r)].
Proof.
  intros Ht Hmiss Hnet Hok Hlen.
  destruct (take_drop_length sched (S (length (lookup_keys request))))
    as (l1 & l2 & -> & Hl1); [lia|].
  rewrite length_app, Hl1 in Hlen. rewrite exec_app.
  pose proof (lookup_phase_miss request s0 l1 Ht Hmiss Hl1) as Hphase.
  destruct (exec l1 _) as [s1 e1]. cbn [fst] in Hphase. subst s1.
  destruct l2 as [|n1 [|n2 [|n3 rest]]]; [cbn [length] in Hlen; lia..|].
  destruct (exec (n1 :: n2 :: n3 :: rest) _) as [s2 e2] eqn:Hrun. cbn [fst].
  assert (Hs2 : s2 = (exec (n1 :: n2 :: n3 :: rest)
            (set_tasks (set_env s0 (open_cache (env s0))) [awaitingNetwork request])).1)
    by (by rewrite Hrun).
  rewrite Hs2. unfold awaitingNetwork. turn. rewrite Hnet.
  cbn [fetch_reply networkAnswered]. calm. rewrite Hok. calm. turn. turn2.
  unfold put_outcome. destruct (put_accepts r); calm; by rewrite exec_idle.
Qed.

(** X10.  A request that misses the cache and is answered by the network with
    a successful status and a response the cache accepts (its status is
    not 206 and its Vary header is not a star) leaves, once its put has
    settled, an entry that answers the same request from then on,
    whatever the network has become. *)
Theorem network_answer_is_served_from_cache_next (s0 : state) (request : Request)
    (r : Response) (net' : string → net_result) (sched1 sched2 : list nat) :
  tasks s0 = [] → routed request →
  (∀ k, In k (lookup_keys request) → lookup_cached (env s0) k = None) →
  net (env s0) (url request) = NetOk r → ok r = true → put_accepts r = true →
  (4 + length (lookup_keys request) ≤ length sched1)%nat →
  (3 + length (lookup_keys request) ≤ length sched2)%nat →
  let first := exec sched1 (on_fetch request s0).1.2 in
  let again := on_fetch request (with_net first.1 net') in
  tasks first.1 !! 0 = Some (RDone (Fulfilled (VResponse r))) ∧
  ∃ p, again.1.1 = Some p ∧
       tasks (exec sched2 again.1.2).1 !! p = Some (RDone (Fulfilled (VResponse r))).
Proof.
  intros Ht Hr Hmiss Hnet Hok Hacc Hlen1 Hlen2 first again.
  assert (Hfirst : first.1 =
            set_tasks
              (set_env s0 (put_cached (open_cache (open_cache (env s0))) (url request) r))
              [RDone (Fulfilled (VResponse r)); RDone (put_outcome r)]).
  { unfold first. rewrite on_fetch_routed_start by done. cbn [fst snd].
    by apply miss_then_stored. }
  split; [by rewrite Hfirst|].
  destruct (on_fetch_answers (with_net first.1 net') request sched2)
    as (Hp & Hdone); [by rewrite Hfirst|done|done|].
  exists (length (tasks (with_net first.1 net'))).
  split; [done|]. fold again in Hdone. rewrite Hdone.
  rewrite (answer_cached _ request r); [done|].
  rewrite Hfirst. unfold with_net. cbn [env set_env set_tasks].
  change (lookup_cached (mkWorld ?c _ _ _ _) ?k) with (c !! CACHE_NAME ≫= λ c0, c0 !! k).
  by apply lookup_cached_put.
Qed.

(** X11.  After an install run, a request for a resource of the manifest that
    the install fetched successfully and the cache accepted is answered
    with the stored response, whatever the network has become: the
    application works offline, as long as the worker script is not
    started anew (the name of the cache carries the time of its start). *)
Theorem installed_resource_served_offline (s0 : state) (u : string) (r : Response)
    (request : Request) (net' : string → net_result) (sched1 sched2 : list nat) :
  installPromise s0 = None → tasks s0 = [] →
  caches (env s0) !! CACHE_NAME = None →
  (2 + 2 * length URLS_TO_CACHE ≤ length sched1)%nat →
  In u URLS_TO_CACHE → installed_entry (env s0) u = Some r →
  routed request → url request = resolve u →
  (3 + length (lookup_keys request) ≤ length sched2)%nat →
  let installed := (exec sched1 (on_install s0).1).1 in
  let answered := on_fetch request (with_net installed net') in
  ∃ p, answered.1.1 = Some p ∧
       tasks (exec sched2 answered.1.2).1 !! p = Some (RDone (Fulfilled (VResponse r))).
Proof.
  intros Hp Ht Hnew Hlen1 Hu Hentry Hr Hurl Hlen2 installed answered.
  destruct (install_final s0 sched1 Hp Ht Hnew Hlen1) as (phs & HF & Hs & Hst).
  fold installed in Hst.
  destruct (on_fetch_answers (with_net installed net') request sched2)
    as (Hanswered & Hdone); [by rewrite Hst|done|done|].
  exists (length (tasks (with_net installed net'))).
  split; [done|]. fold answered in Hdone. rewrite Hdone.
  rewrite (answer_cached _ request r); [done|]. rewrite Hurl, <- Hentry.
  rewrite Hst. unfold with_net, lookup_cached, with_cache. cbn [env set_env caches ist].
  rewrite lookup_insert_eq. cbn [mbind option_bind].
  by apply cache_of_lookup; [apply manifest_keys_NoDup|..].
Qed.

(** ** The limiter of the background refresh *)

(** X12.  On a worker that has not refreshed yet the first invocation of the
    background refresh fetches; the second fetches exactly when 30
    seconds or more have passed since the first, or the first was stamped
    with a clock reading of 0 (which reads as "never"); and an invocation
    that was held back does not move the window: 30 seconds after the
    first refresh the next invocation fetches, however recent the one
    before it. *)
Theorem background_refresh_resumes (s : state) (r1 r2 r3 : Request) (t1 t2 t3 : Z) :
  lastBackgroundUpdate s = None →
  let first := start (updateInBackground r1 (Ret VUndefined)) (at_time s t1) in
  let second := start (updateInBackground r2 (Ret VUndefined)) (at_time first.1.2 t2) in
  let third := start (updateInBackground r3 (Ret VUndefined)) (at_time second.1.2 t3) in
  fetch_calls first.2 = 1 ∧
  fetch_calls second.2 = (if (t1 =? 0)%Z || (30000 <=? t2 - t1)%Z then 1 else 0) ∧
  (t1 ≠ 0%Z → (t2 - t1 < 30000)%Z → (30000 ≤ t3 - t1)%Z → fetch_calls third.2 = 1).
Proof.
  intros Hnever first second third.
  destruct (updateInBackground_decides r1 s t1) as [Hc1 Hs1]. fold first in Hc1, Hs1.
  destruct (updateInBackground_decides r2 first.1.2 t2) as [Hc2 Hs2].
  fold second in Hc2, Hs2.
  destruct (updateInBackground_decides r3 second.1.2 t3) as [Hc3 _]. fold third in Hc3.
  rewrite Hnever in Hc1, Hs1. cbn [rate_limited] in Hc1, Hs1.
  rewrite Hs1 in Hc2, Hs2. cbn [rate_limited] in Hc2, Hs2.
  split; [done|]. split.
  - rewrite Hc2. destruct (t1 =? 0)%Z; [done|]. cbn [negb andb orb].
    destruct (Z.ltb_spec (t2 - t1) 30000), (Z.leb_spec 30000 (t2 - t1)); try done; lia.
  - intros H1 H2 H3. rewrite Hc3, Hs2.
    apply Z.eqb_neq in H1. rewrite H1. cbn [negb andb].
    apply Z.ltb_lt in H2. rewrite H2. cbn [rate_limited]. rewrite H1. cbn [negb andb].
    destruct (Z.ltb_spec (t3 - t1) 30000); [lia|done].
Qed.

(** ** Install: every failure is logged *)

Lemma skipped_at_cons u us ph phs :
  skipped_at (u :: us) (ph :: phs) =
  match ph with PSkipped => u :: skipped_at us phs | _ => skipped_at us phs end.
Proof. by destruct ph. Qed.

Lemma skipped_at_insert_skipped us phs i u ph :
  us !! i = Some u → phs !! i = Some ph → ph ≠ PSkipped →
  skipped_at us (<[i := PSkipped]> phs) ≡ₚ skipped_at us phs ++ [u].
Proof.
  revert phs i. induction us as [|u' us IH]; intros [|ph0 phs] i Hu Hph Hne; try done.
  destruct i as [|i]; simpl in Hu, Hph.
  - inversion Hu; inversion Hph; subst.
    change (<[0 := PSkipped]> (ph :: phs)) with (PSkipped :: phs).
    rewrite !skipped_at_cons. destruct ph; try done;
      by rewrite <- Permutation_cons_append.
  - change (<[S i := PSkipped]> (ph0 :: phs)) with (ph0 :: <[i := PSkipped]> phs).
    rewrite !skipped_at_cons. specialize (IH _ _ Hu Hph Hne).
    destruct ph0; try done. by rewrite IH.
Qed.

Lemma skipped_at_insert_other us phs i ph ph' :
  phs !! i = Some ph → ph ≠ PSkipped → ph' ≠ PSkipped →
  skipped_at us (<[i := ph']> phs) = skipped_at us phs.
Proof.
  revert phs i. induction us as [|u' us IH]; intros [|ph0 phs] i Hph Hne Hne'; try done.
  destruct i as [|i]; simpl in Hph.
  - inversion Hph; subst.
    change (<[0 := ph']> (ph :: phs)) with (ph' :: phs). rewrite !skipped_at_cons.
    by destruct ph, ph'.
  - change (<[S i := ph']> (ph0 :: phs)) with (ph0 :: <[i := ph']> phs).
    rewrite !skipped_at_cons. by rewrite (IH _ _ Hph Hne Hne').
Qed.

Lemma skipped_at_fetching us n : skipped_at us (replicate n PFetch) = [].
Proof.
  revert n. induction us as [|u us IH]; intros [|n]; try done.
  cbn [replicate]. rewrite skipped_at_cons. apply IH.
Qed.

Lemma skipped_at_settled w us phs :
  Forall2 (phase_ok w) us phs → forallb settled phs = true →
  skipped_at us phs = List.filter (λ u, fetch_fails w u || put_refused w u) us.
Proof.
  induction 1 as [|u ph us phs Hok _ IH]; intros Hs; [done|].
  simpl in Hs. apply andb_prop in Hs as [Hs1 Hs2]. specialize (IH Hs2).
  rewrite skipped_at_cons. cbn [List.filter].
  destruct ph as [|r|r|]; try discriminate Hs1; simpl in Hok.
  - unfold fetch_fails, put_refused. destruct Hok as (-> & -> & ->). by cbn.
  - rewrite Hok. by rewrite IH.
Qed.

(** One turn of the event loop of an install run: the URLs that the
    turn warns about are those whose promise it settles as skipped. *)
Lemma install_step_warned s0 a s n :
  caches (env s0) !! CACHE_NAME = None →
  irep s0 a s → 0 < icost a →
  ∃ a', irep s0 a' (step n s).1 ∧ icost a' < icost a ∧
        skipped_at URLS_TO_CACHE (stage_phases a') ≡ₚ
        skipped_at URLS_TO_CACHE (stage_phases a) ++ omap warned (step n s).2.
Proof.
  intros Hnew Hrep Hcost. destruct a as [|phs|phs|phs]; unfold irep in Hrep.
  - subst s.
    destruct (step_single n (ist s0 (caches (env s0)) (isInstalled s0)
                (skipped_waiting (env s0)) opening) opening) as (m & _ & ->);
      [done|simpl; lia|].
    rewrite settle_opening by done.
    exists (IFetching (replicate (length URLS_TO_CACHE) PFetch)).
    split; [|split].
    + split; [repeat constructor|]. split; reflexivity.
    + simpl. lia.
    + reflexivity.
  - destruct Hrep as (HF & Hs & ->).
    assert (Hlen := Forall2_length _ _ _ HF).
    destruct (step_single n (ist s0 (with_cache s0 phs) (isInstalled s0)
                (skipped_waiting (env s0))
                (RAllSettled (zip_with child URLS_TO_CACHE phs) installing))
                (RAllSettled (zip_with child URLS_TO_CACHE phs) installing))
      as (m & Hm & ->); [done|by apply leaves_children_unsettled|].
    rewrite settle_RAllSettled.
    destruct (settle_list_lookup m (zip_with child URLS_TO_CACHE phs)
                (ist s0 (with_cache s0 phs) (isInstalled s0) (skipped_waiting (env s0))
                   (RAllSettled (zip_with child URLS_TO_CACHE phs) installing)))
      as (i & c & m' & Hi & Hm' & ->); [done|].
    rewrite lookup_zip_with in Hi.
    destruct (URLS_TO_CACHE !! i) as [u|] eqn:Hu; [|done].
    destruct (phs !! i) as [ph|] eqn:Hph; [|done].
    simpl in Hi. inversion Hi; subst c; clear Hi.
    rewrite leaves_child in Hm'.
    assert (Hi : i < length phs) by (by eapply lookup_lt_Some).
    cbn [stage_phases].
    destruct ph as [|r|r|]; simpl in Hm'; try lia; cbn [child].
    + destruct (fetch_fails (env s0) u) eqn:Hf.
      * destruct (settle_fetching_fail m' u
                    (ist s0 (with_cache s0 phs) (isInstalled s0) (skipped_waiting (env s0))
                       (RAllSettled (zip_with child URLS_TO_CACHE phs) installing)) Hf)
          as [e ->].
        change (RDone (Fulfilled VUndefined)) with (child u PSkipped).
        rewrite zip_with_child_insert by done.
        rewrite install_join by (by rewrite length_insert).
        assert (HF' : Forall2 (phase_ok (env s0)) URLS_TO_CACHE (<[i := PSkipped]> phs)).
        { eapply Forall2_insert_right; [done..|]. unfold phase_ok. by rewrite Hf. }
        assert (Hc : with_cache s0 (<[i := PSkipped]> phs) = with_cache s0 phs).
        { unfold with_cache. by erewrite cache_of_insert_unstored. }
        assert (Hcost' := phase_cost_insert phs i PFetch PSkipped Hph).
        assert (Hsk : skipped_at URLS_TO_CACHE (<[i := PSkipped]> phs) ≡ₚ
                      skipped_at URLS_TO_CACHE phs ++ [u]).
        { by eapply skipped_at_insert_skipped. }
        destruct (forallb settled (<[i := PSkipped]> phs)) eqn:Hs'.
        -- exists (ISkipping (<[i := PSkipped]> phs)). split; [|split].
           ++ split; [done|]. split; [done|]. rewrite Hc. reflexivity.
           ++ simpl in *. lia.
           ++ exact Hsk.
        -- exists (IFetching (<[i := PSkipped]> phs)). split; [|split].
           ++ split; [done|]. split; [done|]. rewrite Hc. reflexivity.
           ++ simpl in *. lia.
           ++ exact Hsk.
      * assert (∃ r, net (env s0) (resolve u) = NetOk r ∧ ok r = true) as (r & Hnet & Hok).
        { unfold fetch_fails in Hf. destruct (net (env s0) (resolve u)) as [r| |]; try done.
          exists r. split; [done|]. by destruct (ok r). }
        rewrite (settle_fetching_ok m' u
                   (ist s0 (with_cache s0 phs) (isInstalled s0) (skipped_waiting (env s0))
                      (RAllSettled (zip_with child URLS_TO_CACHE phs) installing)) r Hnet Hok).
        change (putting u r) with (child u (PPut r)).
        rewrite zip_with_child_insert by done.
        rewrite install_join by (by rewrite length_insert).
        rewrite forallb_settled_insert_false by done.
        exists (IFetching (<[i := PPut r]> phs)). split; [|split].
        -- split; [by eapply Forall2_insert_right|].
           split; [by apply forallb_settled_insert_false|].
           unfold with_cache. erewrite cache_of_insert_unstored by done. reflexivity.
        -- assert (Hcost' := phase_cost_insert phs i PFetch (PPut r) Hph).
           simpl in *. lia.
        -- cbn [stage_phases fst snd omap warned app].
           rewrite (skipped_at_insert_other _ _ _ PFetch) by done.
           cbn. by rewrite app_nil_r.
    + assert (Hr : phase_ok (env s0) u (PPut r)).
      { eapply Forall2_lookup_lr in HF; eauto. }
      destruct (put_accepts r) eqn:Hacc; cycle 1.
      { rewrite settle_putting_refused by done.
        change (RDone (Fulfilled VUndefined)) with (child u PSkipped).
        rewrite zip_with_child_insert by done.
        rewrite install_join by (by rewrite length_insert).
        assert (HF' : Forall2 (phase_ok (env s0)) URLS_TO_CACHE (<[i := PSkipped]> phs)).
        { eapply Forall2_insert_right; [done..|]. destruct Hr as [Hnet Hok].
          unfold phase_ok, fetch_fails, put_refused. by rewrite Hnet, Hok, Hacc. }
        assert (Hc : with_cache s0 (<[i := PSkipped]> phs) = with_cache s0 phs).
        { unfold with_cache. by erewrite cache_of_insert_unstored. }
        assert (Hcost' := phase_cost_insert phs i (PPut r) PSkipped Hph).
        assert (Hsk : skipped_at URLS_TO_CACHE (<[i := PSkipped]> phs) ≡ₚ
                      skipped_at URLS_TO_CACHE phs ++ [u]).
        { by eapply skipped_at_insert_skipped. }
        destruct (forallb settled (<[i := PSkipped]> phs)) eqn:Hs'.
        - exists (ISkipping (<[i := PSkipped]> phs)). split; [|split].
          + split; [done|]. split; [done|]. rewrite Hc. reflexivity.
          + simpl in *. lia.
          + exact Hsk.
        - exists (IFetching (<[i := PSkipped]> phs)). split; [|split].
          + split; [done|]. split; [done|]. rewrite Hc. reflexivity.
          + simpl in *. lia.
          + exact Hsk. }
      rewrite settle_putting by done.
      change (RDone (Fulfilled VUndefined)) with (child u (PStored r)).
      rewrite zip_with_child_insert by done.
      rewrite install_join by (by rewrite length_insert).
      assert (HF' : Forall2 (phase_ok (env s0)) URLS_TO_CACHE (<[i := PStored r]> phs)).
      { eapply Forall2_insert_right; [done..|]. destruct Hr as [Hnet Hok]. by repeat split. }
      assert (Hc : <[CACHE_NAME := <[resolve u := r]>
                      (default ∅ (with_cache s0 phs !! CACHE_NAME))]> (with_cache s0 phs)
                   = with_cache s0 (<[i := PStored r]> phs)).
      { unfold with_cache. rewrite lookup_insert_eq. simpl. rewrite insert_insert_eq.
        erewrite cache_of_insert_stored; eauto using manifest_keys_NoDup. }
      assert (Hcost' := phase_cost_insert phs i (PPut r) (PStored r) Hph).
      assert (Hsk : skipped_at URLS_TO_CACHE (<[i := PStored r]> phs) =
                    skipped_at URLS_TO_CACHE phs).
      { by eapply skipped_at_insert_other. }
      destruct (forallb settled (<[i := PStored r]> phs)) eqn:Hs'.
      * exists (ISkipping (<[i := PStored r]> phs)). split; [|split].
        -- split; [done|]. split; [done|]. rewrite <- Hc. reflexivity.
        -- simpl in *. lia.
        -- cbn [stage_phases]. rewrite Hsk. cbn. by rewrite app_nil_r.
      * exists (IFetching (<[i := PStored r]> phs)). split; [|split].
        -- split; [done|]. split; [done|]. rewrite <- Hc. reflexivity.
        -- simpl in *. lia.
        -- cbn [stage_phases]. rewrite Hsk. cbn. by rewrite app_nil_r.
  - destruct Hrep as (HF & Hs & ->).
    destruct (step_single n (ist s0 (with_cache s0 phs) true (skipped_waiting (env s0)) skipping)
                skipping) as (m & _ & ->); [done|simpl; lia|].
    rewrite settle_skipping.
    exists (IDone phs). split; [|split].
    + split; [done|]. split; [done|]. reflexivity.
    + simpl. lia.
    + cbn. by rewrite app_nil_r.
  - simpl in Hcost. lia.
Qed.

Lemma install_exec_warned s0 sched a s :
  caches (env s0) !! CACHE_NAME = None →
  irep s0 a s →
  ∃ a', irep s0 a' (exec sched s).1 ∧ (icost a' ≤ icost a - length sched)%nat ∧
        skipped_at URLS_TO_CACHE (stage_phases a') ≡ₚ
        skipped_at URLS_TO_CACHE (stage_phases a) ++ omap warned (exec sched s).2.
Proof.
  intros Hnew. revert a s. induction sched as [|n sched IH]; intros a s Hrep.
  - exists a. simpl. split; [done|]. split; [lia|]. by rewrite app_nil_r.
  - destruct (decide (icost a = 0)) as [H0|H0].
    + exists a. destruct a as [|phs|phs|phs]; simpl in H0; try lia.
      destruct Hrep as (HF & Hs & ->). rewrite exec_idle by reflexivity.
      split; [done|]. split; [simpl; lia|]. cbn. by rewrite app_nil_r.
    + destruct (install_step_warned s0 a s n Hnew Hrep) as (a1 & Hrep1 & Hc1 & Hw1); [lia|].
      rewrite exec_cons. cbn [fst snd].
      destruct (IH a1 (step n s).1 Hrep1) as (a2 & Hrep2 & Hc2 & Hw2).
      exists a2. split; [done|]. split; [simpl; lia|].
      rewrite omap_app, app_assoc, <- Hw1. exact Hw2.
Qed.

(** X13.  Once an install run is over, under every schedule, the URLs named
    by the warnings of the run are, up to their order, exactly the URLs
    of the manifest whose fetch failed or whose response the cache
    refused to store, each named once: no failure passes unlogged and no
    URL that was stored is warned about. *)
Theorem install_warns_of_each_failure (s0 : state) (sched : list nat) :
  installPromise s0 = None → tasks s0 = [] →
  caches (env s0) !! CACHE_NAME = None →
  (2 + 2 * length URLS_TO_CACHE ≤ length sched)%nat →
  let trace := (on_install s0).2 ++ (exec sched (on_install s0).1).2 in
  omap warned trace ≡ₚ
    List.filter (λ u, fetch_fails (env s0) u || put_refused (env s0) u) URLS_TO_CACHE.
Proof.
  intros Hp Ht Hnew Hlen. cbv zeta. rewrite on_install_fresh by done. cbn [fst snd].
  destruct (install_exec_warned s0 sched IOpening
              (ist s0 (caches (env s0)) (isInstalled s0) (skipped_waiting (env s0)) opening)
              Hnew eq_refl) as (a & Hrep & Hcost & Hw).
  destruct (irep_done_only s0 a _ Hrep) as [phs ->]; [simpl in *; lia|].
  destruct Hrep as (HF & Hs & _).
  cbn [stage_phases] in Hw. rewrite skipped_at_fetching in Hw. cbn [app] in Hw.
  rewrite omap_app. cbn [omap list_omap warned app]. rewrite <- Hw.
  by rewrite (skipped_at_settled _ _ _ HF Hs).
Qed.


(** * The message side *)

(** ** Runs of sequential programs *)

Lemma arun_abind {A B} (p : async A) (f : A → async B) others s :
  arun (abind p f) others s =
  let r := arun p others s in
  match result r with
  | inl e => mkFinished (inl e) (final r) (events r) (unused r)
  | inr a =>
      let r2 := arun (f a) (unused r) (final r) in
      mkFinished (result r2) (final r2) (events r ++ events r2) (unused r2)
  end.
Proof.
  revert others s. induction p as [a|e|a k IH|o k IH]; intros others s.
  - done.
  - done.
  - cbn [abind arun]. rewrite IH. cbv zeta.
    by destruct (result (arun (k (do_mact a s)) others s)).
  - cbn [abind arun]. destruct (mperform o (env (meanwhile others s))) as [x w].
    rewrite IH. cbv zeta.
    by destruct (result (arun (k x) (tail others) (set_env (meanwhile others s) w))).
Qed.

Lemma arun_acatch {A} (p : async A) (h : string → async A) others s :
  arun (acatch p h) others s =
  let r := arun p others s in
  match result r with
  | inl e =>
      let r2 := arun (h e) (unused r) (final r) in
      mkFinished (result r2) (final r2) (events r ++ events r2) (unused r2)
  | inr a => mkFinished (inr a) (final r) (events r) (unused r)
  end.
Proof.
  revert others s. induction p as [a|e|a k IH|o k IH]; intros others s.
  - done.
  - done.
  - cbn [acatch arun]. rewrite IH. cbv zeta.
    by destruct (result (arun (k (do_mact a s)) others s)).
  - cbn [acatch arun]. destruct (mperform o (env (meanwhile others s))) as [x w].
    rewrite IH. cbv zeta.
    by destruct (result (arun (k x) (tail others) (set_env (meanwhile others s) w))).
Qed.

Lemma arun_broadcastAll {A} cs m (k : async A) others s :
  arun (broadcastAll cs m k) others s =
  let r := arun k others s in
  mkFinished (result r) (final r) (((λ c, MAct (Broadcast c m)) <$> cs) ++ events r) (unused r).
Proof.
  induction cs as [|c cs IH]; [done|].
  cbn [broadcastAll foldr arun]. change (foldr _ k cs) with (broadcastAll cs m k).
  by rewrite IH.
Qed.

Lemma arun_notifyResult {A} cs b (k : async A) others s :
  arun (notifyResult cs b k) others s =
  let r := arun k others s in
  mkFinished (result r) (final r)
    (flat_map (λ c, [MAct Clock; closing b (now s) c]) cs ++ events r) (unused r).
Proof.
  induction cs as [|c cs IH]; [done|].
  cbn [notifyResult foldr arun]. change (foldr _ k cs) with (notifyResult cs b k).
  by rewrite IH.
Qed.

(** ** The update check *)

(** One turn of the loop ends with a value, whatever the network answers
    and whatever happens meanwhile; it fetches its URL once and sends
    nothing. *)
Lemma checkUrl_run u b others s :
  let r := arun (checkUrl u b) others s in
  (∃ b', result r = inr b') ∧
  List.filter is_broadcast (events r) = [] ∧
  List.filter is_mfetch (events r) = [MCall (Platform (Fetch (resolve u) FetchNoCache))].
Proof.
  cbv zeta. unfold checkUrl. cbn [acatch arun mperform].
  generalize (meanwhile others s). intros s1.
  destruct (perform (Fetch (resolve u) FetchNoCache) (env s1)) as [x w1].
  destruct x as [e|response]; cbn [acatch arun]; [split; [by eexists|by split]|].
  destruct (ok response); cbn [acatch arun mperform]; [|split; [by eexists|by split]].
  generalize (meanwhile (tail others) (set_env s1 w1)). intros s2.
  destruct (perform (CachesOpen CACHE_NAME) (env s2)) as [x2 w2]. cbn [acatch arun mperform].
  generalize (meanwhile (tail (tail others)) (set_env s2 w2)). intros s3.
  destruct (perform (CacheMatch CACHE_NAME (resolve u)) (env s3)) as [x3 w3].
  destruct x3 as [cached|]; cbn [acatch arun]; [|split; [by eexists|by split]].
  destruct (negb (String.eqb (body response) (body cached)));
    cbn [acatch arun mperform]; [|split; [by eexists|by split]].
  generalize (meanwhile (tail (tail (tail others))) (set_env s3 w3)). intros s4.
  destruct (perform (CachePut CACHE_NAME (resolve u)
                       (withHeadersOf response (body response))) (env s4))
    as [x4 w4].
  destruct x4 as [e|[]]; cbn [acatch arun]; (split; [by eexists|by split]).
Qed.

Lemma checkUrls_run urls b others s :
  let r := arun (checkUrls urls b) others s in
  (∃ b', result r = inr b') ∧
  List.filter is_broadcast (events r) = [] ∧
  List.filter is_mfetch (events r) =
    (λ u, MCall (Platform (Fetch (resolve u) FetchNoCache))) <$> urls.
Proof.
  revert b others s. induction urls as [|u urls IH]; intros b others s.
  - split; [by eexists|by split].
  - cbv zeta. cbn [checkUrls]. rewrite arun_abind. cbv zeta.
    destruct (checkUrl_run u b others s) as ([b1 Hb1] & Hbc1 & Hf1).
    rewrite Hb1.
    destruct (IH b1 (unused (arun (checkUrl u b) others s))
                (final (arun (checkUrl u b) others s))) as ([b2 Hb2] & Hbc2 & Hf2).
    cbn [result events]. split; [by eexists|]. split.
    + by rewrite List.filter_app, Hbc1, Hbc2.
    + by rewrite List.filter_app, Hf1, Hf2.
Qed.

Lemma filter_broadcast_started cs :
  List.filter is_broadcast ((λ c, MAct (Broadcast c UPDATE_CHECK_STARTED)) <$> cs) =
  started <$> cs.
Proof. induction cs as [|c cs IH]; [done|]. cbn. by rewrite IH. Qed.

Lemma filter_broadcast_closing b t cs :
  List.filter is_broadcast (flat_map (λ c, [MAct Clock; closing b t c]) cs) =
  closing b t <$> cs.
Proof. induction cs as [|c cs IH]; [done|]. cbn. by rewrite IH. Qed.

Lemma filter_mfetch_started cs m :
  List.filter is_mfetch ((λ c, MAct (Broadcast c m)) <$> cs) = [].
Proof. induction cs as [|c cs IH]; [done|]. cbn. by rewrite IH. Qed.

Lemma filter_mfetch_closing b t cs :
  List.filter is_mfetch (flat_map (λ c, [MAct Clock; closing b t c]) cs) = [].
Proof. induction cs as [|c cs IH]; [done|]. cbn. by rewrite IH. Qed.

(** The run of checkForUpdates in terms of the run of its loop. *)
Lemma checkForUpdates_run others s :
  let s1 := meanwhile others s in
  let cs := clients (env s1) in
  let loop := arun (checkUrls urlsToCheck false) (tail others) s1 in
  ∀ b, result loop = inr b →
  arun checkForUpdates others s =
  mkFinished (inr tt) (final loop)
    (MCall (Platform ClientsMatchAll) :: MSettle (Platform ClientsMatchAll) ::
     ((λ c, MAct (Broadcast c UPDATE_CHECK_STARTED)) <$> cs) ++
     events loop ++
     flat_map (λ c, [MAct Clock; closing b (now (final loop)) c]) cs ++
     [MAct (Note (NoteCheckComplete b))])
    (unused loop).
Proof.
  cbv zeta. unfold checkForUpdates. generalize (checkUrls urlsToCheck false). intros p b Hb.
  rewrite arun_acatch. cbv zeta. cbn [arun mperform perform].
  change (set_env (meanwhile others s) (env (meanwhile others s))) with (meanwhile others s).
  revert Hb. generalize (meanwhile others s) (tail others). intros s1 rest Hb.
  rewrite arun_broadcastAll. cbv zeta. rewrite arun_abind. cbv zeta.
  destruct (arun p rest s1) as [res fin evs unu]. cbn [result final events unused] in *.
  subst res. cbv beta iota. rewrite arun_notifyResult. cbv zeta. cbn [arun result final events unused].
  by rewrite <- ?app_assoc.
Qed.

(** X14.  Whatever the network answers and whatever the rest of the worker
    does meanwhile, an update check ends fulfilled; to every client that
    is connected when it starts it sends exactly UPDATE_CHECK_STARTED and
    then one closing message, of the same kind and with the same
    timestamp for all of them -- UPDATE_AVAILABLE or NO_UPDATES, never
    UPDATE_CHECK_FAILED; and it fetches each of the three URLs once, in
    their order: a URL whose check fails does not stop the others. *)
Theorem update_check_protocol (others : list (state → state)) (s : state) :
  let r := arun checkForUpdates others s in
  let cs := clients (env (meanwhile others s)) in
  result r = inr tt ∧
  (∃ hasUpdates,
     List.filter is_broadcast (events r) =
     (started <$> cs) ++ (closing hasUpdates (now (final r)) <$> cs)) ∧
  List.filter is_mfetch (events r) = check_fetches.
Proof.
  cbv zeta.
  destruct (checkUrls_run urlsToCheck false (tail others) (meanwhile others s))
    as ([b Hb] & Hbc & Hf).
  rewrite (checkForUpdates_run others s b Hb). cbn [result final events].
  split; [done|]. split.
  - exists b. cbn [List.filter is_broadcast].
    rewrite !List.filter_app, filter_broadcast_started, Hbc, filter_broadcast_closing.
    cbn. by rewrite ?app_nil_r.
  - cbn [List.filter is_mfetch].
    rewrite !List.filter_app, filter_mfetch_started, Hf, filter_mfetch_closing.
    cbn. by rewrite ?app_nil_r.
Qed.

(** ** The update check on its own: what it finds and what it stores *)

Lemma checkUrl_alone u b s :
  let r := arun (checkUrl u b) [] s in
  result r = inr (if changed (env s) u then true else b) ∧
  final r = set_env s (env (final r)) ∧
  net (env (final r)) = net (env s) ∧
  clients (env (final r)) = clients (env s) ∧
  (∀ k, lookup_cached (env (final r)) k =
        match live_update (env s) (resolve u) with
        | Some new =>
            if decide (resolve u = k) then after_put (env s) k new
            else lookup_cached (env s) k
        | None => lookup_cached (env s) k
        end) ∧
  (∀ n, n ≠ CACHE_NAME → caches (env (final r)) !! n = caches (env s) !! n) ∧
  List.filter is_put (events r) = check_puts (env s) [u].
Proof.
  cbv zeta. unfold checkUrl, changed, check_puts, live_update.
  cbn [acatch arun mperform perform meanwhile tail flat_map].
  destruct (net (env s) (resolve u)) as [r| |] eqn:Hnet; cbn [fetch_reply arun acatch].
  2,3: cbn [result final events env set_env]; repeat split; done.
  destruct (ok r) eqn:Hok; cbn [acatch arun mperform perform meanwhile tail].
  2: { cbn [result final events env set_env]. repeat split; done. }
  change (env (set_env s (env s))) with (env s).
  change (perform (CachesOpen CACHE_NAME) (env s)).2 with (open_cache (env s)).
  change (set_env (set_env s (env s)) ?w) with (set_env s w).
  change (match caches (env s) !! CACHE_NAME with
          | Some _ => env s
          | None => set_caches (env s) (<[CACHE_NAME:=∅]> (caches (env s)))
          end) with (open_cache (env s)).
  cbn [env set_env].
  change (caches (open_cache (env s)) !! CACHE_NAME ≫= λ c, c !! resolve u)
    with (lookup_cached (open_cache (env s)) (resolve u)).
  rewrite lookup_cached_open.
  destruct (lookup_cached (env s) (resolve u)) as [cached|] eqn:Hc; cbn [acatch arun].
  2: { cbn [result final events env set_env List.filter is_put app].
       split; [done|]. split; [done|]. split; [apply net_open_cache|].
       split; [apply clients_open_cache|]. split; [intros k; apply lookup_cached_open|].
       split; [|done]. intros n Hn. by apply other_caches_open. }
  destruct (String.eqb (body r) (body cached)) eqn:Hb; cbn [negb acatch arun].
  { cbn [result final events env set_env List.filter is_put app].
    split; [done|]. split; [done|]. split; [apply net_open_cache|].
    split; [apply clients_open_cache|]. split; [intros k; apply lookup_cached_open|].
    split; [|done]. intros n Hn. by apply other_caches_open. }
  cbn [mperform meanwhile tail arun]. cbn [env set_env]. rewrite perform_put.
  unfold after_put.
  destruct (put_accepts (withHeadersOf r (body r))) eqn:Ha;
    cbn [acatch arun do_mact result final events env set_env List.filter is_put app].
  - split; [done|]. split; [done|].
    split; [unfold put_cached; cbn [perform]; rewrite Ha; apply net_open_cache|].
    split; [unfold put_cached; cbn [perform]; rewrite Ha; apply clients_open_cache|].
    split; [|split; [|done]].
    + intros k. destruct (decide (resolve u = k)) as [<-|Hne].
      * by apply lookup_cached_put.
      * rewrite lookup_cached_put_ne by done. by rewrite !lookup_cached_open.
    + intros n Hn. rewrite other_caches_put by done. by apply other_caches_open.
  - rewrite put_cached_refused by done.
    split; [done|]. split; [done|]. split; [apply net_open_cache|].
    split; [apply clients_open_cache|]. split; [|split; [|done]].
    + intros k. rewrite lookup_cached_open. by destruct (decide (resolve u = k)) as [<-|Hne].
    + intros n Hn. by apply other_caches_open.
Qed.

Lemma arun_alone_unused {A} (p : async A) s : unused (arun p [] s) = [].
Proof.
  revert s. induction p as [a|e|a k IH|o k IH]; intros s; try done.
  - cbn [arun unused]. apply IH.
  - cbn [arun meanwhile tail]. destruct (mperform o (env s)) as [x w].
    cbn [unused]. apply IH.
Qed.

Lemma live_update_agrees w1 w k :
  net w1 = net w → lookup_cached w1 k = lookup_cached w k →
  live_update w1 k = live_update w k.
Proof. intros Hn Hl. unfold live_update. by rewrite Hn, Hl. Qed.

Lemma existsb_agree {A} (f g : A → bool) l :
  (∀ x, In x l → f x = g x) → existsb f l = existsb g l.
Proof.
  induction l as [|x l IH]; intros H; [done|]. cbn [existsb].
  rewrite (H x) by (by left). rewrite IH; [done|]. intros y Hy. apply H. by right.
Qed.

Lemma flat_map_agree {A B} (f g : A → list B) l :
  (∀ x, In x l → f x = g x) → flat_map f l = flat_map g l.
Proof.
  induction l as [|x l IH]; intros H; [done|]. cbn [flat_map].
  rewrite (H x) by (by left). rewrite IH; [done|]. intros y Hy. apply H. by right.
Qed.

Lemma checkUrls_alone us b s :
  NoDup (resolve <$> us) →
  let r := arun (checkUrls us b) [] s in
  result r = inr (b || existsb (changed (env s)) us) ∧
  final r = set_env s (env (final r)) ∧
  net (env (final r)) = net (env s) ∧
  clients (env (final r)) = clients (env s) ∧
  (∀ k, lookup_cached (env (final r)) k = checked_entry (env s) us k) ∧
  (∀ n, n ≠ CACHE_NAME → caches (env (final r)) !! n = caches (env s) !! n) ∧
  List.filter is_put (events r) = check_puts (env s) us.
Proof.
  revert b s. induction us as [|u us IH]; intros b s Hnd.
  { cbv zeta. cbn [checkUrls arun result final events existsb]. rewrite orb_false_r.
    repeat split; done. }
  rewrite fmap_cons in Hnd. apply NoDup_cons in Hnd as [Hnotin Hnd].
  cbv zeta. cbn [checkUrls]. rewrite arun_abind. cbv zeta.
  destruct (checkUrl_alone u b s) as (Hres1 & Hfin1 & Hnet1 & Hcl1 & Hlook1 & Hoth1 & Hput1).
  cbv zeta in Hres1, Hfin1, Hnet1, Hcl1, Hlook1, Hoth1, Hput1.
  rewrite Hres1, arun_alone_unused.
  set (r1 := arun (checkUrl u b) [] s) in *.
  destruct (IH (if changed (env s) u then true else b) (final r1) Hnd)
    as (Hres2 & Hfin2 & Hnet2 & Hcl2 & Hlook2 & Hoth2 & Hput2).
  cbv zeta in Hres2, Hfin2, Hnet2, Hcl2, Hlook2, Hoth2, Hput2.
  set (r2 := arun (checkUrls us (if changed (env s) u then true else b)) [] (final r1)) in *.
  cbn [result final events].
  assert (Hrest : ∀ u', In u' us → resolve u ≠ resolve u').
  { intros u' Hu' Heq. apply Hnotin. rewrite Heq.
    apply list_elem_of_fmap. exists u'. split; [done|]. by apply list_elem_of_In. }
  assert (Hsame : ∀ u', In u' us →
            live_update (env (final r1)) (resolve u') = live_update (env s) (resolve u')).
  { intros u' Hu'. apply live_update_agrees; [done|]. rewrite Hlook1.
    destruct (live_update (env s) (resolve u)); [|done].
    by rewrite decide_False by by apply Hrest. }
  split; [|split; [|split; [|split; [|split; [|split]]]]].
  - rewrite Hres2. f_equal. cbn [existsb].
    rewrite (existsb_agree (changed (env (final r1))) (changed (env s))).
    + by destruct (changed (env s) u), b.
    + intros u' Hu'. unfold changed. by rewrite Hsame.
  - rewrite Hfin2 at 1. rewrite Hfin1 at 1. done.
  - by rewrite Hnet2.
  - by rewrite Hcl2.
  - intros k. rewrite Hlook2. unfold checked_entry. rewrite fmap_cons.
    destruct (decide (k ∈ resolve <$> us)) as [Hin|Hout].
    + rewrite decide_True by (by right).
      apply list_elem_of_fmap in Hin as (u' & -> & Hu'%list_elem_of_In).
      rewrite Hsame by done.
      assert (Hk : lookup_cached (env (final r1)) (resolve u') =
                   lookup_cached (env s) (resolve u')).
      { rewrite Hlook1. destruct (live_update (env s) (resolve u)); [|done].
        by rewrite decide_False by by apply Hrest. }
      unfold after_put. rewrite Hk. by destruct (live_update (env s) (resolve u')).
    + rewrite Hlook1. destruct (decide (k = resolve u)) as [->|Hne].
      * rewrite decide_True by (by left).
        destruct (live_update (env s) (resolve u)); [|done]. by rewrite decide_True.
      * rewrite decide_False by (by intros [?|?]%elem_of_cons).
        destruct (live_update (env s) (resolve u)); [|done]. by rewrite decide_False.
  - intros n Hn. by rewrite Hoth2, Hoth1.
  - rewrite List.filter_app, Hput1, Hput2. unfold check_puts. cbn [flat_map].
    rewrite app_nil_r. f_equal. apply flat_map_agree. intros u' Hu'. by rewrite Hsame.
Qed.

Lemma check_keys_NoDup : NoDup (resolve <$> urlsToCheck).
Proof.
  change (resolve <$> urlsToCheck) with
    (String.append scope <$> [EmptyString; "index.html"; "i18n.js"]).
  apply NoDup_fmap_2.
  - intros a b. apply append_inj.
  - apply (bool_decide_unpack _). by vm_compute.
Qed.

Lemma filter_put_acts {A} (f : A → list mevent) l :
  (∀ x, List.filter is_put (f x) = []) → List.filter is_put (flat_map f l) = [].
Proof.
  intros H. induction l as [|x l IH]; [done|]. cbn [flat_map].
  by rewrite List.filter_app, H, IH.
Qed.

Lemma filter_put_started cs m :
  List.filter is_put ((λ c, MAct (Broadcast c m)) <$> cs) = [].
Proof. induction cs as [|c cs IH]; [done|]. cbn. by rewrite IH. Qed.

Lemma checked_entry_absent w us k :
  lookup_cached w k = None → checked_entry w us k = None.
Proof.
  intros H. unfold checked_entry. destruct (decide _); [|done].
  unfold live_update. rewrite H. destruct (net w k) as [r| |]; try done.
  by destruct (ok r).
Qed.

(** The run of an update check while nothing else happens. *)
Lemma checkForUpdates_alone s :
  let r := arun checkForUpdates [] s in
  let cs := clients (env s) in
  let found := existsb (changed (env s)) urlsToCheck in
  result r = inr tt ∧
  List.filter is_broadcast (events r) = (started <$> cs) ++ (closing found (now s) <$> cs) ∧
  List.filter is_put (events r) = check_puts (env s) urlsToCheck ∧
  (∀ k, lookup_cached (env (final r)) k = checked_entry (env s) urlsToCheck k) ∧
  (∀ n, n ≠ CACHE_NAME → caches (env (final r)) !! n = caches (env s) !! n).
Proof.
  cbv zeta.
  destruct (checkUrls_alone urlsToCheck false s check_keys_NoDup)
    as (Hres & Hfin & _ & _ & Hlook & Hoth & Hput).
  cbv zeta in Hres, Hfin, Hlook, Hoth, Hput.
  pose proof (checkForUpdates_run [] s _ Hres) as Hrun. cbv zeta in Hrun.
  cbn [meanwhile tail] in Hrun. rewrite Hrun. cbn [result final events].
  assert (Hnow : now (final (arun (checkUrls urlsToCheck false) [] s)) = now s).
  { by rewrite Hfin. }
  rewrite Hnow. split; [done|]. split; [|split; [|by split]].
  - destruct (checkUrls_run urlsToCheck false [] s) as (_ & Hbc & _).
    cbn [List.filter is_broadcast].
    rewrite !List.filter_app, filter_broadcast_started, Hbc, filter_broadcast_closing.
    cbn. by rewrite ?app_nil_r.
  - cbn [List.filter is_put].
    rewrite !List.filter_app, filter_put_started, Hput.
    rewrite filter_put_acts by done. cbn. by rewrite ?app_nil_r.
Qed.

(** X15.  An update check during which nothing else happens, none of the three
    URLs having changed (for each of them the fetch fails, or the answer
    is not ok, or the URL has no entry, or the live text is the stored
    one): every connected client is sent UPDATE_CHECK_STARTED and then
    exactly one NO_UPDATES message with the time of the check, and no
    UPDATE_AVAILABLE message; nothing is put and no entry changes. *)
Theorem update_check_without_changes (s : state) :
  (∀ u live cached, In u urlsToCheck →
     net (env s) (resolve u) = NetOk live → ok live = true →
     lookup_cached (env s) (resolve u) = Some cached →
     body live = body cached) →
  let r := arun checkForUpdates [] s in
  let cs := clients (env s) in
  result r = inr tt ∧
  List.filter is_broadcast (events r) =
    ((λ c, MAct (Broadcast c UPDATE_CHECK_STARTED)) <$> cs) ++
    ((λ c, MAct (Broadcast c (NO_UPDATES (now s)))) <$> cs) ∧
  List.filter is_put (events r) = [] ∧
  (∀ k, lookup_cached (env (final r)) k = lookup_cached (env s) k).
Proof.
  intros Hsame.
  assert (Hnone : ∀ u, In u urlsToCheck → live_update (env s) (resolve u) = None).
  { intros u Hu. unfold live_update.
    destruct (net (env s) (resolve u)) as [live| |] eqn:Hnet; try done.
    destruct (ok live) eqn:Hok; [|done].
    destruct (lookup_cached (env s) (resolve u)) as [cached|] eqn:Hc; [|done].
    rewrite (Hsame u live cached Hu Hnet Hok Hc). by rewrite String.eqb_refl. }
  destruct (checkForUpdates_alone s) as (Hres & Hbc & Hput & Hlook & _).
  cbv zeta in *. split; [done|]. split; [|split].
  - rewrite Hbc. f_equal.
    rewrite (existsb_agree _ (λ _, false)).
    + by assert (existsb (λ _ : string, false) urlsToCheck = false) as -> by done.
    + intros u Hu. unfold changed. by rewrite Hnone.
  - rewrite Hput. unfold check_puts.
    rewrite (flat_map_agree _ (λ _, [])); [done|].
    intros u Hu. by rewrite Hnone.
  - intros k. rewrite Hlook. unfold checked_entry.
    destruct (decide (k ∈ resolve <$> urlsToCheck)) as [Hin|]; [|done].
    apply list_elem_of_fmap in Hin as (u & -> & Hu%list_elem_of_In).
    by rewrite Hnone.
Qed.

(** X16.  An update check during which nothing else happens: the closing
    message is UPDATE_AVAILABLE exactly when one of the three URLs has
    changed, and NO_UPDATES otherwise; the entry of each changed URL is
    replaced by the live text under the live headers when the cache
    accepts that response, and stays as it was when the cache refuses it
    (the live headers have a Vary header that is a star) -- the change
    is announced all the same; every other entry, of this cache and of
    the others, is as it was; in particular the check never adds an
    entry for a URL that had none. *)
Theorem update_check_stores_changes (s : state) :
  let r := arun checkForUpdates [] s in
  let cs := clients (env s) in
  let found := existsb (changed (env s)) urlsToCheck in
  List.filter is_broadcast (events r) =
    ((λ c, MAct (Broadcast c UPDATE_CHECK_STARTED)) <$> cs) ++
    ((λ c, MAct (Broadcast c (if found then UPDATE_AVAILABLE_AT (now s)
                              else NO_UPDATES (now s)))) <$> cs) ∧
  (∀ u new, In u urlsToCheck → live_update (env s) (resolve u) = Some new →
            found = true ∧
            lookup_cached (env (final r)) (resolve u) =
              if put_accepts new then Some new else lookup_cached (env s) (resolve u)) ∧
  (∀ u, In u urlsToCheck → live_update (env s) (resolve u) = None →
        lookup_cached (env (final r)) (resolve u) = lookup_cached (env s) (resolve u)) ∧
  (∀ k, k ∉ resolve <$> urlsToCheck →
        lookup_cached (env (final r)) k = lookup_cached (env s) k) ∧
  (∀ k, lookup_cached (env s) k = None → lookup_cached (env (final r)) k = None) ∧
  (∀ n, n ≠ CACHE_NAME → caches (env (final r)) !! n = caches (env s) !! n).
Proof.
  destruct (checkForUpdates_alone s) as (_ & Hbc & _ & Hlook & Hoth).
  cbv zeta in *. split; [done|]. split; [|split; [|split; [|split; [|done]]]].
  - intros u new Hu Hnew. split.
    + apply existsb_exists. exists u. split; [done|]. unfold changed. by rewrite Hnew.
    + rewrite Hlook. unfold checked_entry. rewrite decide_True, Hnew; [done|].
      apply list_elem_of_fmap. exists u. split; [done|]. by apply list_elem_of_In.
  - intros u Hu Hnone. rewrite Hlook. unfold checked_entry.
    rewrite Hnone. by destruct (decide _).
  - intros k Hk. rewrite Hlook. unfold checked_entry. by rewrite decide_False.
  - intros k Hk. rewrite Hlook. by apply checked_entry_absent.
Qed.

(** ** The requests answered on a port *)

Lemma handleCacheNameRequest_run (event : MessageEvent)
    (others : list (state → state)) (s : state) :
  let r := arun (handleCacheNameRequest event) others s in
  let s1 := meanwhile others s in
  result r = inr tt ∧
  final r = s1 ∧
  List.filter is_reply (events r) =
    match ports event with
    | port0 :: _ =>
        [MAct (Reply port0
                 (CACHE_NAME_RESPONSE CACHE_NAME
                    (bool_decide (is_Some (caches (env s1) !! CACHE_NAME)))
                    (isInstalled s1)))]
    | [] => []
    end ∧
  List.filter is_broadcast (events r) = [].
Proof.
  cbv zeta. unfold handleCacheNameRequest.
  cbn [arun acatch mperform do_mact result final events].
  destruct (ports event) as [|port0 rest];
    cbn [arun acatch do_mact result final events List.filter is_reply is_broadcast];
    repeat split; done.
Qed.

(** X17.  A GET_CACHE_NAME message is answered, whatever the rest of the worker
    does meanwhile, with exactly one CACHE_NAME_RESPONSE on the first port
    of the event: the name of the current cache, whether that cache
    exists and the installed flag, both as they are when caches.has
    settles.  Without a port nothing is sent.  The storage is left as it
    is (caches.has creates nothing), no client is sent a message, and the
    second listener ignores the event. *)
Theorem cache_name_request_answered (event : MessageEvent) (d : MessageData)
    (others : list (state → state)) (s : state) :
  data event = Some d → type d = Some "GET_CACHE_NAME" →
  let r := arun (on_message event) others s in
  let s1 := meanwhile others s in
  result r = inr tt ∧
  final r = s1 ∧
  List.filter is_reply (events r) =
    match ports event with
    | port0 :: _ =>
        [MAct (Reply port0
                 (CACHE_NAME_RESPONSE CACHE_NAME
                    (bool_decide (is_Some (caches (env s1) !! CACHE_NAME)))
                    (isInstalled s1)))]
    | [] => []
    end ∧
  List.filter is_broadcast (events r) = [] ∧
  on_stats_message event = AReturn tt.
Proof.
  intros Hd Ht. cbv zeta. unfold on_message, on_stats_message. rewrite Hd, Ht.
  rewrite decide_True by done. rewrite decide_False by done.
  cbn [arun do_mact result final events List.filter is_reply is_broadcast].
  destruct (handleCacheNameRequest_run event others s) as (H1 & H2 & H3 & H4).
  by repeat split.
Qed.

Lemma length_elements_dom (c : gmap string Response) : length (elements (dom c)) = size c.
Proof. by rewrite <- size_dom. Qed.

Lemma getCacheStats_run (s : state) :
  let r := arun getCacheStats [] s in
  let c := default ∅ (caches (env s) !! CACHE_NAME) in
  result r = inr (Some (mkStats CACHE_NAME (size c) (elements (dom c)))) ∧
  final r = set_env s (open_cache (env s)) ∧
  unused r = [] ∧
  List.filter is_reply (events r) = [].
Proof.
  cbv zeta. unfold getCacheStats.
  cbn [acatch arun mperform perform meanwhile tail do_mact result final events unused
       env set_env List.filter is_reply].
  change (match caches (env s) !! CACHE_NAME with
          | Some _ => env s
          | None => set_caches (env s) (<[CACHE_NAME:=∅]> (caches (env s)))
          end) with (open_cache (env s)).
  assert (Hc : default ∅ (caches (open_cache (env s)) !! CACHE_NAME) =
               default ∅ (caches (env s) !! CACHE_NAME)).
  { unfold open_cache. cbn [perform snd].
    destruct (caches (env s) !! CACHE_NAME) eqn:E; [by rewrite E|].
    cbn [caches set_caches]. by rewrite lookup_insert_eq. }
  by rewrite Hc, length_elements_dom.
Qed.

Lemma open_cache_exists (w : world) : is_Some (caches (open_cache w) !! CACHE_NAME).
Proof.
  unfold open_cache. cbn [perform snd].
  destruct (caches w !! CACHE_NAME) eqn:E; [by rewrite E|].
  cbn [caches set_caches]. by rewrite lookup_insert_eq.
Qed.

(** X18.  A GET_CACHE_STATS message, nothing else happening meanwhile: the
    first listener knows no such type and only logs; the second answers on
    the first port of the event with the name of the current cache, the
    number of its entries and their URLs.  getCacheStats opens the cache,
    so that the cache exists afterwards even if it did not before (it is
    then reported empty); no entry changes. *)
Theorem cache_stats_request_answered (event : MessageEvent) (d : MessageData) (s : state) :
  data event = Some d → type d = Some "GET_CACHE_STATS" →
  let first := arun (on_message event) [] s in
  let r := arun (on_stats_message event) [] s in
  let c := default ∅ (caches (env s) !! CACHE_NAME) in
  events first = [MAct (Note (NoteMessageReceived (type d)));
                  MAct (Note (NoteUnknownType (type d)))] ∧
  final first = s ∧
  result r = inr tt ∧
  List.filter is_reply (events r) =
    match ports event with
    | port0 :: _ =>
        [MAct (Reply port0
                 (CACHE_STATS_RESPONSE
                    (Some (mkStats CACHE_NAME (size c) (elements (dom c))))))]
    | [] => []
    end ∧
  is_Some (caches (env (final r)) !! CACHE_NAME) ∧
  (∀ k, lookup_cached (env (final r)) k = lookup_cached (env s) k) ∧
  (∀ n, n ≠ CACHE_NAME → caches (env (final r)) !! n = caches (env s) !! n).
Proof.
  intros Hd Ht. cbv zeta. unfold on_message, on_stats_message. rewrite Hd, Ht.
  rewrite !decide_False by done. rewrite decide_True by done.
  split; [done|]. split; [done|].
  rewrite arun_abind. cbv zeta.
  destruct (getCacheStats_run s) as (Hres & Hfin & Hun & Hrep).
  rewrite Hres, Hfin, Hun. unfold replyOn.
  destruct (ports event) as [|port0 rest];
    cbn [arun do_mact result final events env set_env];
    rewrite List.filter_app, Hrep;
    cbn [List.filter is_reply app];
    (split; [done|]; split; [done|]; split; [apply open_cache_exists|]; split;
     [intros k; apply lookup_cached_open|intros n Hn; by apply other_caches_open]).
Qed.

(** X19.  A message of any other type -- LANGUAGE_CHANGED included -- and a
    message without data only leave log lines: no operation is called,
    nothing is sent to a client or on a port, and the worker is as it
    was. *)
Theorem other_messages_only_logged (event : MessageEvent)
    (others : list (state → state)) (s : state) :
  (∀ d, data event = Some d →
        type d ≠ Some "GET_CACHE_NAME" ∧ type d ≠ Some "SKIP_WAITING" ∧
        type d ≠ Some "CHECK_UPDATES" ∧ type d ≠ Some "GET_CACHE_STATS") →
  let r := arun (on_message event) others s in
  on_stats_message event = AReturn tt ∧
  result r = inr tt ∧ final r = s ∧ unused r = others ∧
  List.filter is_call (events r) = [] ∧
  List.filter is_broadcast (events r) = [] ∧
  List.filter is_reply (events r) = [].
Proof.
  intros Hother. cbv zeta. unfold on_message, on_stats_message.
  destruct (data event) as [d|]; [|by repeat split].
  destruct (Hother d eq_refl) as (H1 & H2 & H3 & H4).
  rewrite !(decide_False (P := type d = Some "GET_CACHE_NAME")) by done.
  rewrite !(decide_False (P := type d = Some "SKIP_WAITING")) by done.
  rewrite !(decide_False (P := type d = Some "CHECK_UPDATES")) by done.
  rewrite !(decide_False (P := type d = Some "GET_CACHE_STATS")) by done.
  split; [done|].
  destruct (decide (type d = Some "LANGUAGE_CHANGED")); by repeat split.
Qed.

(** X20.  Once an install run is over the worker answers GET_CACHE_NAME with
    the current cache name, the cache reported as existing and the worker
    as installed, and GET_CACHE_STATS with N - K - R entries, K being
    the number of the N URLs of the manifest whose fetch failed and R
    the number of those whose response the cache refused to store. *)
Theorem installed_worker_reports (s0 : state) (sched : list nat)
    (ask_name ask_stats : MessageEvent) (dn ds : MessageData) (p1 p2 : port)
    (ps1 ps2 : list port) :
  installPromise s0 = None → tasks s0 = [] →
  caches (env s0) !! CACHE_NAME = None →
  (2 + 2 * length URLS_TO_CACHE ≤ length sched)%nat →
  data ask_name = Some dn → type dn = Some "GET_CACHE_NAME" → ports ask_name = p1 :: ps1 →
  data ask_stats = Some ds → type ds = Some "GET_CACHE_STATS" → ports ask_stats = p2 :: ps2 →
  let installed := (exec sched (on_install s0).1).1 in
  let N := length URLS_TO_CACHE in
  let K := length (List.filter (fetch_fails (env s0)) URLS_TO_CACHE) in
  let R := length (List.filter (put_refused (env s0)) URLS_TO_CACHE) in
  List.filter is_reply (events (arun (on_message ask_name) [] installed)) =
    [MAct (Reply p1 (CACHE_NAME_RESPONSE CACHE_NAME true true))] ∧
  ∃ listed,
    List.filter is_reply (events (arun (on_stats_message ask_stats) [] installed)) =
      [MAct (Reply p2 (CACHE_STATS_RESPONSE (Some (mkStats CACHE_NAME (N - K - R) listed))))] ∧
    ∀ k, k ∈ listed ↔ is_Some (lookup_cached (env installed) k).
Proof.
  intros Hp Ht Hnew Hlen Hdn Htn Hpn Hds Hts Hps installed N K R.
  destruct (install_final s0 sched Hp Ht Hnew Hlen) as (phs & HF & Hs & Hst).
  fold installed in Hst.
  assert (Hcache : caches (env installed) !! CACHE_NAME = Some (cache_of URLS_TO_CACHE phs)).
  { rewrite Hst. cbn [env caches ist]. unfold with_cache. apply lookup_insert_eq. }
  assert (Hinst : isInstalled installed = true) by (by rewrite Hst).
  split.
  - unfold on_message. rewrite Hdn, Htn. rewrite decide_True by done.
    cbn [arun do_mact events List.filter is_reply].
    destruct (handleCacheNameRequest_run ask_name [] installed)
      as (_ & _ & Hreply & _).
    rewrite Hreply, Hpn. cbn [meanwhile].
    rewrite Hinst, Hcache. by rewrite bool_decide_eq_true_2.
  - unfold on_stats_message. rewrite Hds, Hts. rewrite decide_True by done.
    rewrite arun_abind. cbv zeta.
    destruct (getCacheStats_run installed) as (Hres & Hfin & Hun & Hrep).
    rewrite Hres, Hfin, Hun. unfold replyOn. rewrite Hps.
    cbn [arun do_mact events]. rewrite List.filter_app, Hrep.
    cbn [List.filter is_reply app]. rewrite Hcache. cbn [default].
    exists (elements (dom (cache_of URLS_TO_CACHE phs))). split.
    + cbn [id].
      pose proof (Forall2_length _ _ _ HF) as Hl.
      assert (Hsize : size (cache_of URLS_TO_CACHE phs) = N - K - R).
      { rewrite cache_of_size by (done || apply manifest_keys_NoDup).
        rewrite (stored_count _ _ _ HF Hs), filter_partition_length,
          failed_or_refused_count.
        fold N K R. lia. }
      by rewrite Hsize.
    + intros k. rewrite elem_of_elements, elem_of_dom. unfold lookup_cached.
      by rewrite Hcache.
Qed.


End ServiceWorker.

(** * The statements at the example deployment *)

(** Two of the twelve fetches fail there and no response is refused: ten
    entries are stored. *)
Lemma install_tolerates_failures_witness :
  let s := (exec (replicate 26 0) (on_install ex_origin ex_scope ex_stamp ex_state).1).1 in
  length (List.filter (fetch_fails ex_origin ex_scope (env ex_state)) URLS_TO_CACHE) = 2 ∧
  length (List.filter (put_refused ex_origin ex_scope (env ex_state)) URLS_TO_CACHE) = 0 ∧
  tasks s = [RDone (Fulfilled VUndefined)] ∧
  size <$> caches (env s) !! CACHE_NAME ex_stamp = Some 10 ∧
  isInstalled s = true.
Proof.
  pose proof (install_tolerates_failures ex_origin ex_scope ex_stamp ex_state
                (replicate 26 0) eq_refl eq_refl eq_refl) as H.
  assert (Hlen : (2 + 2 * length URLS_TO_CACHE ≤ length (replicate 26 0))%nat).
  { vm_compute. lia. }
  specialize (H Hlen). cbv zeta in H.
  destruct H as (H1 & H2 & H3 & _).
  split; [reflexivity|]. split; [reflexivity|].
  split; [exact H1|]. split; [exact H2|exact H3].
Defined.

(** C1, as stated, fails: behind the server that answers the request for
    the manifest with status 206 none of the twelve fetches fails, the
    install completes, and the new cache holds eleven entries, not
    twelve: the cache has refused the partial response, and the URL was
    skipped with a warning like one whose fetch failed. *)
Lemma refused_response_not_stored_counterexample :
  let first := on_install ex_origin ex_scope ex_stamp ex_range_state in
  let run := exec (replicate 26 0) first.1 in
  List.filter (fetch_fails ex_origin ex_scope (env ex_range_state)) URLS_TO_CACHE = [] ∧
  tasks run.1 = [RDone (Fulfilled VUndefined)] ∧
  size <$> caches (env run.1) !! CACHE_NAME ex_stamp = Some 11 ∧
  lookup_cached ex_stamp (env run.1) "https://example.org/app/manifest.json" = None ∧
  omap warned run.2 = ["./manifest.json"] ∧
  ¬ stores_all_but_failed_fetches ex_origin ex_scope ex_stamp ex_range_state run.1.
Proof.
  cbv zeta.
  assert (Hsize : size <$> caches (env (exec (replicate 26 0)
                     (on_install ex_origin ex_scope ex_stamp ex_range_state).1).1)
                     !! CACHE_NAME ex_stamp = Some 11)
    by (vm_compute; reflexivity).
  split; [reflexivity|]. split; [vm_compute; reflexivity|]. split; [exact Hsize|].
  split; [vm_compute; reflexivity|]. split; [vm_compute; reflexivity|].
  unfold stores_all_but_failed_fetches. rewrite Hsize. discriminate.
Qed.

(** With the network down all twelve fetches fail, and the closing line
    still counts twelve successes and no failure. *)
Lemma install_reports_zero_failed_witness :
  let first := on_install ex_origin ex_scope ex_stamp ex_offline_state in
  let trace := first.2 ++ (exec (replicate 26 0) first.1).2 in
  length (List.filter (fetch_fails ex_origin ex_scope (env ex_offline_state)) URLS_TO_CACHE) = 12 ∧
  In (EvAct (Log (LogCacheCreationComplete 12 0))) trace ∧
  ∀ successful failed,
    In (EvAct (Log (LogCacheCreationComplete successful failed))) trace → failed = 0.
Proof.
  pose proof (install_reports_zero_failed ex_origin ex_scope ex_stamp ex_offline_state
                (replicate 26 0) eq_refl eq_refl eq_refl) as H.
  cbv zeta in H. destruct H as [Hall Hlogged].
  split; [reflexivity|]. split.
  - apply Hlogged. vm_compute. lia.
  - intros successful failed Hin. exact (proj2 (Hall successful failed Hin)).
Defined.

(** A second install event after two settlements of the first. *)
Lemma install_coalesces_witness :
  let first := on_install ex_origin ex_scope ex_stamp ex_state in
  let run1 := exec [0; 3] first.1 in
  let second := on_install ex_origin ex_scope ex_stamp run1.1 in
  let run2 := exec (replicate 26 0) second.1 in
  second.1 = run1.1 ∧
  List.filter is_fetch_call (first.2 ++ run1.2 ++ second.2 ++ run2.2) =
  manifest_fetches ex_origin ex_scope.
Proof.
  pose proof (install_coalesces ex_origin ex_scope ex_stamp ex_state [0; 3] (replicate 26 0)
                eq_refl eq_refl eq_refl) as H.
  cbv zeta in H. destruct H as (H1 & _ & _ & _ & _ & H2).
  split; [exact H1|]. apply H2. vm_compute. lia.
Defined.

(** Activation at the example deployment once the current version is
    installed: the cache of version 1.71 goes, the unrelated one stays. *)
Lemma activation_keeps_one_version_witness :
  is_Some (caches (env ex_installed_state) !! CACHE_NAME ex_stamp) ∧
  filter (λ n, startsWith n CACHE_BASE_NAME = true)
    (elements (dom (caches (env
       (exec (replicate 6 0) (on_activate ex_stamp ex_installed_state).1).1))))
    = [CACHE_NAME ex_stamp].
Proof.
  assert (Hcur : is_Some (caches (env ex_installed_state) !! CACHE_NAME ex_stamp)).
  { apply (bool_decide_unpack _). vm_compute. reflexivity. }
  assert (Hlen : (3 + size (caches (env ex_installed_state)) ≤ length (replicate 6 0))%nat).
  { apply (bool_decide_unpack _). vm_compute. reflexivity. }
  split; [exact Hcur|].
  exact (proj1 (proj2 (activation_keeps_one_version ex_stamp ex_installed_state
                         (replicate 6 0) eq_refl Hcur Hlen))).
Defined.

(** The order of an activation run at the example deployment. *)
Lemma activation_claims_first_notifies_last_witness :
  let first := on_activate ex_stamp ex_state in
  let trace := first.2 ++ (exec [1; 0; 0; 0; 0] first.1).2 in
  In (activation_notice ex_stamp 1) trace ∧ In (activation_notice ex_stamp 2) trace ∧
  ∀ pre n post, trace = pre ++ EvCall (CachesDelete n) :: post →
    In (EvCall ClientsClaim) pre.
Proof.
  pose proof (activation_claims_first_notifies_last ex_stamp ex_state [1; 0; 0; 0; 0]
                eq_refl) as H.
  cbv zeta in H. destruct H as (_ & H1 & _ & H2).
  assert (Hlen : (3 + size (caches (env ex_state)) ≤ length [1; 0; 0; 0; 0])%nat).
  { apply (bool_decide_unpack _). vm_compute. reflexivity. }
  split; [apply (H2 Hlen); simpl; auto|]. split; [apply (H2 Hlen); simpl; auto|].
  exact H1.
Defined.

(** C3, as stated, fails: in this run clients.claim() is called, and even
    settles, before the cache of version 1.71 is deleted. *)
Lemma activation_deletes_before_claim_counterexample :
  let first := on_activate ex_stamp ex_state in
  let trace := first.2 ++ (exec [1; 0; 0; 0] first.1).2 in
  superseded ex_stamp "calendar-calculator-v1.71-1690000000000" = true ∧
  is_Some (caches (env ex_state) !! "calendar-calculator-v1.71-1690000000000") ∧
  trace =
    [EvAct (Log LogActivating); EvCall CachesKeys; EvCall ClientsClaim; EvWaitUntil 0;
     EvSettle ClientsClaim;
     EvSettle CachesKeys;
     EvAct (Log (LogDeletingOldCache "calendar-calculator-v1.71-1690000000000"));
     EvCall (CachesDelete "calendar-calculator-v1.71-1690000000000");
     EvSettle (CachesDelete "calendar-calculator-v1.71-1690000000000");
     EvAct (Log LogActivationComplete); EvAct (SetInstalled true); EvCall ClientsMatchAll;
     EvSettle ClientsMatchAll;
     activation_notice ex_stamp 1; activation_notice ex_stamp 2;
     EvAct (Log (LogNotified 2)); EvDone 0 (Fulfilled VUndefined)] ∧
  ¬ deletion_before_claim ["calendar-calculator-v1.71-1690000000000"] trace.
Proof.
  split; [reflexivity|]. split; [by eexists|].
  assert (Htrace : (on_activate ex_stamp ex_state).2 ++
                   (exec [1; 0; 0; 0] (on_activate ex_stamp ex_state).1).2 =
    [EvAct (Log LogActivating); EvCall CachesKeys; EvCall ClientsClaim; EvWaitUntil 0;
     EvSettle ClientsClaim;
     EvSettle CachesKeys;
     EvAct (Log (LogDeletingOldCache "calendar-calculator-v1.71-1690000000000"));
     EvCall (CachesDelete "calendar-calculator-v1.71-1690000000000");
     EvSettle (CachesDelete "calendar-calculator-v1.71-1690000000000");
     EvAct (Log LogActivationComplete); EvAct (SetInstalled true); EvCall ClientsMatchAll;
     EvSettle ClientsMatchAll;
     activation_notice ex_stamp 1; activation_notice ex_stamp 2;
     EvAct (Log (LogNotified 2)); EvDone 0 (Fulfilled VUndefined)]).
  { by vm_compute. }
  split; [exact Htrace|].
  cbv zeta. rewrite Htrace. intros H.
  specialize (H [EvAct (Log LogActivating); EvCall CachesKeys] _ eq_refl
                "calendar-calculator-v1.71-1690000000000" (or_introl eq_refl)).
  simpl in H. intuition discriminate.
Qed.

(** The start page of the installed worker is served from the cache. *)
Lemma cached_request_served_without_network_witness :
  let answered := on_fetch ex_origin ex_scope ex_stamp ex_page_request ex_installed_state in
  routed ex_origin ex_page_request ∧
  lookup_cached ex_stamp (env ex_installed_state) (url ex_page_request)
    = Some (ex_page "https://example.org/app/") ∧
  tasks (exec [0; 0] answered.1.2).1 !! 0
    = Some (RDone (Fulfilled (VResponse (ex_page "https://example.org/app/")))).
Proof.
  assert (Hr : routed ex_origin ex_page_request) by (repeat split; reflexivity).
  assert (Hc : lookup_cached ex_stamp (env ex_installed_state) (url ex_page_request)
               = Some (ex_page "https://example.org/app/")) by (vm_compute; reflexivity).
  split; [exact Hr|]. split; [exact Hc|].
  exact (proj1 (proj2 (cached_request_served_without_network ex_origin ex_scope ex_stamp
                         ex_installed_state ex_page_request _ 0 0 eq_refl Hr Hc))).
Defined.

(** C5, as stated, fails for the worker's own script: its URL has an
    entry in the current cache, and yet the router calls fetch and, the
    network being down, answers with the rejection of that fetch. *)
Lemma cached_worker_script_fetched_counterexample :
  let request := ex_worker_script_request in
  let answered := on_fetch ex_origin ex_scope ex_stamp request ex_cut_off_state in
  let served := exec [0; 0] answered.1.2 in
  method request = "GET" ∧ startsWith (url request) ex_origin = true ∧
  lookup_cached ex_stamp (env ex_cut_off_state) (url request)
    = Some (ex_page "https://example.org/app/sw.js") ∧
  answered.2 ++ served.2 =
    [EvCall (Fetch "https://example.org/app/sw.js" FetchPlain); EvRespondWith 0;
     EvSettle (Fetch "https://example.org/app/sw.js" FetchPlain);
     EvDone 0 (Rejected "Failed to fetch")] ∧
  tasks served.1 = [RDone (Rejected "Failed to fetch")].
Proof. repeat split; vm_compute; reflexivity. Qed.

(** Offline, with nothing cached, a navigation gets the placeholder. *)
Lemma page_request_gets_offline_placeholder_witness :
  let answered := on_fetch ex_origin ex_scope ex_stamp ex_page_request ex_offline_state in
  routed ex_origin ex_page_request ∧
  isHTMLRequest ex_page_request = true ∧
  network_fails (env ex_offline_state) ex_page_request = true ∧
  tasks (exec (replicate 6 0) answered.1.2).1
    = [RDone (Fulfilled (VResponse createOfflineResponse))].
Proof.
  assert (Hr : routed ex_origin ex_page_request) by (repeat split; reflexivity).
  assert (Hmiss : ∀ k, In k (lookup_keys ex_origin ex_scope ex_page_request) →
                       lookup_cached ex_stamp (env ex_offline_state) k = None).
  { intros k Hin. vm_compute in Hin.
    destruct Hin as [<-|[<-|[<-|[<-|[]]]]]; vm_compute; reflexivity. }
  split; [exact Hr|]. split; [reflexivity|]. split; [reflexivity|].
  exact (proj1 (proj2 (page_request_gets_offline_placeholder ex_origin ex_scope ex_stamp
                         ex_offline_state ex_page_request (replicate 6 0)
                         eq_refl Hr eq_refl Hmiss eq_refl eq_refl))).
Defined.

(** C6, as stated, fails for the worker's own script: a same-origin GET
    navigation to it, nothing cached, the network down, and the router
    answers with the rejection of its fetch, not with the placeholder. *)
Lemma worker_script_navigation_rejected_counterexample :
  let request := ex_worker_script_request in
  let answered := on_fetch ex_origin ex_scope ex_stamp request ex_offline_state in
  method request = "GET" ∧ startsWith (url request) ex_origin = true ∧
  isHTMLRequest request = true ∧
  (∀ k, In k (lookup_keys ex_origin ex_scope request) →
        lookup_cached ex_stamp (env ex_offline_state) k = None) ∧
  network_fails (env ex_offline_state) request = true ∧
  tasks (exec [0] answered.1.2).1 = [RDone (Rejected "Failed to fetch")] ∧
  tasks (exec (replicate 6 0) answered.1.2).1 = [RDone (Rejected "Failed to fetch")].
Proof.
  repeat split; vm_compute; reflexivity.
Qed.

(** Offline, the request of a script of the page is answered with the
    generic error response. *)
Lemma resource_request_failure_surfaces_witness :
  let answered := on_fetch ex_origin ex_scope ex_stamp ex_script_request ex_offline_state in
  isHTMLRequest ex_script_request = false ∧
  network_fails (env ex_offline_state) ex_script_request = true ∧
  ∃ o, tasks (exec [0; 0; 0] answered.1.2).1 = [RDone o] ∧
       surfaced_as_failure o ∧ o ≠ Fulfilled (VResponse createOfflineResponse).
Proof.
  split; [reflexivity|]. split; [reflexivity|].
  destruct (proj2 (resource_request_failure_surfaces ex_origin ex_scope ex_stamp
                     ex_offline_state ex_script_request [0; 0; 0]
                     eq_refl eq_refl eq_refl eq_refl eq_refl eq_refl eq_refl))
    as (o & Ho & Hf & Hne & _).
  exists o. split; [exact Ho|]. split; [exact Hf|exact Hne].
Defined.

(** A script of the page fetched on a cache miss: returned first, stored
    afterwards. *)
Lemma network_response_copy_put_not_awaited_witness :
  let r := ex_page "https://example.org/app/i18n.js" in
  let waiting :=
    (exec [0; 0] (on_fetch ex_origin ex_scope ex_stamp ex_script_request ex_state).1.2).1 in
  let returned := step 0 (step 0 waiting).1 in
  let stored := step 0 returned.1 in
  routed ex_origin ex_script_request ∧
  net (env ex_state) (url ex_script_request) = NetOk r ∧
  tasks returned.1 = [RDone (Fulfilled (VResponse r)); storingCopy ex_stamp ex_script_request r] ∧
  lookup_cached ex_stamp (env returned.1) (url ex_script_request) = None ∧
  lookup_cached ex_stamp (env stored.1) (url ex_script_request) = Some r.
Proof.
  assert (Hr : routed ex_origin ex_script_request) by (repeat split; reflexivity).
  assert (Hmiss : ∀ k, In k (lookup_keys ex_origin ex_scope ex_script_request) →
                       lookup_cached ex_stamp (env ex_state) k = None).
  { intros k Hin. vm_compute in Hin. destruct Hin as [<-|[]]. vm_compute. reflexivity. }
  pose proof (network_response_copy_put_not_awaited ex_origin ex_scope ex_stamp ex_state
                ex_script_request (ex_page "https://example.org/app/i18n.js") [0; 0] 0 0 0
                eq_refl Hr Hmiss eq_refl eq_refl eq_refl) as H.
  cbv zeta in H. destruct H as (_ & _ & H1 & H2 & _ & _ & H3).
  split; [exact Hr|]. split; [reflexivity|]. split; [exact H1|]. split; [exact H2|exact H3].
Defined.

(** C8, as stated, fails: when the response of the network is in the
    caller's hands its copy is not in the cache yet. *)
Lemma copy_not_stored_when_returned_counterexample :
  let r := ex_page "https://example.org/app/i18n.js" in
  let returned :=
    (exec [0; 0; 0; 0]
       (on_fetch ex_origin ex_scope ex_stamp ex_script_request ex_state).1.2).1 in
  tasks returned !! 0 = Some (RDone (Fulfilled (VResponse r))) ∧
  lookup_cached ex_stamp (env returned) (url ex_script_request) = None ∧
  ¬ copy_stored_when_returned ex_stamp returned (url ex_script_request).
Proof.
  cbv zeta.
  assert (H1 : tasks (exec [0; 0; 0; 0]
                  (on_fetch ex_origin ex_scope ex_stamp ex_script_request ex_state).1.2).1 !! 0
               = Some (RDone (Fulfilled (VResponse (ex_page "https://example.org/app/i18n.js")))))
    by (vm_compute; reflexivity).
  assert (H2 : lookup_cached ex_stamp
                 (env (exec [0; 0; 0; 0]
                    (on_fetch ex_origin ex_scope ex_stamp ex_script_request ex_state).1.2).1)
                 (url ex_script_request) = None)
    by (vm_compute; reflexivity).
  split; [exact H1|]. split; [exact H2|].
  intros H. specialize (H _ H1). rewrite H2 in H. discriminate H.
Qed.

(** Two page requests for different resources, 29.999 seconds apart: the
    first refresh fetches, the second does not. *)
Lemma background_refresh_rate_limited_witness :
  let t1 := 1700000001000%Z in
  let t2 := 1700000030999%Z in
  let first := start (updateInBackground ex_stamp ex_page_request (Ret VUndefined))
                 (at_time ex_installed_state t1) in
  let second := start (updateInBackground ex_stamp ex_script_request (Ret VUndefined))
                  (at_time first.1.2 t2) in
  fetch_calls first.2 = 1 ∧
  (fetch_calls first.2 + fetch_calls second.2 ≤ 1)%nat.
Proof.
  split; [reflexivity|].
  assert (Ht1 : 1700000001000%Z ≠ 0%Z) by discriminate.
  assert (Hw : (1700000030999 - 1700000001000 < 30000)%Z) by reflexivity.
  exact (proj1 (background_refresh_rate_limited ex_stamp ex_installed_state
                  ex_page_request ex_script_request _ _ Ht1 Hw)).
Defined.

(** * The further properties at the example deployment *)

(** Behind the server that answers the request for the manifest with
    status 206: the index page is stored as the network served it, and
    the manifest has no entry. *)
Lemma install_stores_fetched_responses_witness :
  let s := (exec (replicate 26 0)
              (on_install ex_origin ex_scope ex_stamp ex_range_state).1).1 in
  installed_entry ex_origin ex_scope (env ex_range_state) "./index.html" =
    Some (ex_page "https://example.org/app/index.html") ∧
  installed_entry ex_origin ex_scope (env ex_range_state) "./manifest.json" = None ∧
  lookup_cached ex_stamp (env s) (resolve ex_origin ex_scope "./index.html") =
    installed_entry ex_origin ex_scope (env ex_range_state) "./index.html" ∧
  lookup_cached ex_stamp (env s) (resolve ex_origin ex_scope "./manifest.json") =
    installed_entry ex_origin ex_scope (env ex_range_state) "./manifest.json".
Proof.
  assert (Hlen : (2 + 2 * length URLS_TO_CACHE ≤ length (replicate 26 0))%nat).
  { vm_compute. lia. }
  pose proof (proj1 (install_stores_fetched_responses ex_origin ex_scope ex_stamp
                       ex_range_state (replicate 26 0) eq_refl eq_refl eq_refl Hlen)) as H.
  split; [vm_compute; reflexivity|]. split; [vm_compute; reflexivity|]. split.
  - exact (H "./index.html" (or_intror (or_introl eq_refl))).
  - exact (H "./manifest.json" (or_intror (or_intror (or_intror (or_introl eq_refl))))).
Defined.

(** Three settlements into the install the cache of version 1.71 is
    still there. *)
Lemma install_leaves_other_caches_witness :
  let s := (exec [0; 3; 1] (on_install ex_origin ex_scope ex_stamp ex_state).1).1 in
  caches (env s) !! "calendar-calculator-v1.71-1690000000000" =
  caches (env ex_state) !! "calendar-calculator-v1.71-1690000000000".
Proof.
  refine (proj1 (install_leaves_other_caches ex_origin ex_scope ex_stamp ex_state [0; 3; 1]
                   eq_refl eq_refl eq_refl) _ _).
  apply String.eqb_neq. vm_compute. reflexivity.
Defined.

(** The two clients of the example are notified once each. *)
Lemma activation_notifies_each_client_once_witness :
  let first := on_activate ex_stamp ex_installed_state in
  List.filter is_post (first.2 ++ (exec (replicate 6 0) first.1).2) =
  (λ c, EvAct (PostMessage c (SW_ACTIVATED (CACHE_NAME ex_stamp) (CACHE_VERSION ex_stamp))))
    <$> clients (env ex_installed_state).
Proof.
  assert (Hlen : (3 + size (caches (env ex_installed_state)) ≤ length (replicate 6 0))%nat).
  { apply (bool_decide_unpack _). vm_compute. reflexivity. }
  exact (proj1 (activation_notifies_each_client_once ex_stamp ex_installed_state
                  (replicate 6 0) eq_refl Hlen)).
Defined.

(** Install and activation at the example deployment. *)
Lemma install_then_activate_one_version_witness :
  let installed :=
    (exec (replicate 26 0) (on_install ex_origin ex_scope ex_stamp ex_state).1).1 in
  let s := (exec (replicate 7 0) (on_activate ex_stamp installed).1).1 in
  filter (λ n, startsWith n CACHE_BASE_NAME = true) (elements (dom (caches (env s))))
    = [CACHE_NAME ex_stamp].
Proof.
  assert (Hlen1 : (2 + 2 * length URLS_TO_CACHE ≤ length (replicate 26 0))%nat).
  { vm_compute. lia. }
  assert (Hlen2 : (4 + size (caches (env ex_state)) ≤ length (replicate 7 0))%nat).
  { apply (bool_decide_unpack _). vm_compute. reflexivity. }
  exact (proj1 (install_then_activate_one_version ex_origin ex_scope ex_stamp ex_state
                  (replicate 26 0) (replicate 7 0) eq_refl eq_refl eq_refl Hlen1 Hlen2)).
Defined.

(** The start page of the installed worker. *)
Lemma routed_request_always_answered_witness :
  let answered := on_fetch ex_origin ex_scope ex_stamp ex_page_request ex_installed_state in
  answer ex_origin ex_scope ex_stamp (env ex_installed_state) ex_page_request =
    ex_page "https://example.org/app/" ∧
  ∃ p, answered.1.1 = Some p ∧
       tasks (exec (replicate 7 0) answered.1.2).1 !! p =
       Some (RDone (Fulfilled (VResponse
         (answer ex_origin ex_scope ex_stamp (env ex_installed_state) ex_page_request)))).
Proof.
  assert (Hr : routed ex_origin ex_page_request) by (repeat split; reflexivity).
  assert (Hlen : (3 + length (lookup_keys ex_origin ex_scope ex_page_request) ≤
                  length (replicate 7 0))%nat).
  { vm_compute. lia. }
  split; [vm_compute; reflexivity|].
  exact (routed_request_always_answered ex_origin ex_scope ex_stamp ex_installed_state
           ex_page_request (replicate 7 0) eq_refl Hr Hlen).
Defined.

(** The start page has changed on the server: the entry is replaced. *)
Lemma cached_page_refreshed_in_background_witness :
  let run := exec (replicate 7 0)
               (on_fetch ex_origin ex_scope ex_stamp ex_page_request ex_stale_state).1.2 in
  let stored := mkResponse 200 (content_type (ex_page "https://example.org/app/"))
                  (body (ex_page "https://example.org/app/")) false in
  tasks run.1 = [RDone (Fulfilled (VResponse
                   (mkResponse 200 "text/html" "the page of yesterday" false)));
                 RDone (Fulfilled VUndefined)] ∧
  lookup_cached ex_stamp (env run.1) (url ex_page_request) = Some stored.
Proof.
  assert (Hr : routed ex_origin ex_page_request) by (repeat split; reflexivity).
  assert (Hhit : lookup_cached ex_stamp (env ex_stale_state) (url ex_page_request) =
                 Some (mkResponse 200 "text/html" "the page of yesterday" false)).
  { vm_compute. reflexivity. }
  assert (Hnet : net (env ex_stale_state) (url ex_page_request) =
                 NetOk (ex_page "https://example.org/app/")).
  { vm_compute. reflexivity. }
  assert (Hdiff : body (ex_page "https://example.org/app/") ≠
                  body (mkResponse 200 "text/html" "the page of yesterday" false)).
  { apply String.eqb_neq. vm_compute. reflexivity. }
  assert (Hlen : (7 ≤ length (replicate 7 0))%nat) by (vm_compute; lia).
  pose proof (cached_page_refreshed_in_background ex_origin ex_scope ex_stamp ex_stale_state
                ex_page_request _ _ (replicate 7 0) eq_refl Hr eq_refl Hhit eq_refl Hnet
                eq_refl Hdiff Hlen) as H.
  cbv zeta in H. destruct H as (H1 & H2 & _). split; [exact H1|exact H2].
Defined.

(** The start page has not changed: nothing is stored, nobody notified. *)
Lemma refresh_without_change_is_silent_witness :
  let run := exec (replicate 7 0)
               (on_fetch ex_origin ex_scope ex_stamp ex_page_request ex_installed_state).1.2 in
  tasks run.1 = [RDone (Fulfilled (VResponse (ex_page "https://example.org/app/")));
                 RDone (Fulfilled VUndefined)] ∧
  List.filter is_post run.2 = [].
Proof.
  assert (Hr : routed ex_origin ex_page_request) by (repeat split; reflexivity).
  assert (Hhit : lookup_cached ex_stamp (env ex_installed_state) (url ex_page_request) =
                 Some (ex_page "https://example.org/app/")).
  { vm_compute. reflexivity. }
  assert (Hsame : ∀ live,
            net (env ex_installed_state) (url ex_page_request) = NetOk live →
            ok live = true → body live = body (ex_page "https://example.org/app/")).
  { intros live Hnet _. vm_compute in Hnet. injection Hnet as <-. reflexivity. }
  assert (Hlen : (7 ≤ length (replicate 7 0))%nat) by (vm_compute; lia).
  pose proof (refresh_without_change_is_silent ex_origin ex_scope ex_stamp ex_installed_state
                ex_page_request _ (replicate 7 0) eq_refl Hr eq_refl Hhit eq_refl Hsame Hlen)
    as H.
  cbv zeta in H. destruct H as (H1 & _ & H3). split; [exact H1|exact H3].
Defined.

(** A page that the manifest does not list is answered with the start
    page, and its refresh stores nothing. *)
Lemma fallback_page_is_never_refreshed_witness :
  let run := exec (replicate 10 0)
               (on_fetch ex_origin ex_scope ex_stamp ex_about_request ex_installed_state).1.2 in
  tasks run.1 = [RDone (Fulfilled (VResponse (ex_page "https://example.org/app/")));
                 RDone (Fulfilled VUndefined)] ∧
  In (EvCall (Fetch (url ex_about_request) FetchNoCache)) run.2 ∧
  List.filter is_post run.2 = [].
Proof.
  assert (Hr : routed ex_origin ex_about_request) by (repeat split; reflexivity).
  assert (Hmiss : lookup_cached ex_stamp (env ex_installed_state) (url ex_about_request) = None).
  { vm_compute. reflexivity. }
  assert (Hfirst : first_cached ex_stamp (env ex_installed_state)
                     (lookup_keys ex_origin ex_scope ex_about_request) =
                   Some (ex_page "https://example.org/app/")).
  { vm_compute. reflexivity. }
  assert (Hlen : (10 ≤ length (replicate 10 0))%nat) by (vm_compute; lia).
  pose proof (fallback_page_is_never_refreshed ex_origin ex_scope ex_stamp ex_installed_state
                ex_about_request _ (replicate 10 0) eq_refl Hr eq_refl Hmiss Hfirst eq_refl Hlen)
    as H.
  cbv zeta in H. destruct H as (H1 & H2 & _ & H4).
  split; [exact H1|]. split; [exact H2|exact H4].
Defined.

(** The worker's own script with the network down: the rejection of the
    fetch is the answer, although the script has an entry in the cache. *)
Lemma worker_script_answered_by_network_witness :
  let answered :=
    on_fetch ex_origin ex_scope ex_stamp ex_worker_script_request ex_cut_off_state in
  let settled := step 0 answered.1.2 in
  is_Some (lookup_cached ex_stamp (env ex_cut_off_state) (url ex_worker_script_request)) ∧
  tasks settled.1 !! length (tasks ex_cut_off_state) =
    Some (RDone (fetched (env ex_cut_off_state) (url ex_worker_script_request))) ∧
  env settled.1 = env ex_cut_off_state.
Proof.
  split; [apply (bool_decide_unpack _); vm_compute; reflexivity|].
  pose proof (worker_script_answered_by_network ex_origin ex_scope ex_stamp ex_cut_off_state
                ex_worker_script_request 0 eq_refl eq_refl eq_refl eq_refl) as H.
  cbv zeta in H. destruct H as (_ & H2 & H3 & _). split; [exact H2|exact H3].
Defined.

(** A script fetched once is answered from the cache when the network is
    down. *)
Lemma network_answer_is_served_from_cache_next_witness :
  let first := exec (replicate 5 0)
                 (on_fetch ex_origin ex_scope ex_stamp ex_script_request ex_state).1.2 in
  let again := on_fetch ex_origin ex_scope ex_stamp ex_script_request
                 (with_net first.1 (λ _, NetFail)) in
  ∃ p, again.1.1 = Some p ∧
       tasks (exec (replicate 4 0) again.1.2).1 !! p =
       Some (RDone (Fulfilled (VResponse (ex_page "https://example.org/app/i18n.js")))).
Proof.
  assert (Hr : routed ex_origin ex_script_request) by (repeat split; reflexivity).
  assert (Hmiss : ∀ k, In k (lookup_keys ex_origin ex_scope ex_script_request) →
                       lookup_cached ex_stamp (env ex_state) k = None).
  { intros k Hk. vm_compute in Hk. destruct Hk as [<-|[]]. vm_compute. reflexivity. }
  assert (Hnet : net (env ex_state) (url ex_script_request) =
                 NetOk (ex_page "https://example.org/app/i18n.js")).
  { vm_compute. reflexivity. }
  assert (Hlen1 : (4 + length (lookup_keys ex_origin ex_scope ex_script_request) ≤
                   length (replicate 5 0))%nat) by (vm_compute; lia).
  assert (Hlen2 : (3 + length (lookup_keys ex_origin ex_scope ex_script_request) ≤
                   length (replicate 4 0))%nat) by (vm_compute; lia).
  pose proof (network_answer_is_served_from_cache_next ex_origin ex_scope ex_stamp ex_state
                ex_script_request _ (λ _, NetFail) (replicate 5 0) (replicate 4 0)
                eq_refl Hr Hmiss Hnet eq_refl eq_refl Hlen1 Hlen2) as H.
  cbv zeta in H. exact (proj2 H).
Defined.

(** The script of the translations, installed, is served while the
    network is down. *)
Lemma installed_resource_served_offline_witness :
  let installed :=
    (exec (replicate 26 0) (on_install ex_origin ex_scope ex_stamp ex_state).1).1 in
  let answered := on_fetch ex_origin ex_scope ex_stamp ex_script_request
                    (with_net installed (λ _, NetFail)) in
  ∃ p, answered.1.1 = Some p ∧
       tasks (exec (replicate 4 0) answered.1.2).1 !! p =
       Some (RDone (Fulfilled (VResponse (ex_page "https://example.org/app/i18n.js")))).
Proof.
  assert (Hr : routed ex_origin ex_script_request) by (repeat split; reflexivity).
  assert (Hlen1 : (2 + 2 * length URLS_TO_CACHE ≤ length (replicate 26 0))%nat).
  { vm_compute. lia. }
  assert (Hin : In "./i18n.js" URLS_TO_CACHE) by (right; right; left; reflexivity).
  assert (Hentry : installed_entry ex_origin ex_scope (env ex_state) "./i18n.js" =
                   Some (ex_page "https://example.org/app/i18n.js")).
  { vm_compute. reflexivity. }
  assert (Hurl : url ex_script_request = resolve ex_origin ex_scope "./i18n.js").
  { vm_compute. reflexivity. }
  assert (Hlen2 : (3 + length (lookup_keys ex_origin ex_scope ex_script_request) ≤
                   length (replicate 4 0))%nat) by (vm_compute; lia).
  exact (installed_resource_served_offline ex_origin ex_scope ex_stamp ex_state "./i18n.js" _
           ex_script_request (λ _, NetFail) (replicate 26 0) (replicate 4 0)
           eq_refl eq_refl eq_refl Hlen1 Hin Hentry Hr Hurl Hlen2).
Defined.

(** Three page requests, at one second, two seconds and thirty-one
    seconds on the clock: the first and the third refresh. *)
Lemma background_refresh_resumes_witness :
  let first := start (updateInBackground ex_stamp ex_page_request (Ret VUndefined))
                 (at_time ex_state 1000) in
  let second := start (updateInBackground ex_stamp ex_page_request (Ret VUndefined))
                  (at_time first.1.2 2000) in
  let third := start (updateInBackground ex_stamp ex_page_request (Ret VUndefined))
                 (at_time second.1.2 31000) in
  fetch_calls first.2 = 1 ∧ fetch_calls second.2 = 0 ∧ fetch_calls third.2 = 1.
Proof.
  pose proof (background_refresh_resumes ex_stamp ex_state ex_page_request ex_page_request
                ex_page_request 1000 2000 31000 eq_refl) as H.
  cbv zeta in H. destruct H as (H1 & H2 & H3).
  split; [exact H1|]. split; [exact H2|]. apply H3; lia.
Defined.

(** Behind the server that answers the request for the manifest with
    status 206 no fetch fails, and the manifest is the one URL that is
    warned about. *)
Lemma install_warns_of_each_failure_witness :
  let first := on_install ex_origin ex_scope ex_stamp ex_range_state in
  List.filter (fetch_fails ex_origin ex_scope (env ex_range_state)) URLS_TO_CACHE = [] ∧
  List.filter (λ u, fetch_fails ex_origin ex_scope (env ex_range_state) u ||
                    put_refused ex_origin ex_scope (env ex_range_state) u) URLS_TO_CACHE =
    ["./manifest.json"] ∧
  omap warned (first.2 ++ (exec (replicate 26 0) first.1).2) ≡ₚ
  List.filter (λ u, fetch_fails ex_origin ex_scope (env ex_range_state) u ||
                    put_refused ex_origin ex_scope (env ex_range_state) u) URLS_TO_CACHE.
Proof.
  assert (Hlen : (2 + 2 * length URLS_TO_CACHE ≤ length (replicate 26 0))%nat).
  { vm_compute. lia. }
  split; [vm_compute; reflexivity|]. split; [vm_compute; reflexivity|].
  exact (install_warns_of_each_failure ex_origin ex_scope ex_stamp ex_range_state
           (replicate 26 0) eq_refl eq_refl eq_refl Hlen).
Defined.

(** An update check on the installed worker of the example: the start
    page is as the network serves it and the other two URLs have no
    entry. *)
Lemma update_check_without_changes_witness :
  let r := arun (checkForUpdates ex_origin ex_scope ex_stamp) [] ex_installed_state in
  let cs := clients (env ex_installed_state) in
  result r = inr tt ∧
  List.filter is_broadcast (events r) =
    ((λ c, MAct (Broadcast c UPDATE_CHECK_STARTED)) <$> cs) ++
    ((λ c, MAct (Broadcast c (NO_UPDATES (now ex_installed_state)))) <$> cs) ∧
  List.filter is_put (events r) = [].
Proof.
  assert (Hsame : ∀ u live cached, In u urlsToCheck →
            net (env ex_installed_state) (resolve ex_origin ex_scope u) = NetOk live →
            ok live = true →
            lookup_cached ex_stamp (env ex_installed_state) (resolve ex_origin ex_scope u)
              = Some cached →
            body live = body cached).
  { intros u live cached [<-|[<-|[<-|[]]]] Hnet _ Hc;
      vm_compute in Hnet; vm_compute in Hc; try discriminate Hc.
    injection Hnet as <-. injection Hc as <-. reflexivity. }
  pose proof (update_check_without_changes ex_origin ex_scope ex_stamp ex_installed_state
                Hsame) as H.
  cbv zeta in H. destruct H as (H1 & H2 & H3 & _).
  split; [exact H1|]. split; [exact H2|exact H3].
Defined.

(** The name of the cache asked on port 7 of the installed worker. *)
Lemma cache_name_request_answered_witness :
  let event := mkMessage (Some (mkData (Some "GET_CACHE_NAME") None)) [7] in
  let r := arun (on_message ex_origin ex_scope ex_stamp event) [] ex_installed_state in
  result r = inr tt ∧
  final r = ex_installed_state ∧
  List.filter is_reply (events r) =
    [MAct (Reply 7
             (CACHE_NAME_RESPONSE (CACHE_NAME ex_stamp)
                (bool_decide (is_Some (caches (env ex_installed_state) !! CACHE_NAME ex_stamp)))
                (isInstalled ex_installed_state)))].
Proof.
  pose proof (cache_name_request_answered ex_origin ex_scope ex_stamp
                (mkMessage (Some (mkData (Some "GET_CACHE_NAME") None)) [7])
                (mkData (Some "GET_CACHE_NAME") None) [] ex_installed_state
                eq_refl eq_refl) as H.
  cbv zeta in H. destruct H as (H1 & H2 & H3 & _).
  split; [exact H1|]. split; [exact H2|exact H3].
Defined.

(** The statistics asked on port 7 of the installed worker. *)
Lemma cache_stats_request_answered_witness :
  let event := mkMessage (Some (mkData (Some "GET_CACHE_STATS") None)) [7] in
  let r := arun (on_stats_message ex_stamp event) [] ex_installed_state in
  let c := default ∅ (caches (env ex_installed_state) !! CACHE_NAME ex_stamp) in
  size c = 1 ∧
  result r = inr tt ∧
  List.filter is_reply (events r) =
    [MAct (Reply 7
             (CACHE_STATS_RESPONSE
                (Some (mkStats (CACHE_NAME ex_stamp) (size c) (elements (dom c))))))].
Proof.
  pose proof (cache_stats_request_answered ex_origin ex_scope ex_stamp
                (mkMessage (Some (mkData (Some "GET_CACHE_STATS") None)) [7])
                (mkData (Some "GET_CACHE_STATS") None) ex_installed_state
                eq_refl eq_refl) as H.
  cbv zeta in H. destruct H as (_ & _ & H3 & H4 & _).
  split; [vm_compute; reflexivity|]. split; [exact H3|exact H4].
Defined.

(** A change of language leaves the worker as it is. *)
Lemma other_messages_only_logged_witness :
  let event := mkMessage (Some (mkData (Some "LANGUAGE_CHANGED") (Some "cs"))) [] in
  let r := arun (on_message ex_origin ex_scope ex_stamp event) [] ex_installed_state in
  result r = inr tt ∧ final r = ex_installed_state ∧
  List.filter is_call (events r) = [] ∧
  List.filter is_broadcast (events r) = [] ∧
  List.filter is_reply (events r) = [].
Proof.
  assert (Hother : ∀ d,
            data (mkMessage (Some (mkData (Some "LANGUAGE_CHANGED") (Some "cs"))) []) = Some d →
            type d ≠ Some "GET_CACHE_NAME" ∧ type d ≠ Some "SKIP_WAITING" ∧
            type d ≠ Some "CHECK_UPDATES" ∧ type d ≠ Some "GET_CACHE_STATS").
  { intros d Hd. injection Hd as <-. repeat split; discriminate. }
  pose proof (other_messages_only_logged ex_origin ex_scope ex_stamp
                (mkMessage (Some (mkData (Some "LANGUAGE_CHANGED") (Some "cs"))) [])
                [] ex_installed_state Hother) as H.
  cbv zeta in H. destruct H as (_ & H2 & H3 & _ & H5 & H6 & H7).
  split; [exact H2|]. split; [exact H3|]. split; [exact H5|]. split; [exact H6|exact H7].
Defined.

(** The worker of the example once installed: ten entries, two of the
    twelve fetches having failed and no response having been refused. *)
Lemma installed_worker_reports_witness :
  let installed :=
    (exec (replicate 26 0) (on_install ex_origin ex_scope ex_stamp ex_state).1).1 in
  let ask_name := mkMessage (Some (mkData (Some "GET_CACHE_NAME") None)) [7] in
  let ask_stats := mkMessage (Some (mkData (Some "GET_CACHE_STATS") None)) [8] in
  length URLS_TO_CACHE -
    length (List.filter (fetch_fails ex_origin ex_scope (env ex_state)) URLS_TO_CACHE) -
    length (List.filter (put_refused ex_origin ex_scope (env ex_state)) URLS_TO_CACHE) = 10 ∧
  List.filter is_reply
    (events (arun (on_message ex_origin ex_scope ex_stamp ask_name) [] installed)) =
    [MAct (Reply 7 (CACHE_NAME_RESPONSE (CACHE_NAME ex_stamp) true true))] ∧
  ∃ listed,
    List.filter is_reply (events (arun (on_stats_message ex_stamp ask_stats) [] installed)) =
      [MAct (Reply 8
               (CACHE_STATS_RESPONSE
                  (Some (mkStats (CACHE_NAME ex_stamp)
                           (length URLS_TO_CACHE -
                            length (List.filter (fetch_fails ex_origin ex_scope (env ex_state))
                                      URLS_TO_CACHE) -
                            length (List.filter (put_refused ex_origin ex_scope (env ex_state))
                                      URLS_TO_CACHE))
                           listed))))].
Proof.
  assert (Hlen : (2 + 2 * length URLS_TO_CACHE ≤ length (replicate 26 0))%nat).
  { vm_compute. lia. }
  pose proof (installed_worker_reports ex_origin ex_scope ex_stamp ex_state (replicate 26 0)
                (mkMessage (Some (mkData (Some "GET_CACHE_NAME") None)) [7])
                (mkMessage (Some (mkData (Some "GET_CACHE_STATS") None)) [8])
                (mkData (Some "GET_CACHE_NAME") None) (mkData (Some "GET_CACHE_STATS") None)
                7 8 [] [] eq_refl eq_refl eq_refl Hlen
                eq_refl eq_refl eq_refl eq_refl eq_refl eq_refl) as H.
  cbv zeta in H. destruct H as (H1 & listed & H2 & _).
  split; [vm_compute; reflexivity|]. split; [exact H1|].
  exists listed. exact H2.
Defined.

